(** * DiscoveryServiceV3: the adaptive prefix-exploration engine

    A shallow embedding of the class [DiscoveryServiceV3] (the TypeScript
    service behind the V3 dashboard): its pattern scorer, branch blocker,
    result cache, rate controller and the prefix task executor
    [processPrefix], followed by the properties the specification states
    about them.

    Conventions of the embedding.
    - JavaScript numbers that hold counters, scores and options are [Z];
      [Array.length] and [String.length] are [nat], injected with [Z.of_nat]
      where the code mixes them with counters.
    - Strings are [string]; the prefixes of this domain are lowercase ASCII,
      for which UTF-16 code units and [ascii] agree.
    - Arrays are lists: [push] appends at the end, [unshift] conses.
    - [Map]s whose iteration order is never observed are [gmap string _];
      the one [Map] that is iterated ([extractCommonPrefixes]) is an
      association list in insertion order.
    - [stats.efficiency] is the exact rational quotient ([Q]); the source
      computes the same quotient in double precision.
    - The remote endpoint and the clock are an explicit environment [Env];
      the requests put on the wire are logged in [wire] so that statements
      about "network queries issued" can be written down.
    - [async] code is modelled twice.  [processPrefix] and [run] execute
      one call of [processPrefix], retries included, to its end before
      anything else happens: this is the class with one prefix in flight.
      [Engine] and [play] keep every continuation that is suspended at an
      [await] and resume them in any order, with the public methods called
      in between: this is the class as [processQueue] drives it, with
      several activations in flight.
    - Timers ([setTimeout]) and [console.error] have no effect on the state;
      of a timer only the moment at which its continuation resumes is
      kept.  The progress callback and the completion signal of [stop()]
      only notify and are omitted; the callback is assumed not to call back
      into the service.
    - The endpoint answers with a JSON body whose [results] member, if
      present, is an array of strings, as the code declares it. *)

From Stdlib Require Import ZArith String Ascii List Lia QArith Lqa.
From stdpp Require Import gmap strings list.
Import ListNotations.

#[local] Open Scope string_scope.
#[local] Open Scope Z_scope.

(** ** JavaScript string and array primitives used by the service *)

Module Js.

(** [s.slice(0, -1)]: the string without its last character. *)
Definition sliceInit (s : string) : string :=
  String.substring 0 (String.length s - 1) s.

(** [s.substring(k)]: the string from index [k] on. *)
Definition substringFrom (k : nat) (s : string) : string :=
  String.substring k (String.length s - k) s.

(** [s.startsWith(t)]. *)
Definition startsWith (s t : string) : bool := String.prefix t s.

(** [arr.includes(x)] on an array of strings. *)
Definition includes (arr : list string) (x : string) : bool :=
  existsb (String.eqb x) arr.

(** [s.charCodeAt(0)]; [None] stands for [NaN] (empty string). *)
Definition charCodeAt0 (s : string) : option nat :=
  match s with
  | EmptyString => None
  | String c _ => Some (nat_of_ascii c)
  end.

(** [arr.slice(-n)]: the last [n] elements. *)
Definition sliceLast {A} (n : nat) (arr : list A) : list A :=
  skipn (List.length arr - n) arr.

End Js.

(** ** Data model *)

Record DiscoveryOptions := mkOptions {
  delayBetweenRequests : Z;
  maxConcurrentRequests : Z;
  maxRetries : Z;
  initialPrefixes : list string;
  mlEnabled : bool
}.

Record DiscoveryStats := mkStats {
  totalRequests : Z;
  successfulRequests : Z;
  failedRequests : Z;
  uniqueNames : list string;
  rateLimited : Z;
  exploredPrefixes : list string;
  skippedPrefixes : list string;
  currentPrefixes : list string;
  blockedPrefixes : list string;
  efficiency : Q
}.

(** The instance fields of [DiscoveryServiceV3] that carry state. *)
Record Service := mkService {
  stats : DiscoveryStats;
  options : DiscoveryOptions;
  isRunning : bool;
  isPaused : bool;
  prefixQueue : list string;
  activeRequests : Z;
  prefixPatterns : gmap string Z;
  nameFrequencyMap : gmap string Z;
  cachedResults : gmap string (list string);
  commonNames : gset string;
  namePatterns : gmap string Z;
  requestTimestamps : list Z;
  simulationMode : bool
}.

Definition with_stats (f : DiscoveryStats -> DiscoveryStats) (s : Service) : Service :=
  mkService (f s.(stats)) s.(options) s.(isRunning) s.(isPaused) s.(prefixQueue)
    s.(activeRequests) s.(prefixPatterns) s.(nameFrequencyMap) s.(cachedResults)
    s.(commonNames) s.(namePatterns) s.(requestTimestamps) s.(simulationMode).

Definition with_prefixQueue (q : list string) (s : Service) : Service :=
  mkService s.(stats) s.(options) s.(isRunning) s.(isPaused) q
    s.(activeRequests) s.(prefixPatterns) s.(nameFrequencyMap) s.(cachedResults)
    s.(commonNames) s.(namePatterns) s.(requestTimestamps) s.(simulationMode).

Definition with_prefixPatterns (m : gmap string Z) (s : Service) : Service :=
  mkService s.(stats) s.(options) s.(isRunning) s.(isPaused) s.(prefixQueue)
    s.(activeRequests) m s.(nameFrequencyMap) s.(cachedResults)
    s.(commonNames) s.(namePatterns) s.(requestTimestamps) s.(simulationMode).

Definition with_nameFrequencyMap (m : gmap string Z) (s : Service) : Service :=
  mkService s.(stats) s.(options) s.(isRunning) s.(isPaused) s.(prefixQueue)
    s.(activeRequests) s.(prefixPatterns) m s.(cachedResults)
    s.(commonNames) s.(namePatterns) s.(requestTimestamps) s.(simulationMode).

Definition with_cachedResults (m : gmap string (list string)) (s : Service) : Service :=
  mkService s.(stats) s.(options) s.(isRunning) s.(isPaused) s.(prefixQueue)
    s.(activeRequests) s.(prefixPatterns) s.(nameFrequencyMap) m
    s.(commonNames) s.(namePatterns) s.(requestTimestamps) s.(simulationMode).

Definition with_requestTimestamps (ts : list Z) (s : Service) : Service :=
  mkService s.(stats) s.(options) s.(isRunning) s.(isPaused) s.(prefixQueue)
    s.(activeRequests) s.(prefixPatterns) s.(nameFrequencyMap) s.(cachedResults)
    s.(commonNames) s.(namePatterns) ts s.(simulationMode).

Definition with_flags (running paused : bool) (s : Service) : Service :=
  mkService s.(stats) s.(options) running paused s.(prefixQueue)
    s.(activeRequests) s.(prefixPatterns) s.(nameFrequencyMap) s.(cachedResults)
    s.(commonNames) s.(namePatterns) s.(requestTimestamps) s.(simulationMode).

Definition with_options (o : DiscoveryOptions) (s : Service) : Service :=
  mkService s.(stats) o s.(isRunning) s.(isPaused) s.(prefixQueue)
    s.(activeRequests) s.(prefixPatterns) s.(nameFrequencyMap) s.(cachedResults)
    s.(commonNames) s.(namePatterns) s.(requestTimestamps) s.(simulationMode).

Definition with_simulationMode (b : bool) (s : Service) : Service :=
  mkService s.(stats) s.(options) s.(isRunning) s.(isPaused) s.(prefixQueue)
    s.(activeRequests) s.(prefixPatterns) s.(nameFrequencyMap) s.(cachedResults)
    s.(commonNames) s.(namePatterns) s.(requestTimestamps) b.

(** Updates of single [stats] fields. *)
Definition incTotalRequests (t : DiscoveryStats) : DiscoveryStats :=
  mkStats (t.(totalRequests) + 1) t.(successfulRequests) t.(failedRequests)
    t.(uniqueNames) t.(rateLimited) t.(exploredPrefixes) t.(skippedPrefixes)
    t.(currentPrefixes) t.(blockedPrefixes) t.(efficiency).

Definition incSuccessfulRequests (t : DiscoveryStats) : DiscoveryStats :=
  mkStats t.(totalRequests) (t.(successfulRequests) + 1) t.(failedRequests)
    t.(uniqueNames) t.(rateLimited) t.(exploredPrefixes) t.(skippedPrefixes)
    t.(currentPrefixes) t.(blockedPrefixes) t.(efficiency).

Definition incFailedRequests (t : DiscoveryStats) : DiscoveryStats :=
  mkStats t.(totalRequests) t.(successfulRequests) (t.(failedRequests) + 1)
    t.(uniqueNames) t.(rateLimited) t.(exploredPrefixes) t.(skippedPrefixes)
    t.(currentPrefixes) t.(blockedPrefixes) t.(efficiency).

Definition incRateLimited (t : DiscoveryStats) : DiscoveryStats :=
  mkStats t.(totalRequests) t.(successfulRequests) t.(failedRequests)
    t.(uniqueNames) (t.(rateLimited) + 1) t.(exploredPrefixes) t.(skippedPrefixes)
    t.(currentPrefixes) t.(blockedPrefixes) t.(efficiency).

Definition set_uniqueNames (l : list string) (t : DiscoveryStats) : DiscoveryStats :=
  mkStats t.(totalRequests) t.(successfulRequests) t.(failedRequests)
    l t.(rateLimited) t.(exploredPrefixes) t.(skippedPrefixes)
    t.(currentPrefixes) t.(blockedPrefixes) t.(efficiency).

Definition set_exploredPrefixes (l : list string) (t : DiscoveryStats) : DiscoveryStats :=
  mkStats t.(totalRequests) t.(successfulRequests) t.(failedRequests)
    t.(uniqueNames) t.(rateLimited) l t.(skippedPrefixes)
    t.(currentPrefixes) t.(blockedPrefixes) t.(efficiency).

Definition set_skippedPrefixes (l : list string) (t : DiscoveryStats) : DiscoveryStats :=
  mkStats t.(totalRequests) t.(successfulRequests) t.(failedRequests)
    t.(uniqueNames) t.(rateLimited) t.(exploredPrefixes) l
    t.(currentPrefixes) t.(blockedPrefixes) t.(efficiency).

Definition set_currentPrefixes (l : list string) (t : DiscoveryStats) : DiscoveryStats :=
  mkStats t.(totalRequests) t.(successfulRequests) t.(failedRequests)
    t.(uniqueNames) t.(rateLimited) t.(exploredPrefixes) t.(skippedPrefixes)
    l t.(blockedPrefixes) t.(efficiency).

Definition set_blockedPrefixes (l : list string) (t : DiscoveryStats) : DiscoveryStats :=
  mkStats t.(totalRequests) t.(successfulRequests) t.(failedRequests)
    t.(uniqueNames) t.(rateLimited) t.(exploredPrefixes) t.(skippedPrefixes)
    t.(currentPrefixes) l t.(efficiency).

Definition set_efficiency (e : Q) (t : DiscoveryStats) : DiscoveryStats :=
  mkStats t.(totalRequests) t.(successfulRequests) t.(failedRequests)
    t.(uniqueNames) t.(rateLimited) t.(exploredPrefixes) t.(skippedPrefixes)
    t.(currentPrefixes) t.(blockedPrefixes) e.

(** ** Construction and lifecycle *)

Definition highValuePrefixes : list string :=
  ["a"; "b"; "c"; "d"; "e"; "j"; "k"; "l"; "m"; "n"; "r"; "s"; "t";
   "ja"; "jo"; "ma"; "mi"; "sa"; "st"; "ch"; "th"; "an"; "br"].

Definition alphabet : list string :=
  ["a"; "b"; "c"; "d"; "e"; "f"; "g"; "h"; "i"; "j"; "k"; "l"; "m";
   "n"; "o"; "p"; "q"; "r"; "s"; "t"; "u"; "v"; "w"; "x"; "y"; "z"].

Definition commonEnglishNames : list string :=
  ["james"; "john"; "robert"; "michael"; "william"; "david"; "joseph"; "charles";
   "thomas"; "mary"; "patricia"; "jennifer"; "linda"; "elizabeth"; "barbara";
   "susan"; "jessica"; "sarah"; "karen"; "lisa"; "nancy"; "betty"; "sandra"].

(** The constructor's defaults ([options?.x ?? default]). *)
Definition defaultOptions : DiscoveryOptions :=
  mkOptions 250 4 3 highValuePrefixes true.

Definition emptyStats : DiscoveryStats :=
  mkStats 0 0 0 [] 0 [] [] [] [] 0%Q.

(** [namePatterns.set(prefix, (namePatterns.get(prefix) || 0) + 1)]. *)
Definition bump (key : string) (m : gmap string Z) : gmap string Z :=
  <[key := default 0 (m !! key) + 1]> m.

(** The loop [for (let i = 1; i <= 3 && i < name.length; i++)] of
    [initializeCommonNames]; [n] bounds the number of iterations. *)
Fixpoint analyzeName (n i : nat) (name : string) (m : gmap string Z) : gmap string Z :=
  match n with
  | O => m
  | S n' =>
      if ((i <=? 3) && (i <? String.length name))%nat
      then analyzeName n' (S i) name (bump (String.substring 0 i name) m)
      else m
  end.

Definition initializeCommonNames (s : Service) : Service :=
  fold_left
    (fun acc name =>
       mkService acc.(stats) acc.(options) acc.(isRunning) acc.(isPaused)
         acc.(prefixQueue) acc.(activeRequests) acc.(prefixPatterns)
         acc.(nameFrequencyMap) acc.(cachedResults)
         ({[name]} ∪ acc.(commonNames))
         (analyzeName 3 1 name acc.(namePatterns))
         acc.(requestTimestamps) acc.(simulationMode))
    commonEnglishNames s.

Definition constructor (o : DiscoveryOptions) : Service :=
  initializeCommonNames
    (mkService emptyStats o false false [] 0 ∅ ∅ ∅ ∅ ∅ [] false).

(** [start()] up to the point where it hands over to [processQueue]. *)
Definition start (s : Service) : Service :=
  if s.(isRunning) then s
  else
    let s1 := with_flags true false s in
    if s1.(options).(mlEnabled)
    then with_prefixQueue s1.(options).(initialPrefixes) s1
    else with_prefixQueue alphabet s1.

Definition pause (s : Service) : Service := with_flags s.(isRunning) true s.

(** [resume()] up to the call of [processQueue]. *)
Definition resume (s : Service) : Service :=
  if negb s.(isRunning) then s else with_flags s.(isRunning) false s.

Definition stop (s : Service) : Service := with_flags false false s.

Definition reset (s : Service) : Service :=
  let s1 := stop s in
  mkService emptyStats s1.(options) s1.(isRunning) s1.(isPaused) []
    s1.(activeRequests) ∅ ∅ ∅ s1.(commonNames) s1.(namePatterns) []
    s1.(simulationMode).

Definition enableSimulationMode (enabled : bool) (s : Service) : Service :=
  with_simulationMode enabled s.

Definition updateOptions (o : DiscoveryOptions) (s : Service) : Service :=
  with_options o s.

(** ** Rate controller *)

(** [calculateOptimalConcurrency]: the ceiling, and the service with its
    timestamp history trimmed to the last 100 entries. *)
Definition calculateOptimalConcurrency (s : Service) : Z * Service :=
  if (10 <=? List.length s.(requestTimestamps))%nat then
    let concurrency :=
      if 0 <? s.(stats).(rateLimited)
      then Z.max 1 (s.(options).(maxConcurrentRequests) - 1)
      else if (10 <? s.(stats).(successfulRequests)) && (s.(stats).(rateLimited) =? 0)
           then Z.min s.(options).(maxConcurrentRequests) 5
           else 1 in
    let s' :=
      if (100 <? List.length s.(requestTimestamps))%nat
      then with_requestTimestamps (Js.sliceLast 100 s.(requestTimestamps)) s
      else s in
    (concurrency, s')
  else (1, s).

(** ** Pattern scorer *)

Definition getPatternScore (s : Service) (prefix : string) : Z :=
  if (String.length prefix <=? 1)%nat then 3
  else
    match s.(prefixPatterns) !! prefix with
    | Some score => score
    | None =>
        let parentPrefix := Js.sliceInit prefix in
        match s.(prefixPatterns) !! parentPrefix with
        | Some parentScore => Z.max 0 (parentScore - 1)
        | None =>
            match s.(namePatterns) !! prefix with
            | Some n => Z.min 4 n
            | None => Z.max 0 (3 - Z.of_nat (String.length prefix))
            end
        end
    end.

(** The bucket [updatePatternScore] computes from a result count. *)
Definition scoreBucket (resultCount : Z) : Z :=
  if 8 <? resultCount then 5
  else if 5 <? resultCount then 4
  else if 2 <? resultCount then 3
  else if 0 <? resultCount then 2
  else 0.

Definition updatePatternScore (prefix : string) (resultCount : Z) (s : Service) : Service :=
  let score := scoreBucket resultCount in
  let s1 := with_prefixPatterns (<[prefix := score]> s.(prefixPatterns)) s in
  let s2 :=
    if (1 <? String.length prefix)%nat then
      let parentPrefix := Js.sliceInit prefix in
      let currentParentScore := default 0 (s1.(prefixPatterns) !! parentPrefix) in
      if (0 <? resultCount) && (currentParentScore <? 5)
      then with_prefixPatterns
             (<[parentPrefix := Z.min 5 (currentParentScore + 1)]> s1.(prefixPatterns)) s1
      else s1
    else s1 in
  if (resultCount =? 0) && (2 <=? String.length prefix)%nat
  then with_stats (fun t => set_blockedPrefixes (t.(blockedPrefixes) ++ [prefix]) t) s2
  else s2.

(** ** Branch blocker *)

Definition isBlockedByParent (s : Service) (prefix : string) : bool :=
  existsb (fun blocked => Js.startsWith prefix blocked) s.(stats).(blockedPrefixes).

Definition shouldSkipPrefix (s : Service) (prefix : string) : bool :=
  if (String.length prefix <=? 1)%nat then false
  else if existsb (fun blockedPrefix => Js.startsWith prefix blockedPrefix)
            s.(stats).(blockedPrefixes)
  then true
  else if getPatternScore s prefix =? 0 then true
  else
    (* allParentsEmpty: no i in [1, length) breaks the loop *)
    forallb
      (fun i =>
         match s.(prefixPatterns) !! String.substring 0 i prefix with
         | None => false
         | Some score => negb (0 <? score)
         end)
      (seq 1 (String.length prefix - 1)).

(** ** Frontier: child generation *)

(** [m.set(k, (m.get(k) || 0) + 1)] on a [Map] kept in insertion order. *)
Fixpoint bumpOrdered (k : string) (m : list (string * Z)) : list (string * Z) :=
  match m with
  | [] => [(k, 1)]
  | (k', n) :: m' =>
      if String.eqb k k' then (k', n + 1) :: m' else (k', n) :: bumpOrdered k m'
  end.

(** [Array.prototype.sort] with comparator [(a, b) => b[1] - a[1]]: a stable
    sort, larger counts first. *)
Fixpoint insertByCount (x : string * Z) (l : list (string * Z)) : list (string * Z) :=
  match l with
  | [] => [x]
  | y :: l' => if snd x <? snd y then y :: insertByCount x l' else x :: y :: l'
  end.

Definition sortByCount (l : list (string * Z)) : list (string * Z) :=
  fold_right insertByCount [] l.

Definition extractCommonPrefixes (names : list string) (currentPrefix : string) : list string :=
  match names with
  | [] => []
  | _ =>
      let nextLetterFrequency :=
        fold_left
          (fun m name =>
             if (String.length currentPrefix <? String.length name)%nat then
               match String.get (String.length currentPrefix) name with
               | Some nextChar =>
                   bumpOrdered (currentPrefix ++ String nextChar EmptyString) m
               | None => m
               end
             else m)
          names [] in
      map fst (firstn 3 (sortByCount nextLetterFrequency))
  end.

Definition notYetKnown (s : Service) (nextPrefix : string) : bool :=
  negb (Js.includes s.(stats).(exploredPrefixes) nextPrefix)
  && negb (Js.includes s.(stats).(skippedPrefixes) nextPrefix)
  && negb (Js.includes s.(prefixQueue) nextPrefix).

Definition enqueue (nextPrefix : string) (s : Service) : Service :=
  with_prefixQueue (s.(prefixQueue) ++ [nextPrefix]) s.

Definition commonNextLetters : list string :=
  ["a"; "e"; "i"; "j"; "l"; "m"; "n"; "o"; "r"; "s"; "t"].

Definition commonLetters : list string :=
  ["a"; "e"; "i"; "m"; "n"; "r"; "s"; "t"].

Definition generateOptimalNextPrefixes
    (prefix : string) (results : list string) (s : Service) : Service :=
  if (0 <? List.length results)%nat then
    if (String.length prefix <? 3)%nat then
      let commonPrefixes := extractCommonPrefixes results prefix in
      let s1 :=
        fold_left
          (fun acc nextPrefix =>
             if notYetKnown acc nextPrefix && negb (isBlockedByParent acc nextPrefix)
             then enqueue nextPrefix acc else acc)
          commonPrefixes s in
      if ((List.length commonPrefixes <? 2) || (String.length prefix <? 2))%nat then
        fold_left
          (fun acc char =>
             let nextPrefix := prefix ++ char in
             if notYetKnown acc nextPrefix
                && negb (Js.includes commonPrefixes nextPrefix)
                && negb (isBlockedByParent acc nextPrefix)
             then enqueue nextPrefix acc else acc)
          commonNextLetters s1
      else s1
    else s
  else if (String.length prefix <=? 1)%nat then
    fold_left
      (fun acc char =>
         let nextPrefix := prefix ++ char in
         if notYetKnown acc nextPrefix then enqueue nextPrefix acc else acc)
      commonLetters s
  else s.

(** ** Synthetic fallback names *)

Definition nameSuffixes : list string :=
  ["ames"; "ohn"; "ark"; "ike"; "ill"; "ave"; "ack"; "eter"; "yan"; "evin";
   "ary"; "ara"; "isa"; "rin"; "mma"; "arah"; "nna"; "kate"; "ulie"; "ophy"].

Definition generateFakeNamesForPrefix (s : Service) (prefix : string) : list string :=
  let suffixesToUse := if (2 <? String.length prefix)%nat then 3%nat else 6%nat in
  let possibleNames :=
    map
      (fun i =>
         (* nameSuffixes[(prefix.charCodeAt(0) + i) % nameSuffixes.length];
            the index is NaN, and the suffix undefined, for the empty prefix *)
         let suffix :=
           match Js.charCodeAt0 prefix with
           | Some code => nth ((code + i) mod List.length nameSuffixes) nameSuffixes ""
           | None => "undefined"
           end in
         if (1 <? String.length prefix)%nat
         then prefix ++ Js.substringFrom
                (Nat.min (String.length suffix) (String.length prefix)) suffix
         else prefix ++ suffix)
      (seq 0 suffixesToUse) in
  let patternScore := getPatternScore s prefix in
  let resultCount :=
    Z.min (Z.of_nat (List.length possibleNames)) (Z.max 0 (patternScore + 1)) in
  firstn (Z.to_nat resultCount) possibleNames.

(** ** Result handling *)

(** One iteration of [names.forEach] in [handleResults]. *)
Definition recordName (s : Service) (name : string) : Service :=
  let s1 := with_nameFrequencyMap (bump name s.(nameFrequencyMap)) s in
  if Js.includes s1.(stats).(uniqueNames) name then s1
  else with_stats (fun t => set_uniqueNames (t.(uniqueNames) ++ [name]) t) s1.

Definition handleResults
    (prefix : string) (names : list string) (fromCache : bool) (s : Service) : Service :=
  let s1 := if negb fromCache then with_stats incSuccessfulRequests s else s in
  let s2 := with_stats (fun t => set_exploredPrefixes (t.(exploredPrefixes) ++ [prefix]) t) s1 in
  let s3 :=
    with_stats
      (fun t => set_currentPrefixes
                  (List.filter (fun p => negb (String.eqb p prefix)) t.(currentPrefixes)) t)
      s2 in
  let s4 := fold_left recordName names s3 in
  let s5 := updatePatternScore prefix (Z.of_nat (List.length names)) s4 in
  let s6 := generateOptimalNextPrefixes prefix names s5 in
  if 0 <? s6.(stats).(successfulRequests)
  then with_stats
         (fun t => set_efficiency
                     (inject_Z (Z.of_nat (List.length t.(uniqueNames)))
                      / inject_Z t.(successfulRequests))%Q t)
         s6
  else s6.

(** ** The remote endpoint *)

(** What [response.json()] gives: a rejection, or a body whose [results]
    member may be missing ([data.results || []]). *)
Inductive JsonOutcome :=
  | JsonRejects
  | JsonData (results : option (list string)).

Record Response := mkResponse {
  ok : bool;
  status : Z;
  json : JsonOutcome
}.

Inductive FetchOutcome :=
  | FetchRejects
  | FetchResolves (response : Response).

(** The environment of a run: the endpoint answers a request for a prefix
    knowing the requests made before it; [dateNow] is the clock, read once
    per request. *)
Record Env := mkEnv {
  fetch : list string -> string -> FetchOutcome;
  dateNow : Z -> Z
}.

(** The service together with the requests it has put on the wire, oldest
    first. *)
Record World := mkWorld {
  svc : Service;
  wire : list string
}.

Definition on_svc (f : Service -> Service) (w : World) : World :=
  mkWorld (f w.(svc)) w.(wire).

(** ** Prefix task executor *)

(** The success path of [processPrefix]:
    [cachedResults.set(prefix, [...names]); handleResults(prefix, names)]. *)
Definition storeAndHandle (prefix : string) (names : list string) (s : Service) : Service :=
  handleResults prefix names false
    (with_cachedResults (<[prefix := names]> s.(cachedResults)) s).

(** The [catch] block of [processPrefix]. *)
Definition catchBlock (prefix : string) (s : Service) : Service :=
  let s1 := with_stats incFailedRequests s in
  let fakeNames := generateFakeNamesForPrefix s1 prefix in
  handleResults prefix fakeNames false
    (with_cachedResults (<[prefix := fakeNames]> s1.(cachedResults)) s1).

(** The skip branch: [skippedPrefixes.push(prefix)] and the removal from
    [currentPrefixes]. *)
Definition markSkipped (prefix : string) (s : Service) : Service :=
  with_stats
    (fun t =>
       set_currentPrefixes
         (List.filter (fun p => negb (String.eqb p prefix)) t.(currentPrefixes))
         (set_skippedPrefixes (t.(skippedPrefixes) ++ [prefix]) t))
    s.

(** [totalRequests++; requestTimestamps.push(Date.now())]. *)
Definition noteRequest (env : Env) (s : Service) : Service :=
  let s1 := with_stats incTotalRequests s in
  with_requestTimestamps
    (s1.(requestTimestamps) ++ [env.(dateNow) s1.(stats).(totalRequests)]) s1.

(** One activation of [processPrefix] ends either by returning ([Done]) or
    in the tail call [return this.processPrefix(prefix, retryCount + 1)]
    ([Again], with the state the call starts from). *)
Inductive Attempt :=
  | Done (w : World)
  | Again (w : World).

(** The body of [processPrefix(prefix, retryCount)]. *)
Definition attempt (env : Env) (prefix : string) (retryCount : Z) (w : World) : Attempt :=
  if negb w.(svc).(isRunning) then Done w
  else
    match w.(svc).(cachedResults) !! prefix with
    | Some cachedNames => Done (on_svc (handleResults prefix cachedNames true) w)
    | None =>
        if shouldSkipPrefix w.(svc) prefix then Done (on_svc (markSkipped prefix) w)
        else
          let w1 := on_svc (noteRequest env) w in
          if w1.(svc).(simulationMode) then
            Done (on_svc
                    (fun s => storeAndHandle prefix (generateFakeNamesForPrefix s prefix) s)
                    w1)
          else
            let outcome := env.(fetch) w1.(wire) prefix in
            let w2 := mkWorld w1.(svc) (w1.(wire) ++ [prefix]) in
            match outcome with
            | FetchRejects => Done (on_svc (catchBlock prefix) w2)
            | FetchResolves response =>
                if negb response.(ok) then
                  let w3 :=
                    if response.(status) =? 429
                    then on_svc (with_stats incRateLimited) w2 else w2 in
                  if (response.(status) =? 429)
                     && (retryCount <? w3.(svc).(options).(maxRetries))
                  then
                    Again (on_svc (fun s => with_prefixQueue (prefix :: s.(prefixQueue)) s) w3)
                  else
                    (* failedRequests++; throw new Error(...): lands in the
                       catch block of the same activation *)
                    Done (on_svc (catchBlock prefix)
                            (on_svc (with_stats incFailedRequests) w3))
                else
                  match response.(json) with
                  | JsonRejects => Done (on_svc (catchBlock prefix) w2)
                  | JsonData results =>
                      Done (on_svc (storeAndHandle prefix (default [] results)) w2)
                  end
            end
    end.

(** [processPrefix] with a bound on the chain of tail calls; [None] means
    the bound was too small. *)
Fixpoint processPrefixFuel
    (fuel : nat) (env : Env) (prefix : string) (retryCount : Z) (w : World)
    : option World :=
  match fuel with
  | O => None
  | S fuel' =>
      match attempt env prefix retryCount w with
      | Done w' => Some w'
      | Again w' => processPrefixFuel fuel' env prefix (retryCount + 1) w'
      end
  end.

(** The first attempt plus the retries left before
    [retryCount < maxRetries] fails. *)
Definition attemptsLeft (retryCount : Z) (w : World) : nat :=
  S (Z.to_nat (w.(svc).(options).(maxRetries) - retryCount)).

Definition processPrefix (env : Env) (prefix : string) (retryCount : Z) (w : World)
    : option World :=
  processPrefixFuel (attemptsLeft retryCount w) env prefix retryCount w.

(** ** Runs *)

(** Runs with one prefix in flight: the concurrency ceiling is evaluated,
    or [processPrefix] is called on a prefix with [retryCount = 0] and runs
    to its end, retries included, before the next action.  Any prefix may
    be dispatched at any time.  Executions in which several activations are
    in flight at once are those of [play] below. *)
Inductive Action :=
  | Schedule
  | Dispatch (prefix : string).

Definition act (env : Env) (a : Action) (w : World) : option World :=
  match a with
  | Schedule => Some (mkWorld (snd (calculateOptimalConcurrency w.(svc))) w.(wire))
  | Dispatch prefix => processPrefix env prefix 0 w
  end.

Fixpoint run (env : Env) (actions : list Action) (w : World) : option World :=
  match actions with
  | [] => Some w
  | a :: rest =>
      match act env a w with
      | Some w' => run env rest w'
      | None => None
      end
  end.

(** A freshly constructed and started service, nothing sent yet. *)
Definition freshWorld (o : DiscoveryOptions) : World :=
  mkWorld (start (constructor o)) [].

(** The concurrency ceiling [processQueue] reads. *)
Definition ceiling (s : Service) : Z := fst (calculateOptimalConcurrency s).

(** How many requests for [prefix] have been put on the wire. *)
Definition requestsFor (prefix : string) (w : World) : nat :=
  List.length (List.filter (String.eqb prefix) w.(wire)).

(** ** Vocabulary of the statements *)

(** [stats.uniqueNames] after the [forEach] of [handleResults] has seen
    [names]: each name not yet present is appended once. *)
Definition addNames (names unique : list string) : list string :=
  fold_left (fun u name => if Js.includes u name then u else (u ++ [name])%list) names unique.

(** [prefixPatterns] after [updatePatternScore(prefix, resultCount)], as a
    function of the map before. *)
Definition patternsAfter (prefix : string) (resultCount : Z) (m : gmap string Z)
    : gmap string Z :=
  prefixPatterns
    (updatePatternScore prefix resultCount
       (mkService emptyStats defaultOptions false false [] 0 m ∅ ∅ ∅ ∅ [] false)).

(** What [updatePatternScore(prefix, resultCount)] appends to
    [stats.blockedPrefixes]. *)
Definition newlyBlocked (prefix : string) (resultCount : Z) : list string :=
  if (resultCount =? 0) && (2 <=? String.length prefix)%nat then [prefix] else [].

(** The quotient [handleResults] stores in [stats.efficiency]. *)
Definition quotient (t : DiscoveryStats) : Q :=
  (inject_Z (Z.of_nat (List.length t.(uniqueNames))) / inject_Z t.(successfulRequests))%Q.

(** The efficiency statistic is in step with the counters. *)
Definition efficiencyInStep (s : Service) : Prop :=
  0 <= s.(stats).(successfulRequests) /\
  s.(stats).(efficiency) =
    if 0 <? s.(stats).(successfulRequests) then quotient s.(stats) else 0%Q.

(** [b] is a proper prefix of [q]. *)
Definition properPrefix (b q : string) : Prop :=
  exists t, t <> "" /\ q = b ++ t.

(** The world in which the tail call of a rate-limited attempt starts: the
    request is noted and on the wire, the rejection counted, the prefix put
    back at the head of the queue. *)
Definition requeued (env : Env) (prefix : string) (w : World) : World :=
  mkWorld
    (with_prefixQueue (prefix :: prefixQueue (svc w))
       (with_stats incRateLimited (noteRequest env (svc w))))
    (wire w ++ [prefix]).

(** The world right after a request has been noted and put on the wire. *)
Definition sent (env : Env) (prefix : string) (w : World) : World :=
  mkWorld (noteRequest env (svc w)) (wire w ++ [prefix]).

(** The attempt reaches the remote endpoint: the service runs, the prefix
    is neither cached nor skipped, and simulation mode is off. *)
Definition reachesNetwork (prefix : string) (w : World) : Prop :=
  isRunning (svc w) = true /\
  cachedResults (svc w) !! prefix = None /\
  shouldSkipPrefix (svc w) prefix = false /\
  simulationMode (svc w) = false.

(** The prefix is completed (not skipped): the service runs and the prefix
    is cached or passes the skip test. *)
Definition completes (prefix : string) (w : World) : Prop :=
  isRunning (svc w) = true /\
  (is_Some (cachedResults (svc w) !! prefix) \/ shouldSkipPrefix (svc w) prefix = false).

(** A weaker form of [efficiencyInStep] that every operation preserves. *)
Definition efficiencyZeroed (s : Service) : Prop :=
  0 <= s.(stats).(successfulRequests) /\
  (s.(stats).(successfulRequests) = 0 -> s.(stats).(efficiency) = 0%Q).

(** What every step of a run preserves or only lets grow. *)
Definition evolves (s s' : Service) : Prop :=
  options s' = options s /\
  isRunning s' = isRunning s /\
  simulationMode s' = simulationMode s /\
  namePatterns s' = namePatterns s /\
  (forall q names, cachedResults s !! q = Some names -> cachedResults s' !! q = Some names) /\
  (forall b, In b (blockedPrefixes (stats s)) -> In b (blockedPrefixes (stats s'))) /\
  rateLimited (stats s) <= rateLimited (stats s') /\
  ((10 <= List.length (requestTimestamps s))%nat ->
   (10 <= List.length (requestTimestamps s'))%nat) /\
  (efficiencyZeroed s -> efficiencyZeroed s').

(** Responses of the scenarios below. *)
Definition okResponse (names : list string) : FetchOutcome :=
  FetchResolves (mkResponse true 200 (JsonData (Some names))).

Definition statusResponse (code : Z) : FetchOutcome :=
  FetchResolves (mkResponse false code (JsonData None)).

Definition tick : Z -> Z := fun n => 1000 * n.

(** Scenario endpoints. *)

(** Answers 429 to the first two requests, then succeeds. *)
Definition rateLimitedTwice : Env :=
  mkEnv (fun sentBefore prefix =>
           if (List.length sentBefore <? 2)%nat then statusResponse 429
           else okResponse [prefix ++ "lice"; prefix ++ "nna"])
        tick.

(** Answers 429 to the first request only. *)
Definition rateLimitedOnce : Env :=
  mkEnv (fun sentBefore prefix =>
           if (List.length sentBefore <? 1)%nat then statusResponse 429
           else okResponse [prefix ++ "lice"; prefix ++ "nna"])
        tick.

(** Answers every request with HTTP 500. *)
Definition serverError : Env := mkEnv (fun _ _ => statusResponse 500) tick.

(** Answers every request with HTTP 429. *)
Definition alwaysRateLimited : Env := mkEnv (fun _ _ => statusResponse 429) tick.

(** The endpoint cannot be reached: [fetch] rejects. *)
Definition unreachable : Env := mkEnv (fun _ _ => FetchRejects) tick.

(** Knows "mary" under "mar" and nothing under any other prefix. *)
Definition onlyMary : Env :=
  mkEnv (fun _ prefix => if String.eqb prefix "mar" then okResponse ["mary"] else okResponse [])
        tick.


(** ** Sessions *)

(** What a user of the class can do to it, one call at a time: the public
    methods, and the steps of a run in between. [updateOptions] is given the
    merged options. *)
Inductive Command :=
  | CmdStart
  | CmdPause
  | CmdResume
  | CmdStop
  | CmdReset
  | CmdUpdateOptions (o : DiscoveryOptions)
  | CmdSimulationMode (enabled : bool)
  | CmdAct (a : Action).

Definition command (env : Env) (c : Command) (w : World) : option World :=
  match c with
  | CmdStart => Some (on_svc start w)
  | CmdPause => Some (on_svc pause w)
  | CmdResume => Some (on_svc resume w)
  | CmdStop => Some (on_svc stop w)
  | CmdReset => Some (on_svc reset w)
  | CmdUpdateOptions o => Some (on_svc (updateOptions o) w)
  | CmdSimulationMode enabled => Some (on_svc (enableSimulationMode enabled) w)
  | CmdAct a => act env a w
  end.

Fixpoint session (env : Env) (commands : list Command) (w : World) : option World :=
  match commands with
  | [] => Some w
  | c :: rest =>
      match command env c w with
      | Some w' => session env rest w'
      | None => None
      end
  end.

(** A newly constructed service, nothing sent yet. *)
Definition newWorld (o : DiscoveryOptions) : World := mkWorld (constructor o) [].

(** ** Invariants of the service state *)

(** The discovered names hold no name twice. *)
Definition namesAreUnique (s : Service) : Prop := NoDup (uniqueNames (stats s)).

(** Every stored pattern score lies in 0..5. *)
Definition scoresInRange (s : Service) : Prop :=
  forall k v, prefixPatterns s !! k = Some v -> 0 <= v <= 5.

(** Every count of the name-pattern table is at least 1. *)
Definition patternCountsPositive (s : Service) : Prop :=
  forall k n, namePatterns s !! k = Some n -> 1 <= n.

(** The explored prefixes are exactly the cached ones. *)
Definition exploredIsCached (s : Service) : Prop :=
  forall p, In p (exploredPrefixes (stats s)) <-> is_Some (cachedResults s !! p).

(** The blocked prefixes are exactly the cached ones of length at least 2
    whose result set is empty. *)
Definition blockedIsEmptyCached (s : Service) : Prop :=
  forall p, In p (blockedPrefixes (stats s)) <->
            (cachedResults s !! p = Some [] /\ (2 <= String.length p)%nat).

(** No prefix shorter than 2 characters is skipped. *)
Definition skippedAreLong (s : Service) : Prop :=
  forall p, In p (skippedPrefixes (stats s)) -> (2 <= String.length p)%nat.

(** ** Frontier: selection *)

(** [Math.min] and [Math.max] on the rationals the scores take. *)
Definition qmin (a b : Q) : Q := if Qle_bool a b then a else b.
Definition qmax (a b : Q) : Q := if Qle_bool a b then b else a.

(** [s.includes(t)] on strings. *)
Definition includesString (s t : string) : bool :=
  match String.index 0 t s with
  | Some _ => true
  | None => false
  end.

Definition rareCombinations : list string := ["zx"; "qz"; "jx"; "vq"; "wx"].

Definition hasRareCombination (prefix : string) : bool :=
  existsb (fun combo => includesString prefix combo) rareCombinations.

(** [calculatePrefixValue]; every quantity is a multiple of one half, which
    double precision represents exactly. *)
Definition calculatePrefixValue (s : Service) (prefix : string) : Q :=
  let score := inject_Z (getPatternScore s prefix) in
  let score :=
    match namePatterns s !! prefix with
    | Some n => (score + qmin 5 (inject_Z n / 2))%Q
    | None => score
    end in
  let score := (score - inject_Z (Z.of_nat (String.length prefix)) * (1 # 2))%Q in
  let score := if hasRareCombination prefix then (score - 2)%Q else score in
  qmax 0 score.

(** The comparator [selectOptimalPrefix] hands to [sort]. *)
Definition comparePrefixes (s : Service) (a b : string) : Q :=
  let scoreA := calculatePrefixValue s a in
  let scoreB := calculatePrefixValue s b in
  if negb (Qeq_bool scoreA scoreB) then (scoreB - scoreA)%Q
  else inject_Z (Z.of_nat (String.length a) - Z.of_nat (String.length b)).

(** [Array.prototype.sort(compare)]: a stable sort; [a] stays before [b]
    unless [compare(a, b) > 0]. *)
Fixpoint insertWith {A} (compare : A -> A -> Q) (x : A) (l : list A) : list A :=
  match l with
  | [] => [x]
  | y :: l' =>
      if Qle_bool (compare x y) 0 then x :: y :: l'
      else y :: insertWith compare x l'
  end.

Definition sortWith {A} (compare : A -> A -> Q) (l : list A) : list A :=
  fold_right (insertWith compare) [] l.

(** [selectOptimalPrefix]: the prefix taken ([None] for [undefined]) and the
    service it leaves. *)
Definition selectOptimalPrefix (s : Service) : option string * Service :=
  match prefixQueue s with
  | [] => (None, s)
  | _ =>
      let sorted :=
        if mlEnabled (options s)
        then sortWith (comparePrefixes s) (prefixQueue s)
        else prefixQueue s in
      match sorted with
      | [] => (None, with_prefixQueue sorted s)
      | prefix :: rest =>
          (Some prefix,
           with_stats
             (fun t => set_currentPrefixes (currentPrefixes t ++ [prefix])%list t)
             (with_prefixQueue rest s))
      end
  end.

(** ** Rate controller: the delay between dispatches *)

(** The delay [adaptiveDelay] waits for, in milliseconds. *)
Definition adaptiveDelay (s : Service) : Q :=
  let delay := inject_Z (delayBetweenRequests (options s)) in
  if 0 <? rateLimited (stats s) then qmin 1000 (delay * (3 # 2))%Q else delay.

(** ** Vocabulary for the frontier *)

(** The one-character extension of [currentPrefix] that [name] gives to
    [extractCommonPrefixes], if it is long enough. *)
Definition extensionOf (currentPrefix name : string) : option string :=
  if (String.length currentPrefix <? String.length name)%nat then
    match String.get (String.length currentPrefix) name with
    | Some nextChar => Some (currentPrefix ++ String nextChar EmptyString)
    | None => None
    end
  else None.

(** How many of [names] extend [currentPrefix] to [p]. *)
Definition extensionCount (names : list string) (currentPrefix p : string) : Z :=
  Z.of_nat
    (List.length
       (List.filter
          (fun name =>
             match extensionOf currentPrefix name with
             | Some q => String.eqb q p
             | None => false
             end)
          names)).

(** The count stored for a key of an insertion-ordered [Map]. *)
Fixpoint getCount (k : string) (m : list (string * Z)) : option Z :=
  match m with
  | [] => None
  | (k', n) :: m' => if String.eqb k k' then Some n else getCount k m'
  end.

(** Every element is related to all the elements after it. *)
Fixpoint orderedBy {A} (R : A -> A -> Prop) (l : list A) : Prop :=
  match l with
  | [] => True
  | x :: l' => (forall y, In y l' -> R x y) /\ orderedBy R l'
  end.

(** [p] is not yet explored, skipped or queued in [s]. *)
Definition unseen (s : Service) (p : string) : Prop :=
  ~ In p (exploredPrefixes (stats s)) /\
  ~ In p (skippedPrefixes (stats s)) /\
  ~ In p (prefixQueue s).

(** [p] is [prefix] followed by exactly one character. *)
Definition childOf (prefix p : string) : Prop :=
  exists c, p = prefix ++ String c EmptyString.

(** ** Interleaved executions *)

(** [processPrefix] and [processQueue] are [async]: each runs up to its next
    [await] and is resumed later, while other activations and the public
    methods run in between.  An [Engine] is the service together with the
    continuations that are suspended at an [await].  JavaScript runs one
    such stretch of code at a time, so every step below is one stretch
    between two suspensions. *)

Definition with_activeRequests (n : Z) (s : Service) : Service :=
  mkService s.(stats) s.(options) s.(isRunning) s.(isPaused) s.(prefixQueue)
    n s.(prefixPatterns) s.(nameFrequencyMap) s.(cachedResults)
    s.(commonNames) s.(namePatterns) s.(requestTimestamps) s.(simulationMode).

(** A suspended continuation.  The first three belong to an activation of
    [processPrefix]; [Finishing] is the [finally] callback that
    [processQueue] attached to a settled [processPrefix] promise;
    [Delaying] is [processQueue] inside its loop, at
    [await this.adaptiveDelay()], with its locals; [Racing] is the callback
    given to [Promise.race(batchPromises).then]. *)
Inductive Task :=
  | Fetching (prefix : string) (retryCount : Z) (outcome : FetchOutcome)
  | Backoff (prefix : string) (retryCount : Z)
  | Parsing (prefix : string) (response : Response)
  | Finishing
  | Delaying (currentConcurrency : Z) (batchPromises : list nat)
  | Racing (batchPromises : list nat).

(** The service and the wire, the suspended continuations by identifier
    (a dispatched prefix keeps the identifier of its promise through its
    retries), the next unused identifier, and the promises of
    [batchPromises] lists that have settled. *)
Record Engine := mkEngine {
  world : World;
  pending : gmap nat Task;
  nextId : nat;
  settled : list nat
}.

Definition with_world (w : World) (e : Engine) : Engine :=
  mkEngine w e.(pending) e.(nextId) e.(settled).

Definition on_service (f : Service -> Service) (e : Engine) : Engine :=
  with_world (on_svc f e.(world)) e.

Definition suspend (id : nat) (t : Task) (e : Engine) : Engine :=
  mkEngine e.(world) (<[id := t]> e.(pending)) e.(nextId) e.(settled).

(** [processPrefix(prefix, retryCount)] from its entry to its first [await]
    (the request is on the wire, the answer is awaited) or to its return
    (the promise [id] settles, its [finally] callback is due). *)
Definition beginPrefix (env : Env) (id : nat) (prefix : string) (retryCount : Z)
    (e : Engine) : Engine :=
  let w := e.(world) in
  if negb w.(svc).(isRunning) then suspend id Finishing e
  else
    match w.(svc).(cachedResults) !! prefix with
    | Some cachedNames =>
        suspend id Finishing (on_service (handleResults prefix cachedNames true) e)
    | None =>
        if shouldSkipPrefix w.(svc) prefix
        then suspend id Finishing (on_service (markSkipped prefix) e)
        else
          let w1 := on_svc (noteRequest env) w in
          if w1.(svc).(simulationMode) then
            suspend id Finishing
              (with_world
                 (on_svc
                    (fun s => storeAndHandle prefix (generateFakeNamesForPrefix s prefix) s)
                    w1)
                 e)
          else
            suspend id (Fetching prefix retryCount (env.(fetch) w1.(wire) prefix))
              (with_world (mkWorld w1.(svc) (w1.(wire) ++ [prefix])) e)
    end.

(** The [finally] callback of [processQueue]; the completion signal and the
    progress callback only notify. *)
Definition finallyCallback (s : Service) : Service :=
  let s1 := with_activeRequests (s.(activeRequests) - 1) s in
  if (s1.(activeRequests) =? 0) && (List.length s1.(prefixQueue) =? 0)%nat then
    if s1.(isRunning) then with_flags false s1.(isPaused) s1 else s1
  else s1.

(** The end of [processQueue], after its loop. *)
Definition endQueue (loop : nat) (batchPromises : list nat) (e : Engine) : Engine :=
  match batchPromises with
  | [] => e
  | _ => suspend loop (Racing batchPromises) e
  end.

(** The loop of [processQueue] from its condition to the next
    [await this.adaptiveDelay()], or to the end of the function. *)
Definition continueQueue (env : Env) (loop : nat) (currentConcurrency : Z)
    (batchPromises : list nat) (e : Engine) : Engine :=
  let s := e.(world).(svc) in
  if (0 <? List.length s.(prefixQueue))%nat && (s.(activeRequests) <? currentConcurrency)
  then
    match selectOptimalPrefix s with
    | (Some prefix, s1) =>
        if String.eqb prefix "" then
          (* [if (!prefix) break]: the empty string is falsy *)
          endQueue loop batchPromises (with_world (mkWorld s1 e.(world).(wire)) e)
        else
          let id := e.(nextId) in
          let e1 :=
            mkEngine
              (mkWorld (with_activeRequests (s1.(activeRequests) + 1) s1) e.(world).(wire))
              e.(pending) (S id) e.(settled) in
          suspend loop (Delaying currentConcurrency (batchPromises ++ [id]))
            (beginPrefix env id prefix 0 e1)
    | (None, s1) => endQueue loop batchPromises (with_world (mkWorld s1 e.(world).(wire)) e)
    end
  else endQueue loop batchPromises e.

(** [processQueue()] from its entry to its first [await] or its end. *)
Definition processQueue (env : Env) (e : Engine) : Engine :=
  let s := e.(world).(svc) in
  if negb s.(isRunning) || s.(isPaused) then e
  else
    let loop := e.(nextId) in
    continueQueue env loop (fst (calculateOptimalConcurrency s)) []
      (mkEngine (mkWorld (snd (calculateOptimalConcurrency s)) e.(world).(wire))
         e.(pending) (S loop) e.(settled)).

(** The continuation [id] is resumed: the answer, the timer or the settled
    promise it waited for has arrived.  [None] if nothing is suspended
    under [id], or if it is a [Racing] callback none of whose promises has
    settled yet. *)
Definition resumeTask (env : Env) (id : nat) (e : Engine) : option Engine :=
  match e.(pending) !! id with
  | None => None
  | Some task =>
      let e0 := mkEngine e.(world) (delete id e.(pending)) e.(nextId) e.(settled) in
      match task with
      | Fetching prefix retryCount FetchRejects =>
          Some (suspend id Finishing (on_service (catchBlock prefix) e0))
      | Fetching prefix retryCount (FetchResolves response) =>
          if negb response.(ok) then
            if response.(status) =? 429 then
              (* rateLimited++, then the backoff timer *)
              Some (suspend id (Backoff prefix retryCount)
                      (on_service (with_stats incRateLimited) e0))
            else
              (* failedRequests++; throw: lands in the catch block *)
              Some (suspend id Finishing
                      (on_service (catchBlock prefix)
                         (on_service (with_stats incFailedRequests) e0)))
          else Some (suspend id (Parsing prefix response) e0)
      | Backoff prefix retryCount =>
          if retryCount <? e0.(world).(svc).(options).(maxRetries) then
            Some (beginPrefix env id prefix (retryCount + 1)
                    (on_service (fun s => with_prefixQueue (prefix :: s.(prefixQueue)) s) e0))
          else
            Some (suspend id Finishing
                    (on_service (catchBlock prefix)
                       (on_service (with_stats incFailedRequests) e0)))
      | Parsing prefix response =>
          match response.(json) with
          | JsonRejects => Some (suspend id Finishing (on_service (catchBlock prefix) e0))
          | JsonData results =>
              Some (suspend id Finishing
                      (on_service (storeAndHandle prefix (default [] results)) e0))
          end
      | Finishing =>
          Some (mkEngine (on_svc finallyCallback e0.(world)) e0.(pending) e0.(nextId)
                  (e0.(settled) ++ [id]))
      | Delaying currentConcurrency batchPromises =>
          Some (continueQueue env id currentConcurrency batchPromises e0)
      | Racing batchPromises =>
          if existsb (fun promise => existsb (Nat.eqb promise) e0.(settled)) batchPromises
          then
            Some (if e0.(world).(svc).(isRunning) && negb e0.(world).(svc).(isPaused)
                  then processQueue env e0 else e0)
          else None
      end
  end.

(** The public methods a user of the class can call between two stretches.
    [updateOptions] is given the merged options. *)
Inductive Call :=
  | CallStart
  | CallPause
  | CallResume
  | CallStop
  | CallReset
  | CallUpdateOptions (o : DiscoveryOptions)
  | CallEnableSimulationMode (enabled : bool).

(** What the method does to the fields before it hands over to
    [processQueue], if it does. *)
Definition callEffect (c : Call) : Service -> Service :=
  match c with
  | CallStart => start
  | CallPause => pause
  | CallResume => resume
  | CallStop => stop
  | CallReset => reset
  | CallUpdateOptions o => updateOptions o
  | CallEnableSimulationMode enabled => enableSimulationMode enabled
  end.

Definition invoke (env : Env) (c : Call) (e : Engine) : Engine :=
  let e1 := on_service (callEffect c) e in
  match c with
  | CallStart => if e.(world).(svc).(isRunning) then e1 else processQueue env e1
  | CallResume => if negb e.(world).(svc).(isRunning) then e1 else processQueue env e1
  | _ => e1
  end.

Inductive Event :=
  | Resume (id : nat)
  | Invoke (c : Call).

Definition fire (env : Env) (ev : Event) (e : Engine) : option Engine :=
  match ev with
  | Resume id => resumeTask env id e
  | Invoke c => Some (invoke env c e)
  end.

(** An execution: the events in the order in which they happen.  Timers and
    answers may arrive in any order here; the real event loop allows fewer
    orders (a 250 ms timer set first fires before a 500 ms one), never
    more. *)
Fixpoint play (env : Env) (events : list Event) (e : Engine) : option Engine :=
  match events with
  | [] => Some e
  | ev :: rest =>
      match fire env ev e with
      | Some e' => play env rest e'
      | None => None
      end
  end.

(** A newly constructed service: nothing sent, nothing suspended. *)
Definition boot (o : DiscoveryOptions) : Engine := mkEngine (newWorld o) ∅ 0 [].

(** No event of the execution is a call of [reset()]. *)
Definition withoutReset (events : list Event) : Prop :=
  Forall (fun ev => ev <> Invoke CallReset) events.

(** One stretch of code changes the service and the wire by a sequence of
    these updates. *)
Inductive update (env : Env) : World -> World -> Prop :=
  | update_cache_hit w p names :
      isRunning (svc w) = true -> cachedResults (svc w) !! p = Some names ->
      update env w (on_svc (handleResults p names true) w)
  | update_skipped w p :
      isRunning (svc w) = true -> cachedResults (svc w) !! p = None ->
      shouldSkipPrefix (svc w) p = true ->
      update env w (on_svc (markSkipped p) w)
  | update_simulated w p :
      isRunning (svc w) = true -> cachedResults (svc w) !! p = None ->
      shouldSkipPrefix (svc w) p = false -> simulationMode (svc w) = true ->
      update env w
        (on_svc (fun s => storeAndHandle p (generateFakeNamesForPrefix s p) s)
           (on_svc (noteRequest env) w))
  | update_sent w p :
      reachesNetwork p w -> update env w (sent env p w)
  | update_answered w p names :
      update env w (on_svc (storeAndHandle p names) w)
  | update_thrown w p :
      update env w (on_svc (catchBlock p) w)
  | update_failed w p :
      update env w (on_svc (catchBlock p) (on_svc (with_stats incFailedRequests) w))
  | update_rate_limited w :
      update env w (on_svc (with_stats incRateLimited) w)
  | update_requeued w p :
      update env w (on_svc (fun s => with_prefixQueue (p :: prefixQueue s) s) w)
  | update_trimmed w :
      update env w (on_svc (fun s => snd (calculateOptimalConcurrency s)) w)
  | update_selected w :
      update env w (on_svc (fun s => snd (selectOptimalPrefix s)) w)
  | update_launched w :
      update env w (on_svc (fun s => with_activeRequests (activeRequests s + 1) s) w)
  | update_finished w :
      update env w (on_svc finallyCallback w).

(** Knows "joseph" under "jos" and nothing under any other prefix. *)
Definition onlyJoseph : Env :=
  mkEnv (fun _ prefix => if String.eqb prefix "jos" then okResponse ["joseph"] else okResponse [])
        tick.

(** How the counters relate, whatever is in flight. *)
Definition countersInStep (s : Service) : Prop :=
  let t := stats s in
  0 <= rateLimited t /\
  0 <= failedRequests t /\
  0 <= totalRequests t /\
  Z.of_nat (size (cachedResults s)) <= successfulRequests t /\
  failedRequests t <= 2 * successfulRequests t /\
  Z.of_nat (List.length (requestTimestamps s)) <= totalRequests t.

(** The explored and blocked lists against the cache: a prefix is explored
    exactly if it has a cached result set; a blocked prefix has at least 2
    characters and a cached result set; and a prefix of at least 2
    characters whose cached result set is empty is blocked. *)
Definition bookkeeping (explored blocked : list string) (cache : gmap string (list string))
    : Prop :=
  (forall p, In p explored <-> is_Some (cache !! p)) /\
  (forall p, In p blocked -> (2 <= String.length p)%nat /\ is_Some (cache !! p)) /\
  (forall p, cache !! p = Some [] -> (2 <= String.length p)%nat -> In p blocked).

Definition cacheMirrored (s : Service) : Prop :=
  bookkeeping (exploredPrefixes (stats s)) (blockedPrefixes (stats s)) (cachedResults s).

(** * Properties *)

(** Reduce projections of updated records, and nothing else. *)
Ltac fields :=
  cbn [stats options isRunning isPaused prefixQueue activeRequests prefixPatterns
       nameFrequencyMap cachedResults commonNames namePatterns requestTimestamps
       simulationMode totalRequests successfulRequests failedRequests uniqueNames
       rateLimited exploredPrefixes skippedPrefixes currentPrefixes blockedPrefixes
       efficiency with_stats with_prefixQueue with_prefixPatterns
       with_nameFrequencyMap with_cachedResults with_requestTimestamps with_flags
       with_options with_simulationMode incTotalRequests incSuccessfulRequests
       incFailedRequests incRateLimited set_uniqueNames set_exploredPrefixes
       set_skippedPrefixes set_currentPrefixes set_blockedPrefixes set_efficiency
       svc wire on_svc] in *.

(** Split the conjunctions that are written as such in the goal. *)
Ltac splits := repeat match goal with |- _ /\ _ => split end.

(** Case analysis on every conditional of the goal. *)
Ltac split_ifs :=
  repeat match goal with
         | |- context [if ?c then _ else _] => destruct c eqn:?; fields
         end.

(** ** Strings *)

Lemma length_substring0 (n : nat) (s : string) :
  String.length (String.substring 0 n s) = Nat.min n (String.length s).
Proof.
  revert n. induction s as [|c s IH]; intros [|n]; simpl; auto.
Qed.

Lemma length_sliceInit (s : string) :
  String.length (Js.sliceInit s) = (String.length s - 1)%nat.
Proof. unfold Js.sliceInit. rewrite length_substring0. lia. Qed.

Lemma sliceInit_neq (s : string) : (1 <= String.length s)%nat -> Js.sliceInit s <> s.
Proof.
  intros Hlen Heq. pose proof (length_sliceInit s) as H.
  rewrite Heq in H. lia.
Qed.

Lemma length_append (a b : string) :
  String.length (a ++ b) = (String.length a + String.length b)%nat.
Proof. induction a as [|c a IH]; simpl; auto. Qed.

Lemma prefix_append (b t : string) : String.prefix b (b ++ t) = true.
Proof.
  induction b as [|c b IH]; simpl.
  - now destruct t.
  - destruct (ascii_dec c c); [exact IH | congruence].
Qed.

Lemma properPrefix_longer (b q : string) :
  properPrefix b q -> (String.length b < String.length q)%nat.
Proof.
  intros (t & Ht & ->). rewrite length_append.
  destruct t; [congruence | simpl; lia].
Qed.

Lemma properPrefix_startsWith (b q : string) :
  properPrefix b q -> Js.startsWith q b = true.
Proof. intros (t & _ & ->). apply prefix_append. Qed.

(** ** Pattern scorer *)

Lemma scoreBucket_range (n : Z) : 0 <= scoreBucket n <= 5.
Proof. unfold scoreBucket. repeat case_match; lia. Qed.

Lemma updatePatternScore_patterns (prefix : string) (n : Z) (s : Service) :
  prefixPatterns (updatePatternScore prefix n s) = patternsAfter prefix n (prefixPatterns s).
Proof.
  unfold patternsAfter, updatePatternScore. fields.
  destruct (1 <? String.length prefix)%nat; fields; split_ifs; reflexivity.
Qed.

Lemma updatePatternScore_frame (prefix : string) (n : Z) (s : Service) :
  updatePatternScore prefix n s =
  with_prefixPatterns (patternsAfter prefix n (prefixPatterns s))
    (with_stats (fun t => set_blockedPrefixes (t.(blockedPrefixes) ++ newlyBlocked prefix n) t) s).
Proof.
  rewrite <- updatePatternScore_patterns.
  unfold updatePatternScore, newlyBlocked. destruct s as [[] ? ? ? ? ? ? ? ? ? ? ? ?].
  unfold with_prefixPatterns, with_stats, set_blockedPrefixes. fields.
  destruct (1 <? String.length prefix)%nat; fields; split_ifs;
    rewrite ?app_nil_r; reflexivity.
Qed.

(** C4, as the code has it: a prefix of length at most 1 scores 3 whether or
    not a score is stored for it; a longer prefix with a stored score gets
    that score verbatim. *)
Theorem getPatternScore_stored (s : Service) (prefix : string) :
  ((String.length prefix <= 1)%nat -> getPatternScore s prefix = 3) /\
  (forall score : Z,
      (2 <= String.length prefix)%nat ->
      prefixPatterns s !! prefix = Some score ->
      getPatternScore s prefix = score).
Proof.
  unfold getPatternScore. split.
  - intros Hlen. destruct (Nat.leb_spec (String.length prefix) 1); [reflexivity | lia].
  - intros score Hlen Hstored.
    destruct (Nat.leb_spec (String.length prefix) 1); [lia |].
    now rewrite Hstored.
Qed.

(** C4 at concrete prefixes: "a" (length 1) and "ma" with the stored score 5. *)
Lemma getPatternScore_stored_witness :
  getPatternScore (updatePatternScore "ma" 9 (constructor defaultOptions)) "a" = 3 /\
  getPatternScore (updatePatternScore "ma" 9 (constructor defaultOptions)) "ma" = 5.
Proof.
  destruct (getPatternScore_stored
              (updatePatternScore "ma" 9 (constructor defaultOptions)) "a") as [H1 _].
  destruct (getPatternScore_stored
              (updatePatternScore "ma" 9 (constructor defaultOptions)) "ma") as [_ H2].
  split.
  - apply H1. simpl. lia.
  - apply H2; [simpl; lia | vm_compute; reflexivity].
Defined.

(** C4 as stated fails: after [updatePatternScore("a", 9)] the stored score
    of "a" is 5, yet [getPatternScore("a")] is 3. *)
Lemma getPatternScore_single_letter_ignores_stored :
  prefixPatterns (updatePatternScore "a" 9 (constructor defaultOptions)) !! "a" = Some 5 /\
  getPatternScore (updatePatternScore "a" 9 (constructor defaultOptions)) "a" = 3.
Proof. split; vm_compute; reflexivity. Qed.

Lemma updatePatternScore_range (s : Service) (prefix : string) (n : Z) :
  (forall k v, prefixPatterns s !! k = Some v -> 0 <= v <= 5) ->
  forall k v, prefixPatterns (updatePatternScore prefix n s) !! k = Some v -> 0 <= v <= 5.
Proof.
  intros Hrange k v. rewrite updatePatternScore_patterns.
  unfold patternsAfter, updatePatternScore. fields.
  pose proof (scoreBucket_range n) as Hb.
  assert (Hown : forall k v, <[prefix:=scoreBucket n]> (prefixPatterns s) !! k = Some v ->
                             0 <= v <= 5).
  { intros k' v' [[_ <-]|[_ H]]%lookup_insert_Some; [exact Hb | eauto]. }
  destruct (1 <? String.length prefix)%nat; fields.
  - destruct ((0 <? n)
              && (default 0 (<[prefix:=scoreBucket n]> (prefixPatterns s)
                             !! Js.sliceInit prefix) <? 5)) eqn:Hc; fields.
    + destruct (<[prefix:=scoreBucket n]> (prefixPatterns s) !! Js.sliceInit prefix)
        as [cur|] eqn:Hcur; cbn [default from_option id] in *.
      * pose proof (Hown _ _ Hcur) as Hcur'.
        split_ifs; intros [[_ <-]|[_ H]]%lookup_insert_Some; eauto; lia.
      * split_ifs; intros [[_ <-]|[_ H]]%lookup_insert_Some; eauto; lia.
    + split_ifs; apply Hown.
  - split_ifs; apply Hown.
Qed.


(** ** Result handling *)

Lemma with_prefixQueue_self (s : Service) : with_prefixQueue (prefixQueue s) s = s.
Proof. now destruct s. Qed.

Lemma fold_enqueue_queueOnly {A} (step : Service -> A -> Service) (l : list A) :
  (forall acc x, exists q, step acc x = with_prefixQueue q acc) ->
  forall s, exists q, fold_left step l s = with_prefixQueue q s.
Proof.
  intros Hstep. induction l as [|x l IH]; intros s; simpl.
  - exists (prefixQueue s). now rewrite with_prefixQueue_self.
  - destruct (Hstep s x) as [q1 ->].
    destruct (IH (with_prefixQueue q1 s)) as [q2 ->].
    now exists q2.
Qed.

Lemma queueOnly_trans (a b c : Service) :
  (exists q, b = with_prefixQueue q a) ->
  (exists q, c = with_prefixQueue q b) ->
  exists q, c = with_prefixQueue q a.
Proof. intros [q1 ->] [q2 ->]. now exists q2. Qed.

Ltac enqueue_step :=
  let acc := fresh "acc" in
  let x := fresh "x" in
  intros acc x; cbv zeta;
  match goal with |- context [if ?c then _ else _] => destruct c end;
  [ now eexists | exists (prefixQueue acc); now rewrite with_prefixQueue_self ].

Lemma generateOptimalNextPrefixes_queueOnly prefix results s :
  exists q, generateOptimalNextPrefixes prefix results s = with_prefixQueue q s.
Proof.
  assert (Hself : exists q, s = with_prefixQueue q s)
    by (exists (prefixQueue s); now rewrite with_prefixQueue_self).
  unfold generateOptimalNextPrefixes.
  destruct (0 <? List.length results)%nat.
  - destruct (String.length prefix <? 3)%nat; [|exact Hself].
    destruct ((List.length (extractCommonPrefixes results prefix) <? 2)
              || (String.length prefix <? 2))%nat.
    + eapply queueOnly_trans; cycle 1.
      * apply fold_enqueue_queueOnly; enqueue_step.
      * apply fold_enqueue_queueOnly; enqueue_step.
    + apply fold_enqueue_queueOnly; enqueue_step.
  - destruct (String.length prefix <=? 1)%nat; [|exact Hself].
    apply fold_enqueue_queueOnly; enqueue_step.
Qed.

Lemma recordNames_form names s :
  exists m,
    fold_left recordName names s =
    with_nameFrequencyMap m
      (with_stats (set_uniqueNames (addNames names (uniqueNames (stats s)))) s).
Proof.
  revert s. induction names as [|name names IH]; intros s.
  - exists (nameFrequencyMap s). now destruct s as [[] ? ? ? ? ? ? ? ? ? ? ? ?].
  - cbn [fold_left]. destruct (IH (recordName s name)) as [m ->]. exists m.
    unfold recordName, addNames. cbn [fold_left].
    destruct s as [[] ? ? ? ? ? ? ? ? ? ? ? ?]; fields.
    destruct (Js.includes uniqueNames0 name); reflexivity.
Qed.

(** The state [handleResults] leaves, field by field; only the queue and
    the name-frequency map are left unspecified. *)
Lemma handleResults_form prefix names fromCache s :
  exists q m,
    handleResults prefix names fromCache s =
    let t := stats s in
    let t' :=
      mkStats (totalRequests t)
        (if fromCache then successfulRequests t else successfulRequests t + 1)
        (failedRequests t) (addNames names (uniqueNames t)) (rateLimited t)
        (exploredPrefixes t ++ [prefix])%list (skippedPrefixes t)
        (List.filter (fun p => negb (String.eqb p prefix)) (currentPrefixes t))
        (blockedPrefixes t ++ newlyBlocked prefix (Z.of_nat (List.length names)))%list
        (efficiency t) in
    mkService
      (if 0 <? successfulRequests t' then set_efficiency (quotient t') t' else t')
      (options s) (isRunning s) (isPaused s) q (activeRequests s)
      (patternsAfter prefix (Z.of_nat (List.length names)) (prefixPatterns s))
      m (cachedResults s) (commonNames s) (namePatterns s) (requestTimestamps s)
      (simulationMode s).
Proof.
  unfold handleResults.
  match goal with
  | |- context [fold_left recordName names ?x] =>
      destruct (recordNames_form names x) as [m ->]
  end.
  rewrite updatePatternScore_frame.
  match goal with
  | |- context [generateOptimalNextPrefixes ?p ?r ?x] =>
      destruct (generateOptimalNextPrefixes_queueOnly p r x) as [q ->]
  end.
  exists q, m.
  destruct s as [[] ? ? ? ? ? ? ? ? ? ? ? ?]; destruct fromCache; fields; cbn [negb];
    fields; unfold quotient; fields;
    match goal with |- context [if ?c then _ else _] => destruct c end; reflexivity.
Qed.

(** ** One activation of [processPrefix] *)

Section Attempt.

Variable env : Env.
Variable prefix : string.

Lemma attempt_idle retryCount w :
  isRunning (svc w) = false -> attempt env prefix retryCount w = Done w.
Proof. intros H. unfold attempt. now rewrite H. Qed.

Lemma attempt_cache_hit retryCount w names :
  isRunning (svc w) = true ->
  cachedResults (svc w) !! prefix = Some names ->
  attempt env prefix retryCount w = Done (on_svc (handleResults prefix names true) w).
Proof. intros Hrun Hhit. unfold attempt. now rewrite Hrun, Hhit. Qed.

Lemma attempt_skipped retryCount w :
  isRunning (svc w) = true ->
  cachedResults (svc w) !! prefix = None ->
  shouldSkipPrefix (svc w) prefix = true ->
  attempt env prefix retryCount w = Done (on_svc (markSkipped prefix) w).
Proof. intros Hrun Hmiss Hskip. unfold attempt. now rewrite Hrun, Hmiss, Hskip. Qed.

Lemma attempt_rejected retryCount w :
  reachesNetwork prefix w ->
  fetch env (wire w) prefix = FetchRejects ->
  attempt env prefix retryCount w = Done (on_svc (catchBlock prefix) (sent env prefix w)).
Proof.
  intros (Hrun & Hmiss & Hskip & Hsim) Hfetch. unfold attempt, sent, noteRequest.
  rewrite Hrun, Hmiss, Hskip. fields. now rewrite Hsim, Hfetch.
Qed.

Lemma attempt_rate_limited_retry retryCount w response :
  reachesNetwork prefix w ->
  fetch env (wire w) prefix = FetchResolves response ->
  ok response = false ->
  status response = 429 ->
  retryCount < maxRetries (options (svc w)) ->
  attempt env prefix retryCount w = Again (requeued env prefix w).
Proof.
  intros (Hrun & Hmiss & Hskip & Hsim) Hfetch Hok Hstatus Hretry.
  unfold attempt, requeued, noteRequest.
  rewrite Hrun, Hmiss, Hskip. fields. rewrite Hsim, Hfetch, Hok, Hstatus. cbn [negb Z.eqb Pos.eqb].
  fields. destruct (Z.ltb_spec retryCount (maxRetries (options (svc w)))); [reflexivity|lia].
Qed.

Lemma attempt_failed_status retryCount w response :
  reachesNetwork prefix w ->
  fetch env (wire w) prefix = FetchResolves response ->
  ok response = false ->
  status response <> 429 ->
  attempt env prefix retryCount w =
  Done (on_svc (catchBlock prefix)
          (on_svc (with_stats incFailedRequests) (sent env prefix w))).
Proof.
  intros (Hrun & Hmiss & Hskip & Hsim) Hfetch Hok Hstatus.
  unfold attempt, sent, noteRequest.
  rewrite Hrun, Hmiss, Hskip. fields. rewrite Hsim, Hfetch, Hok. cbn [negb].
  destruct (Z.eqb_spec (status response) 429); [contradiction|reflexivity].
Qed.

Lemma attempt_retries_exhausted retryCount w response :
  reachesNetwork prefix w ->
  fetch env (wire w) prefix = FetchResolves response ->
  ok response = false ->
  status response = 429 ->
  maxRetries (options (svc w)) <= retryCount ->
  attempt env prefix retryCount w =
  Done (on_svc (catchBlock prefix)
          (on_svc (with_stats incFailedRequests)
             (on_svc (with_stats incRateLimited) (sent env prefix w)))).
Proof.
  intros (Hrun & Hmiss & Hskip & Hsim) Hfetch Hok Hstatus Hretry.
  unfold attempt, sent, noteRequest.
  rewrite Hrun, Hmiss, Hskip. fields. rewrite Hsim, Hfetch, Hok, Hstatus. cbn [negb Z.eqb Pos.eqb].
  fields. destruct (Z.ltb_spec retryCount (maxRetries (options (svc w)))); [lia|reflexivity].
Qed.


Lemma requeued_reachesNetwork w :
  reachesNetwork prefix w -> reachesNetwork prefix (requeued env prefix w).
Proof.
  intros (Hrun & Hmiss & Hskip & Hsim). unfold reachesNetwork, requeued, noteRequest.
  fields. repeat split; assumption.
Qed.

End Attempt.

(** ** Counters along the paths of [processPrefix] *)

Lemma includes_In (l : list string) (x : string) : Js.includes l x = true <-> In x l.
Proof.
  unfold Js.includes. rewrite existsb_exists. split.
  - intros (y & Hy & E). apply String.eqb_eq in E. now subst.
  - intros H. exists x. split; [assumption | apply String.eqb_refl].
Qed.

Lemma addNames_keeps (names u : list string) (x : string) :
  In x u -> In x (addNames names u).
Proof.
  revert u. induction names as [|n names IH]; intros u Hx; [exact Hx|].
  unfold addNames. cbn [fold_left]. fold (addNames names).
  destruct (Js.includes u n); apply IH; [assumption | apply in_or_app; now left].
Qed.

Lemma addNames_adds (names u : list string) (x : string) :
  In x names -> In x (addNames names u).
Proof.
  revert u. induction names as [|n names IH]; intros u Hx; [destruct Hx|].
  unfold addNames. cbn [fold_left]. fold (addNames names).
  destruct Hx as [->|Hx].
  - destruct (Js.includes u x) eqn:E; apply addNames_keeps.
    + now apply includes_In.
    + apply in_or_app. right. now left.
  - destruct (Js.includes u n); now apply IH.
Qed.

Lemma storeAndHandle_effect prefix names s :
  let s' := storeAndHandle prefix names s in
  successfulRequests (stats s') = successfulRequests (stats s) + 1 /\
  failedRequests (stats s') = failedRequests (stats s) /\
  rateLimited (stats s') = rateLimited (stats s) /\
  cachedResults s' = <[prefix := names]> (cachedResults s) /\
  exploredPrefixes (stats s') = (exploredPrefixes (stats s) ++ [prefix])%list /\
  uniqueNames (stats s') = addNames names (uniqueNames (stats s)).
Proof.
  cbv zeta. unfold storeAndHandle.
  destruct (handleResults_form prefix names false
              (with_cachedResults (<[prefix:=names]> (cachedResults s)) s)) as (q & m & ->).
  cbv zeta. fields. split_ifs; repeat split; reflexivity.
Qed.

Lemma catchBlock_effect prefix s :
  let s' := catchBlock prefix s in
  successfulRequests (stats s') = successfulRequests (stats s) + 1 /\
  failedRequests (stats s') = failedRequests (stats s) + 1 /\
  rateLimited (stats s') = rateLimited (stats s) /\
  cachedResults s' = <[prefix := generateFakeNamesForPrefix s prefix]> (cachedResults s) /\
  exploredPrefixes (stats s') = (exploredPrefixes (stats s) ++ [prefix])%list /\
  uniqueNames (stats s') =
    addNames (generateFakeNamesForPrefix s prefix) (uniqueNames (stats s)).
Proof.
  cbv zeta. unfold catchBlock.
  change (generateFakeNamesForPrefix (with_stats incFailedRequests s) prefix)
    with (generateFakeNamesForPrefix s prefix).
  destruct (storeAndHandle_effect prefix (generateFakeNamesForPrefix s prefix)
              (with_stats incFailedRequests s)) as (H1 & H2 & H3 & H4 & H5 & H6).
  unfold storeAndHandle in *. fields.
  rewrite H1, H2, H3, H4, H5, H6. repeat split; reflexivity.
Qed.

Lemma handleResults_from_cache prefix names s :
  let s' := handleResults prefix names true s in
  successfulRequests (stats s') = successfulRequests (stats s) /\
  failedRequests (stats s') = failedRequests (stats s) /\
  rateLimited (stats s') = rateLimited (stats s) /\
  totalRequests (stats s') = totalRequests (stats s) /\
  cachedResults s' = cachedResults s /\
  uniqueNames (stats s') = addNames names (uniqueNames (stats s)) /\
  prefixPatterns s' =
    prefixPatterns (updatePatternScore prefix (Z.of_nat (List.length names)) s).
Proof.
  cbv zeta. rewrite updatePatternScore_patterns.
  destruct (handleResults_form prefix names true s) as (q & m & ->).
  cbv zeta. fields. split_ifs; repeat split; reflexivity.
Qed.



(** A non-success status that is not retried as a rate limit: the effect of
    the activation. *)
Lemma failed_status_effect
    (env : Env) (prefix : string) (retryCount : Z) (w : World) (response : Response) :
  reachesNetwork prefix w ->
  fetch env (wire w) prefix = FetchResolves response ->
  ok response = false ->
  status response <> 429 ->
  exists w',
    processPrefix env prefix retryCount w = Some w' /\
    failedRequests (stats (svc w')) = failedRequests (stats (svc w)) + 2 /\
    successfulRequests (stats (svc w')) = successfulRequests (stats (svc w)) + 1 /\
    wire w' = (wire w ++ [prefix])%list /\
    cachedResults (svc w') !! prefix = Some (generateFakeNamesForPrefix (svc w) prefix) /\
    exploredPrefixes (stats (svc w')) = (exploredPrefixes (stats (svc w)) ++ [prefix])%list.
Proof.
  intros Hnet Hfetch Hok Hstatus.
  unfold processPrefix, attemptsLeft. cbn [processPrefixFuel].
  rewrite (attempt_failed_status env prefix retryCount w response Hnet Hfetch Hok Hstatus).
  eexists. split; [reflexivity|].
  unfold sent. fields.
  destruct (catchBlock_effect prefix (with_stats incFailedRequests (noteRequest env (svc w))))
    as (H1 & H2 & H3 & H4 & H5 & H6).
  rewrite H1, H2, H4, H5. unfold noteRequest. fields.
  repeat split; try lia.
  apply lookup_insert_eq.
Qed.

(** C3, what the code does: a non-success status other than 429 makes one
    request (no retry), substitutes, caches and handles the generated
    names, but counts the failure twice: once before the [throw] and once
    more in the [catch] block the [throw] lands in. *)
Theorem failed_status_is_counted_twice
    (env : Env) (prefix : string) (retryCount : Z) (w : World) (response : Response) :
  reachesNetwork prefix w ->
  fetch env (wire w) prefix = FetchResolves response ->
  ok response = false ->
  status response <> 429 ->
  exists w',
    processPrefix env prefix retryCount w = Some w' /\
    failedRequests (stats (svc w')) = failedRequests (stats (svc w)) + 2 /\
    successfulRequests (stats (svc w')) = successfulRequests (stats (svc w)) + 1 /\
    wire w' = (wire w ++ [prefix])%list /\
    cachedResults (svc w') !! prefix = Some (generateFakeNamesForPrefix (svc w) prefix) /\
    exploredPrefixes (stats (svc w')) = (exploredPrefixes (stats (svc w)) ++ [prefix])%list.
Proof. apply failed_status_effect. Qed.

(** C3 on a fresh default service whose endpoint answers HTTP 500:
    [failedRequests] goes from 0 to 2. *)
Lemma failed_status_is_counted_twice_witness :
  exists w',
    processPrefix serverError "a" 0 (freshWorld defaultOptions) = Some w' /\
    failedRequests (stats (svc w')) = 0 + 2 /\
    successfulRequests (stats (svc w')) = 0 + 1 /\
    wire w' = ["a"] /\
    cachedResults (svc w') !! "a" =
      Some (generateFakeNamesForPrefix (svc (freshWorld defaultOptions)) "a") /\
    exploredPrefixes (stats (svc w')) = ["a"].
Proof.
  apply (failed_status_is_counted_twice serverError "a" 0 (freshWorld defaultOptions)
           (mkResponse false 500 (JsonData None))).
  - vm_compute. repeat split; reflexivity.
  - reflexivity.
  - reflexivity.
  - discriminate.
Defined.

(** When [fetch] itself rejects, the failure is counted once; the request is
    not retried and the generated names are cached and handled. *)
Lemma rejected_fetch_is_counted_once
    (env : Env) (prefix : string) (retryCount : Z) (w : World) :
  reachesNetwork prefix w ->
  fetch env (wire w) prefix = FetchRejects ->
  exists w',
    processPrefix env prefix retryCount w = Some w' /\
    failedRequests (stats (svc w')) = failedRequests (stats (svc w)) + 1 /\
    successfulRequests (stats (svc w')) = successfulRequests (stats (svc w)) + 1 /\
    wire w' = (wire w ++ [prefix])%list /\
    cachedResults (svc w') !! prefix = Some (generateFakeNamesForPrefix (svc w) prefix) /\
    exploredPrefixes (stats (svc w')) = (exploredPrefixes (stats (svc w)) ++ [prefix])%list.
Proof.
  intros Hnet Hfetch.
  unfold processPrefix, attemptsLeft. cbn [processPrefixFuel].
  rewrite (attempt_rejected env prefix retryCount w Hnet Hfetch).
  eexists. split; [reflexivity|].
  unfold sent. fields.
  destruct (catchBlock_effect prefix (noteRequest env (svc w)))
    as (H1 & H2 & H3 & H4 & H5 & H6).
  rewrite H1, H2, H4, H5. unfold noteRequest. fields.
  repeat split; try lia.
  apply lookup_insert_eq.
Qed.

(** C10: when the query throws, or ends with a non-success status that is
    not retried (any status but 429, or 429 with the retries used up), the
    same activation increments both the failed-request and the
    successful-request counter. *)
Theorem failure_counts_as_success_too
    (env : Env) (prefix : string) (retryCount : Z) (w : World) :
  reachesNetwork prefix w ->
  (fetch env (wire w) prefix = FetchRejects \/
   exists response,
     fetch env (wire w) prefix = FetchResolves response /\
     ok response = false /\
     (status response <> 429 \/ maxRetries (options (svc w)) <= retryCount)) ->
  exists w',
    processPrefix env prefix retryCount w = Some w' /\
    failedRequests (stats (svc w)) < failedRequests (stats (svc w')) /\
    successfulRequests (stats (svc w')) = successfulRequests (stats (svc w)) + 1.
Proof.
  intros Hnet [Hrej | (response & Hfetch & Hok & Hterminal)].
  - destruct (rejected_fetch_is_counted_once env prefix retryCount w Hnet Hrej)
      as (w' & E & Hf & Hs & _).
    exists w'. repeat split; [assumption | lia | assumption].
  - destruct (Z.eq_dec (status response) 429) as [H429 | Hother].
    + destruct Hterminal as [Hne | Hexhausted]; [contradiction|].
      unfold processPrefix, attemptsLeft. cbn [processPrefixFuel].
      rewrite (attempt_retries_exhausted env prefix retryCount w response
                 Hnet Hfetch Hok H429 Hexhausted).
      eexists. split; [reflexivity|].
      unfold sent. fields.
      match goal with
      | |- context [catchBlock prefix ?x] =>
          destruct (catchBlock_effect prefix x) as (H1 & H2 & _)
      end.
      rewrite H1, H2. unfold noteRequest. fields. lia.
    + destruct (failed_status_effect env prefix retryCount w response
                  Hnet Hfetch Hok Hother) as (w' & E & Hf & Hs & _).
      exists w'. repeat split; [assumption | lia | assumption].
Qed.

(** C10 on a fresh default service whose endpoint answers HTTP 500. *)
Lemma failure_counts_as_success_too_witness :
  exists w',
    processPrefix serverError "a" 0 (freshWorld defaultOptions) = Some w' /\
    0 < failedRequests (stats (svc w')) /\
    successfulRequests (stats (svc w')) = 0 + 1.
Proof.
  apply (failure_counts_as_success_too serverError "a" 0 (freshWorld defaultOptions)).
  - vm_compute. repeat split; reflexivity.
  - right. exists (mkResponse false 500 (JsonData None)).
    split; [reflexivity|]. split; [reflexivity|]. left. discriminate.
Defined.

(** The whole chain of a prefix that is rate limited on every attempt: one
    rejection per attempt, then the terminal failure, counted twice, and one
    successful request for the generated names. *)
Lemma rate_limit_exhaustion (env : Env) (prefix : string) :
  forall (n : nat) (retryCount : Z) (w : World),
    reachesNetwork prefix w ->
    Z.to_nat (maxRetries (options (svc w)) - retryCount) = n ->
    (forall k, (k <= n)%nat ->
               exists r, fetch env (wire w ++ repeat prefix k) prefix = FetchResolves r /\
                         ok r = false /\ status r = 429) ->
    exists w',
      processPrefixFuel (S n) env prefix retryCount w = Some w' /\
      rateLimited (stats (svc w')) = rateLimited (stats (svc w)) + Z.of_nat n + 1 /\
      failedRequests (stats (svc w')) = failedRequests (stats (svc w)) + 2 /\
      successfulRequests (stats (svc w')) = successfulRequests (stats (svc w)) + 1 /\
      wire w' = (wire w ++ repeat prefix (S n))%list.
Proof.
  induction n as [|n IH]; intros retryCount w Hnet Hn Hall.
  - destruct (Hall 0%nat (Nat.le_refl _)) as (r & Hfetch & Hok & Hstatus).
    cbn [repeat] in Hfetch. rewrite app_nil_r in Hfetch.
    cbn [processPrefixFuel].
    rewrite (attempt_retries_exhausted env prefix retryCount w r Hnet Hfetch Hok Hstatus)
      by lia.
    eexists. split; [reflexivity|].
    unfold sent. fields.
    match goal with
    | |- context [catchBlock prefix ?x] =>
        destruct (catchBlock_effect prefix x) as (H1 & H2 & H3 & _)
    end.
    rewrite H1, H2, H3. unfold noteRequest. fields.
    repeat split; lia.
  - destruct (Hall 0%nat (Nat.le_0_l _)) as (r & Hfetch & Hok & Hstatus).
    cbn [repeat] in Hfetch. rewrite app_nil_r in Hfetch.
    cbn [processPrefixFuel].
    rewrite (attempt_rate_limited_retry env prefix retryCount w r Hnet Hfetch Hok Hstatus)
      by lia.
    destruct (IH (retryCount + 1) (requeued env prefix w)) as (w' & E & Hr & Hf & Hs & Hw).
    + now apply requeued_reachesNetwork.
    + unfold requeued, noteRequest. fields. lia.
    + intros k Hk. destruct (Hall (S k)) as (r' & Hfetch' & Hok' & Hstatus'); [lia|].
      exists r'. split; [|now split].
      unfold requeued. fields. rewrite <- app_assoc. exact Hfetch'.
    + exists w'. split; [exact E|].
      rewrite Hr, Hf, Hs, Hw. unfold requeued, noteRequest. fields.
      repeat split; try lia.
      rewrite <- app_assoc. reflexivity.
Qed.

(** On a fresh default service ([maxRetries] = 3) whose endpoint always
    answers 429: four requests, four rejections, the failure counted twice,
    and one successful request for the generated names. *)
Example exhausted_retries_on_default_service :
  option_map
    (fun w => (wire w, rateLimited (stats (svc w)), failedRequests (stats (svc w)),
               successfulRequests (stats (svc w))))
    (processPrefix alwaysRateLimited "a" 0 (freshWorld defaultOptions))
  = Some (["a"; "a"; "a"; "a"], 4, 2, 1).
Proof. vm_compute. reflexivity. Qed.

(** On a fresh default service whose endpoint cannot be reached: one
    request, the failure counted once, and one successful request. *)
Example unreachable_endpoint_on_default_service :
  option_map
    (fun w => (wire w, rateLimited (stats (svc w)), failedRequests (stats (svc w)),
               successfulRequests (stats (svc w)), uniqueNames (stats (svc w))))
    (processPrefix unreachable "a" 0 (freshWorld defaultOptions))
  = Some (["a"], 0, 1, 1, ["akate"; "aulie"; "aophy"; "aames"]).
Proof. vm_compute. reflexivity. Qed.

Lemma updatePatternScore_own (prefix : string) (n : Z) (s : Service) :
  prefixPatterns (updatePatternScore prefix n s) !! prefix = Some (scoreBucket n).
Proof.
  rewrite updatePatternScore_frame. fields.
  unfold patternsAfter, updatePatternScore. fields.
  destruct (Nat.ltb_spec 1 (String.length prefix)) as [Hlen|Hlen]; fields.
  - assert (Hne : Js.sliceInit prefix <> prefix) by (apply sliceInit_neq; lia).
    split_ifs; rewrite ?(lookup_insert_ne _ _ _ _ Hne), ?lookup_insert_eq; reflexivity.
  - split_ifs; rewrite ?lookup_insert_eq; reflexivity.
Qed.

(** C8: a cache hit leaves the successful-request counter (and the wire)
    alone, adds the cached names to the discovered names, and updates the
    pattern scorer with the cached result count: the score stored for the
    prefix afterwards is the bucket of the number of cached names, and the
    whole score table is the one [updatePatternScore] gives for that
    count. *)
Theorem cache_hit_feeds_names_and_scorer
    (env : Env) (prefix : string) (retryCount : Z) (w : World) (cachedNames : list string) :
  isRunning (svc w) = true ->
  cachedResults (svc w) !! prefix = Some cachedNames ->
  exists w',
    processPrefix env prefix retryCount w = Some w' /\
    successfulRequests (stats (svc w')) = successfulRequests (stats (svc w)) /\
    wire w' = wire w /\
    uniqueNames (stats (svc w')) = addNames cachedNames (uniqueNames (stats (svc w))) /\
    (forall name, In name cachedNames -> In name (uniqueNames (stats (svc w')))) /\
    (forall name, In name (uniqueNames (stats (svc w))) ->
                  In name (uniqueNames (stats (svc w')))) /\
    prefixPatterns (svc w') !! prefix =
      Some (scoreBucket (Z.of_nat (List.length cachedNames))) /\
    prefixPatterns (svc w') =
      prefixPatterns
        (updatePatternScore prefix (Z.of_nat (List.length cachedNames)) (svc w)).
Proof.
  intros Hrun Hhit.
  unfold processPrefix, attemptsLeft. cbn [processPrefixFuel].
  rewrite (attempt_cache_hit env prefix retryCount w cachedNames Hrun Hhit).
  eexists. split; [reflexivity|]. fields.
  destruct (handleResults_from_cache prefix cachedNames (svc w))
    as (H1 & _ & _ & _ & _ & H6 & H7).
  rewrite H1, H6, H7, updatePatternScore_own.
  repeat split; auto using addNames_adds, addNames_keeps.
Qed.

(** C8 on a service that has cached "a" through a real request: the two
    cached names give "a" the stored score 2. *)
Lemma cache_hit_feeds_names_and_scorer_witness :
  exists w0 w',
    processPrefix rateLimitedTwice "a" 0 (freshWorld defaultOptions) = Some w0 /\
    processPrefix rateLimitedTwice "a" 0 w0 = Some w' /\
    successfulRequests (stats (svc w')) = successfulRequests (stats (svc w0)) /\
    wire w' = wire w0 /\
    In "alice" (uniqueNames (stats (svc w'))) /\
    prefixPatterns (svc w') !! "a" = Some 2 /\
    prefixPatterns (svc w') = prefixPatterns (updatePatternScore "a" 2 (svc w0)).
Proof.
  pose (w0 := default (freshWorld defaultOptions)
                (processPrefix rateLimitedTwice "a" 0 (freshWorld defaultOptions))).
  assert (E0 : processPrefix rateLimitedTwice "a" 0 (freshWorld defaultOptions) = Some w0)
    by (vm_compute; reflexivity).
  assert (Hrun : isRunning (svc w0) = true) by (vm_compute; reflexivity).
  assert (Hhit : cachedResults (svc w0) !! "a" = Some ["alice"; "anna"])
    by (vm_compute; reflexivity).
  destruct (cache_hit_feeds_names_and_scorer rateLimitedTwice "a" 0 w0
              ["alice"; "anna"] Hrun Hhit) as (w' & E & Hs & Hw & _ & Hin & _ & Hown & Hp).
  exists w0, w'.
  split; [exact E0|]. split; [exact E|]. split; [exact Hs|]. split; [exact Hw|].
  split; [apply Hin; now left|]. split; [exact Hown | exact Hp].
Defined.

(** ** What a run preserves *)

Lemma evolves_refl s : evolves s s.
Proof. unfold evolves. repeat apply conj; auto; lia. Qed.

Lemma evolves_trans a b c : evolves a b -> evolves b c -> evolves a c.
Proof.
  unfold evolves.
  intros (A1 & A2 & A3 & A4 & A5 & A6 & A7 & A8 & A9)
         (B1 & B2 & B3 & B4 & B5 & B6 & B7 & B8 & B9).
  repeat apply conj; try congruence; auto; lia.
Qed.

Ltac evolves_by_fields :=
  unfold evolves, efficiencyZeroed; fields; repeat apply conj; auto; try lia.

Lemma evolves_noteRequest env s : evolves s (noteRequest env s).
Proof.
  unfold noteRequest. evolves_by_fields.
  rewrite length_app. lia.
Qed.

Lemma evolves_incFailed s : evolves s (with_stats incFailedRequests s).
Proof. evolves_by_fields. Qed.

Lemma evolves_incRateLimited s : evolves s (with_stats incRateLimited s).
Proof. evolves_by_fields. Qed.

Lemma evolves_requeue q s : evolves s (with_prefixQueue q s).
Proof. evolves_by_fields. Qed.

Lemma evolves_markSkipped prefix s : evolves s (markSkipped prefix s).
Proof. unfold markSkipped. evolves_by_fields. Qed.

Lemma evolves_store prefix names s :
  cachedResults s !! prefix = None ->
  evolves s (with_cachedResults (<[prefix := names]> (cachedResults s)) s).
Proof.
  intros Hmiss. evolves_by_fields.
  intros q ns Hq. rewrite lookup_insert_ne; [assumption | congruence].
Qed.

Lemma evolves_handleResults prefix names fromCache s :
  evolves s (handleResults prefix names fromCache s).
Proof.
  destruct (handleResults_form prefix names fromCache s) as (q & m & ->).
  cbv zeta. unfold evolves, efficiencyZeroed, quotient.
  destruct fromCache; fields; split_ifs; fields; repeat apply conj; auto; try lia;
    try (intros b Hb; apply in_or_app; now left);
    try (intros [H0 Hz]; split; [lia | intros E; first [lia | now apply Hz]]).
Qed.

Lemma evolves_schedule s : evolves s (snd (calculateOptimalConcurrency s)).
Proof.
  unfold calculateOptimalConcurrency.
  destruct (10 <=? List.length (requestTimestamps s))%nat; cbn [snd];
    [|apply evolves_refl].
  destruct (Nat.ltb_spec 100 (List.length (requestTimestamps s))); [|apply evolves_refl].
  evolves_by_fields. intros _. unfold Js.sliceLast. rewrite length_skipn. lia.
Qed.

Lemma efficiencyInStep_handleResults prefix names fromCache s :
  efficiencyZeroed s -> efficiencyInStep (handleResults prefix names fromCache s).
Proof.
  intros [H0 Hz].
  destruct (handleResults_form prefix names fromCache s) as (q & m & ->).
  cbv zeta. unfold efficiencyInStep, quotient.
  destruct fromCache; fields;
    repeat match goal with
           | |- context [0 <? ?x] => destruct (Z.ltb_spec 0 x); fields
           end;
    (split; [lia|]); try reflexivity; try lia; apply Hz; lia.
Qed.

Lemma efficiencyInStep_zeroed s : efficiencyInStep s -> efficiencyZeroed s.
Proof.
  intros [H0 He]. split; [assumption|]. intros E. rewrite He, E. reflexivity.
Qed.

Lemma storeAndHandle_done prefix names s0 s1 :
  evolves s0 s1 ->
  cachedResults s1 !! prefix = None ->
  evolves s0 (storeAndHandle prefix names s1) /\
  is_Some (cachedResults (storeAndHandle prefix names s1) !! prefix) /\
  (efficiencyZeroed s0 -> efficiencyInStep (storeAndHandle prefix names s1)).
Proof.
  intros Hev Hmiss.
  pose proof (evolves_store prefix names s1 Hmiss) as Hstore.
  split; [|split].
  - eapply evolves_trans; [exact Hev|].
    eapply evolves_trans; [exact Hstore|]. apply evolves_handleResults.
  - destruct (storeAndHandle_effect prefix names s1) as (_ & _ & _ & -> & _).
    rewrite lookup_insert_eq. now eexists.
  - intros Hz. apply efficiencyInStep_handleResults.
    apply Hstore. now apply Hev.
Qed.

Lemma catchBlock_done prefix s0 s1 :
  evolves s0 s1 ->
  cachedResults s1 !! prefix = None ->
  evolves s0 (catchBlock prefix s1) /\
  is_Some (cachedResults (catchBlock prefix s1) !! prefix) /\
  (efficiencyZeroed s0 -> efficiencyInStep (catchBlock prefix s1)).
Proof.
  intros Hev Hmiss.
  change (catchBlock prefix s1)
    with (storeAndHandle prefix
            (generateFakeNamesForPrefix (with_stats incFailedRequests s1) prefix)
            (with_stats incFailedRequests s1)).
  apply storeAndHandle_done; [|exact Hmiss].
  eapply evolves_trans; [exact Hev | apply evolves_incFailed].
Qed.

(** Every way one activation can end. *)
Lemma attempt_spec env prefix retryCount w :
  match attempt env prefix retryCount w with
  | Done w' =>
      evolves (svc w) (svc w') /\
      (wire w' = wire w \/
       (wire w' = (wire w ++ [prefix])%list /\
        cachedResults (svc w) !! prefix = None /\
        shouldSkipPrefix (svc w) prefix = false /\
        isRunning (svc w) = true)) /\
      (completes prefix w ->
       is_Some (cachedResults (svc w') !! prefix) /\
       (efficiencyZeroed (svc w) -> efficiencyInStep (svc w')))
  | Again w' =>
      w' = requeued env prefix w /\
      reachesNetwork prefix w /\
      retryCount < maxRetries (options (svc w))
  end.
Proof.
  unfold attempt.
  destruct (isRunning (svc w)) eqn:Hrun; cbn [negb].
  2:{ split; [apply evolves_refl|]. split; [now left|].
      intros [Hc _]. congruence. }
  destruct (cachedResults (svc w) !! prefix) as [cachedNames|] eqn:Hcache.
  { fields. split; [apply evolves_handleResults|]. split; [now left|].
    intros _. split.
    - destruct (handleResults_from_cache prefix cachedNames (svc w))
        as (_ & _ & _ & _ & -> & _).
      rewrite Hcache. now eexists.
    - apply efficiencyInStep_handleResults. }
  destruct (shouldSkipPrefix (svc w) prefix) eqn:Hskip.
  { fields. split; [apply evolves_markSkipped|]. split; [now left|].
    intros [_ [[x Hx]|Hx]]; congruence. }
  pose proof (evolves_noteRequest env (svc w)) as Hnote.
  assert (Hmiss : cachedResults (noteRequest env (svc w)) !! prefix = None) by exact Hcache.
  fields.
  change (simulationMode (noteRequest env (svc w))) with (simulationMode (svc w)).
  destruct (simulationMode (svc w)) eqn:Hsim.
  { destruct (storeAndHandle_done prefix
                (generateFakeNamesForPrefix (noteRequest env (svc w)) prefix)
                (svc w) (noteRequest env (svc w)) Hnote Hmiss) as (H1 & H2 & H3).
    split; [exact H1|]. split; [now left|]. intros _. now split. }
  destruct (fetch env (wire w) prefix) as [|response] eqn:Hfetch.
  { fields.
    destruct (catchBlock_done prefix (svc w) (noteRequest env (svc w)) Hnote Hmiss)
      as (H1 & H2 & H3).
    split; [exact H1|]. split; [right; now repeat split|]. intros _. now split. }
  destruct (ok response) eqn:Hok; cbn [negb].
  - destruct (json response) as [|results] eqn:Hjson; fields.
    + destruct (catchBlock_done prefix (svc w) (noteRequest env (svc w)) Hnote Hmiss)
        as (H1 & H2 & H3).
      split; [exact H1|]. split; [right; now repeat split|]. intros _. now split.
    + destruct (storeAndHandle_done prefix (default [] results)
                  (svc w) (noteRequest env (svc w)) Hnote Hmiss) as (H1 & H2 & H3).
      split; [exact H1|]. split; [right; now repeat split|]. intros _. now split.
  - destruct (status response =? 429) eqn:Hstatus; fields; cbn [andb].
    + destruct (Z.ltb_spec retryCount (maxRetries (options (svc w)))) as [Hlt|Hge].
      * change (maxRetries (options (noteRequest env (svc w))))
          with (maxRetries (options (svc w))).
        destruct (Z.ltb_spec retryCount (maxRetries (options (svc w)))); [|lia].
        split; [reflexivity|]. split; [now repeat split | assumption].
      * change (maxRetries (options (noteRequest env (svc w))))
          with (maxRetries (options (svc w))).
        destruct (Z.ltb_spec retryCount (maxRetries (options (svc w)))); [lia|].
        fields.
        destruct (catchBlock_done prefix (svc w)
                    (with_stats incFailedRequests
                       (with_stats incRateLimited (noteRequest env (svc w)))))
          as (H1 & H2 & H3).
        { eapply evolves_trans; [exact Hnote|].
          eapply evolves_trans; [apply evolves_incRateLimited | apply evolves_incFailed]. }
        { exact Hcache. }
        split; [exact H1|]. split; [right; now repeat split|]. intros _. now split.
    + destruct (catchBlock_done prefix (svc w)
                  (with_stats incFailedRequests (noteRequest env (svc w))))
        as (H1 & H2 & H3).
      { eapply evolves_trans; [exact Hnote | apply evolves_incFailed]. }
      { exact Hcache. }
      split; [exact H1|]. split; [right; now repeat split|]. intros _. now split.
Qed.

(** ** Whole calls of [processPrefix] *)

Lemma requestsFor_app prefix w l :
  List.length (List.filter (String.eqb prefix) (wire w ++ l)) =
  (requestsFor prefix w + List.length (List.filter (String.eqb prefix) l))%nat.
Proof. unfold requestsFor. now rewrite List.filter_app, length_app. Qed.

Lemma filter_repeat_same (p : string) (k : nat) :
  List.length (List.filter (String.eqb p) (repeat p k)) = k.
Proof.
  induction k as [|k IH]; [reflexivity|].
  cbn [repeat List.filter]. rewrite String.eqb_refl. cbn [List.length]. now rewrite IH.
Qed.

Lemma filter_repeat_other (p q : string) (k : nat) :
  p <> q -> List.length (List.filter (String.eqb p) (repeat q k)) = 0%nat.
Proof.
  intros Hne. induction k as [|k IH]; [reflexivity|].
  cbn [repeat List.filter]. destruct (String.eqb_spec p q); [contradiction | exact IH].
Qed.

(** [processPrefix] returns when given one unit of fuel per attempt that
    [maxRetries] allows; it sends [k] requests, all for its own prefix. *)
Lemma processPrefixFuel_spec env prefix :
  forall (fuel : nat) (retryCount : Z) (w : World),
    (Z.to_nat (maxRetries (options (svc w)) - retryCount) < fuel)%nat ->
    exists w' k,
      processPrefixFuel fuel env prefix retryCount w = Some w' /\
      evolves (svc w) (svc w') /\
      wire w' = (wire w ++ repeat prefix k)%list /\
      (k <= S (Z.to_nat (maxRetries (options (svc w)) - retryCount)))%nat /\
      ((0 < k)%nat ->
       cachedResults (svc w) !! prefix = None /\
       shouldSkipPrefix (svc w) prefix = false /\
       is_Some (cachedResults (svc w') !! prefix)) /\
      (completes prefix w ->
       is_Some (cachedResults (svc w') !! prefix) /\
       (efficiencyZeroed (svc w) -> efficiencyInStep (svc w'))).
Proof.
  induction fuel as [|fuel IH]; intros retryCount w Hfuel; [lia|].
  cbn [processPrefixFuel].
  pose proof (attempt_spec env prefix retryCount w) as Hspec.
  destruct (attempt env prefix retryCount w) as [w'|w1].
  - destruct Hspec as (Hev & Hwire & Hdone).
    destruct Hwire as [Hsame | (Hsent & Hmiss & Hskip & Hrun)].
    + exists w', 0%nat. cbn [repeat]. rewrite app_nil_r.
      splits; auto; try lia.
    + exists w', 1%nat. cbn [repeat].
      splits; auto; try lia.
      intros _. splits; auto.
      apply Hdone. split; [exact Hrun | now right].
  - destruct Hspec as (-> & Hnet & Hretry).
    destruct (IH (retryCount + 1) (requeued env prefix w)) as (w' & k & E & Hev & Hwire & Hk & Hsent & Hdone).
    { unfold requeued, noteRequest. fields. lia. }
    assert (Hcompletes : completes prefix (requeued env prefix w)).
    { destruct (requeued_reachesNetwork env prefix w Hnet) as (H1 & _ & H3 & _).
      split; [exact H1 | now right]. }
    assert (Hev0 : evolves (svc w) (svc (requeued env prefix w))).
    { unfold requeued. fields.
      eapply evolves_trans; [apply evolves_noteRequest|].
      eapply evolves_trans; [apply evolves_incRateLimited | apply evolves_requeue]. }
    destruct Hnet as (Hrun & Hmiss & Hskip & Hsim).
    exists w', (S k). splits.
    + exact E.
    + eapply evolves_trans; eassumption.
    + rewrite Hwire. unfold requeued. fields. cbn [repeat].
      now rewrite <- app_assoc.
    + unfold requeued, noteRequest in Hk. fields. lia.
    + intros _. splits; auto. now apply Hdone.
    + intros _. split; [now apply Hdone|].
      intros Hz. apply Hdone; [exact Hcompletes|]. now apply Hev0.
Qed.

Lemma processPrefix_spec env prefix retryCount w :
  exists w' k,
    processPrefix env prefix retryCount w = Some w' /\
    evolves (svc w) (svc w') /\
    wire w' = (wire w ++ repeat prefix k)%list /\
    (k <= S (Z.to_nat (maxRetries (options (svc w)) - retryCount)))%nat /\
    ((0 < k)%nat ->
     cachedResults (svc w) !! prefix = None /\
     shouldSkipPrefix (svc w) prefix = false /\
     is_Some (cachedResults (svc w') !! prefix)) /\
    (completes prefix w ->
     is_Some (cachedResults (svc w') !! prefix) /\
     (efficiencyZeroed (svc w) -> efficiencyInStep (svc w'))).
Proof. apply processPrefixFuel_spec. unfold attemptsLeft. lia. Qed.

(** One action of a run: it returns, lets the state evolve, and changes the
    number of requests for a prefix only by dispatching that prefix while it
    is neither cached nor skipped, after which it is cached. *)
Lemma act_spec env a w :
  exists w',
    act env a w = Some w' /\
    evolves (svc w) (svc w') /\
    forall p,
      (requestsFor p w <= requestsFor p w')%nat /\
      (requestsFor p w' <= requestsFor p w + S (Z.to_nat (maxRetries (options (svc w)))))%nat /\
      ((requestsFor p w < requestsFor p w')%nat ->
       a = Dispatch p /\
       cachedResults (svc w) !! p = None /\
       shouldSkipPrefix (svc w) p = false /\
       is_Some (cachedResults (svc w') !! p)).
Proof.
  destruct a as [|prefix]; cbn [act].
  - eexists. split; [reflexivity|]. split; [apply evolves_schedule|].
    intros p. unfold requestsFor. fields. splits; lia.
  - destruct (processPrefix_spec env prefix 0 w) as (w' & k & E & Hev & Hwire & Hk & Hsent & _).
    exists w'. split; [exact E|]. split; [exact Hev|].
    intros p.
    assert (Hreq : requestsFor p w' =
                   (requestsFor p w
                    + List.length (List.filter (String.eqb p) (repeat prefix k)))%nat).
    { unfold requestsFor at 1. rewrite Hwire. apply requestsFor_app. }
    rewrite Hreq. clear Hreq.
    destruct (String.eqb_spec p prefix) as [->|Hne].
    + rewrite filter_repeat_same. rewrite Z.sub_0_r in Hk.
      splits; try lia.
      intros Hlt. destruct Hsent as (H1 & H2 & H3); [lia|]. now repeat split.
    + rewrite filter_repeat_other by assumption. splits; lia.
Qed.

(** ** Runs *)

Lemma run_spec env actions :
  forall w,
    exists w',
      run env actions w = Some w' /\
      evolves (svc w) (svc w') /\
      forall p,
        (is_Some (cachedResults (svc w) !! p) -> requestsFor p w' = requestsFor p w) /\
        (requestsFor p w' <= requestsFor p w + S (Z.to_nat (maxRetries (options (svc w)))))%nat.
Proof.
  induction actions as [|a actions IH]; intros w; cbn [run].
  - exists w. split; [reflexivity|]. split; [apply evolves_refl|].
    intros p. split; [reflexivity | lia].
  - destruct (act_spec env a w) as (w1 & -> & Hev1 & Hact).
    destruct (IH w1) as (w' & E & Hev & Hrun).
    exists w'. split; [exact E|]. split; [eapply evolves_trans; eassumption|].
    intros p. destruct (Hact p) as (Hle & Hbound & Hgrow).
    destruct (Hrun p) as (Hcached & Hbound').
    assert (Hopt : options (svc w1) = options (svc w)) by apply Hev1.
    rewrite Hopt in Hbound'.
    split.
    + intros [names Hnames].
      assert (E1 : requestsFor p w1 = requestsFor p w).
      { destruct (Nat.eq_dec (requestsFor p w1) (requestsFor p w)) as [|Hne]; [assumption|].
        destruct Hgrow as (_ & Hmiss & _); [lia | congruence]. }
      rewrite <- E1. apply Hcached.
      exists names. destruct Hev1 as (_ & _ & _ & _ & Hkeep & _). now apply Hkeep.
    + destruct (Nat.eq_dec (requestsFor p w1) (requestsFor p w)) as [E1|Hne].
      * lia.
      * destruct Hgrow as (_ & _ & _ & Hnow); [lia|].
        rewrite (Hcached Hnow). exact Hbound.
Qed.

(** ** Branch blocker *)

Lemma shouldSkipPrefix_blocked s b q :
  In b (blockedPrefixes (stats s)) ->
  properPrefix b q ->
  (1 <= String.length b)%nat ->
  shouldSkipPrefix s q = true.
Proof.
  intros Hin Hproper Hlen. unfold shouldSkipPrefix.
  pose proof (properPrefix_longer b q Hproper) as Hlonger.
  destruct (Nat.leb_spec (String.length q) 1); [lia|].
  assert (Hex : existsb (fun blockedPrefix => Js.startsWith q blockedPrefix)
                  (blockedPrefixes (stats s)) = true).
  { apply existsb_exists. exists b. split; [assumption|].
    now apply properPrefix_startsWith. }
  now rewrite Hex.
Qed.

(** ** Rate controller *)





(** ** Efficiency *)

Lemma run_keeps_efficiencyZeroed env actions w :
  efficiencyZeroed (svc w) ->
  exists w', run env actions w = Some w' /\ efficiencyZeroed (svc w').
Proof.
  intros Hz. destruct (run_spec env actions w) as (w' & E & Hev & _).
  exists w'. split; [exact E|]. now apply Hev.
Qed.

Lemma initializeCommonNames_stats s : stats (initializeCommonNames s) = stats s.
Proof.
  unfold initializeCommonNames. generalize commonEnglishNames. intros l.
  revert s. induction l as [|name l IH]; intros s; [reflexivity|].
  cbn [fold_left]. now rewrite IH.
Qed.

(** C9: the efficiency statistic is 0 while no request has succeeded: on
    construction, after [reset()], through [start()] and through any run;
    and after every completed (non-skipped) prefix it equals the number of
    unique names divided by the successful-request count (0 if that count
    is 0). *)
Theorem efficiency_statistic :
  (forall o, efficiencyInStep (constructor o) /\
             successfulRequests (stats (constructor o)) = 0 /\
             efficiency (stats (constructor o)) = 0%Q) /\
  (forall s, efficiencyInStep (reset s) /\
             successfulRequests (stats (reset s)) = 0 /\
             efficiency (stats (reset s)) = 0%Q) /\
  (forall s, efficiencyZeroed s -> efficiencyZeroed (start s)) /\
  (forall env actions w,
      efficiencyZeroed (svc w) ->
      exists w', run env actions w = Some w' /\ efficiencyZeroed (svc w')) /\
  (forall env prefix retryCount w,
      efficiencyZeroed (svc w) ->
      exists w',
        processPrefix env prefix retryCount w = Some w' /\
        efficiencyZeroed (svc w') /\
        (completes prefix w ->
         efficiency (stats (svc w')) =
           if 0 <? successfulRequests (stats (svc w'))
           then (inject_Z (Z.of_nat (List.length (uniqueNames (stats (svc w')))))
                 / inject_Z (successfulRequests (stats (svc w'))))%Q
           else 0%Q)).
Proof.
  splits.
  - intros o. unfold constructor, efficiencyInStep.
    rewrite initializeCommonNames_stats. fields. cbn. splits; (reflexivity || lia).
  - intros s. unfold efficiencyInStep, reset. fields. cbn. splits; (reflexivity || lia).
  - intros s Hz. unfold start. destruct (isRunning s); [exact Hz|].
    fields. destruct (mlEnabled (options s)); exact Hz.
  - intros env actions w. apply run_keeps_efficiencyZeroed.
  - intros env prefix retryCount w Hz.
    destruct (processPrefix_spec env prefix retryCount w) as (w' & k & E & Hev & _ & _ & _ & Hdone).
    exists w'. split; [exact E|]. split; [now apply Hev|].
    intros Hc. destruct (Hdone Hc) as (_ & Hstep). now apply Hstep.
Qed.

(** * Further properties of the engine *)

(** ** An induction principle for runs *)

(** Every way a call of [processPrefix] and an evaluation of the ceiling can
    change the world; a property kept by each of them is kept by every
    run. *)
Section RunInvariant.

Variable I : World -> Prop.

Hypothesis keep_cache_hit : forall w p names,
  I w -> isRunning (svc w) = true -> cachedResults (svc w) !! p = Some names ->
  I (on_svc (handleResults p names true) w).

Hypothesis keep_skip : forall w p,
  I w -> isRunning (svc w) = true -> cachedResults (svc w) !! p = None ->
  shouldSkipPrefix (svc w) p = true ->
  I (on_svc (markSkipped p) w).

Hypothesis keep_simulated : forall env w p,
  I w -> isRunning (svc w) = true -> cachedResults (svc w) !! p = None ->
  shouldSkipPrefix (svc w) p = false -> simulationMode (svc w) = true ->
  I (on_svc (fun s => storeAndHandle p (generateFakeNamesForPrefix s p) s)
       (on_svc (noteRequest env) w)).

Hypothesis keep_answered : forall env w p names,
  I w -> reachesNetwork p w ->
  I (on_svc (storeAndHandle p names) (sent env p w)).

Hypothesis keep_thrown : forall env w p,
  I w -> reachesNetwork p w ->
  I (on_svc (catchBlock p) (sent env p w)).

Hypothesis keep_failed : forall env w p,
  I w -> reachesNetwork p w ->
  I (on_svc (catchBlock p) (on_svc (with_stats incFailedRequests) (sent env p w))).

Hypothesis keep_exhausted : forall env w p,
  I w -> reachesNetwork p w ->
  I (on_svc (catchBlock p)
       (on_svc (with_stats incFailedRequests)
          (on_svc (with_stats incRateLimited) (sent env p w)))).

Hypothesis keep_retry : forall env w p,
  I w -> reachesNetwork p w -> I (requeued env p w).

Hypothesis keep_schedule : forall w,
  I w -> I (mkWorld (snd (calculateOptimalConcurrency (svc w))) (wire w)).

Lemma attempt_invariant env prefix retryCount w :
  I w ->
  match attempt env prefix retryCount w with
  | Done w' => I w'
  | Again w' => I w'
  end.
Proof.
  intros HI. pose proof (attempt_spec env prefix retryCount w) as Hspec.
  destruct (attempt env prefix retryCount w) as [w'|w'] eqn:E.
  2:{ destruct Hspec as (-> & Hnet & _). now apply keep_retry. }
  clear Hspec. revert E. unfold attempt.
  destruct (isRunning (svc w)) eqn:Hrun; cbn [negb]; [|now intros [= <-]].
  destruct (cachedResults (svc w) !! prefix) as [names|] eqn:Hcache;
    [intros [= <-]; now apply keep_cache_hit|].
  destruct (shouldSkipPrefix (svc w) prefix) eqn:Hskip;
    [intros [= <-]; now apply keep_skip|].
  fields. change (simulationMode (noteRequest env (svc w))) with (simulationMode (svc w)).
  destruct (simulationMode (svc w)) eqn:Hsim;
    [intros [= <-]; now apply keep_simulated|].
  assert (Hnet : reachesNetwork prefix w) by (now repeat split).
  destruct (fetch env (wire w) prefix) as [|response];
    [intros [= <-]; now apply (keep_thrown env)|].
  destruct (ok response); cbn [negb].
  - destruct (json response) as [|results]; intros [= <-].
    + now apply (keep_thrown env).
    + now apply (keep_answered env).
  - destruct (status response =? 429); fields; cbn [andb].
    + change (maxRetries (options (noteRequest env (svc w))))
        with (maxRetries (options (svc w))).
      destruct (retryCount <? maxRetries (options (svc w))); [discriminate|].
      intros [= <-]. now apply (keep_exhausted env).
    + intros [= <-]. now apply (keep_failed env).
Qed.

Lemma processPrefixFuel_invariant env prefix :
  forall fuel retryCount w w',
    I w -> processPrefixFuel fuel env prefix retryCount w = Some w' -> I w'.
Proof.
  induction fuel as [|fuel IH]; intros retryCount w w' HI; cbn [processPrefixFuel];
    [discriminate|].
  pose proof (attempt_invariant env prefix retryCount w HI) as Hstep.
  destruct (attempt env prefix retryCount w) as [w1|w1].
  - now intros [= <-].
  - now apply IH.
Qed.

Lemma run_invariant env actions :
  forall w w', I w -> run env actions w = Some w' -> I w'.
Proof.
  induction actions as [|a actions IH]; intros w w' HI; cbn [run].
  - now intros [= <-].
  - destruct (act env a w) as [w1|] eqn:E; [|discriminate].
    apply IH. destruct a as [|prefix]; cbn [act] in E.
    + injection E as <-. now apply keep_schedule.
    + unfold processPrefix in E. now apply (processPrefixFuel_invariant env prefix _ _ _ _ HI E).
Qed.

End RunInvariant.

(** The same principle for properties of the service alone, in terms of the
    elementary updates, and extended to whole sessions. *)
Section ServiceInvariant.

Variable J : Service -> Prop.

Hypothesis keep_noteRequest : forall env s, J s -> J (noteRequest env s).
Hypothesis keep_incRateLimited : forall s, J s -> J (with_stats incRateLimited s).
Hypothesis keep_incFailed : forall s, J s -> J (with_stats incFailedRequests s).
Hypothesis keep_queue : forall q s, J s -> J (with_prefixQueue q s).
Hypothesis keep_markSkipped : forall p s,
  J s -> cachedResults s !! p = None -> shouldSkipPrefix s p = true -> J (markSkipped p s).
Hypothesis keep_fromCache : forall p names s,
  J s -> cachedResults s !! p = Some names -> J (handleResults p names true s).
Hypothesis keep_store : forall p names s,
  J s -> cachedResults s !! p = None -> J (storeAndHandle p names s).
Hypothesis keep_trim : forall s, J s -> J (snd (calculateOptimalConcurrency s)).

Lemma keep_catchBlock p s : J s -> cachedResults s !! p = None -> J (catchBlock p s).
Proof.
  intros HJ Hmiss.
  change (catchBlock p s)
    with (storeAndHandle p (generateFakeNamesForPrefix (with_stats incFailedRequests s) p)
            (with_stats incFailedRequests s)).
  apply keep_store; [now apply keep_incFailed | exact Hmiss].
Qed.

Lemma run_service_invariant env actions w w' :
  J (svc w) -> run env actions w = Some w' -> J (svc w').
Proof.
  apply (run_invariant (fun w => J (svc w))); clear w w'.
  - intros w p names HJ _ Hhit. now apply keep_fromCache.
  - intros w p HJ _ Hmiss Hskip. now apply keep_markSkipped.
  - intros env' w p HJ _ Hmiss _ _. fields.
    apply keep_store; [now apply keep_noteRequest | exact Hmiss].
  - intros env' w p names HJ (_ & Hmiss & _). unfold sent. fields.
    apply keep_store; [now apply keep_noteRequest | exact Hmiss].
  - intros env' w p HJ (_ & Hmiss & _). unfold sent. fields.
    apply keep_catchBlock; [now apply keep_noteRequest | exact Hmiss].
  - intros env' w p HJ (_ & Hmiss & _). unfold sent. fields.
    apply keep_catchBlock; [apply keep_incFailed; now apply keep_noteRequest | exact Hmiss].
  - intros env' w p HJ (_ & Hmiss & _). unfold sent. fields.
    apply keep_catchBlock; [|exact Hmiss].
    apply keep_incFailed, keep_incRateLimited. now apply keep_noteRequest.
  - intros env' w p HJ _. unfold requeued. fields.
    apply keep_queue, keep_incRateLimited. now apply keep_noteRequest.
  - intros w HJ. fields. now apply keep_trim.
Qed.

Hypothesis keep_flags : forall running paused s, J s -> J (with_flags running paused s).
Hypothesis keep_options : forall o s, J s -> J (with_options o s).
Hypothesis keep_simulationMode : forall b s, J s -> J (with_simulationMode b s).
Hypothesis keep_reset : forall s, J s -> J (reset s).

Lemma command_service_invariant env c w w' :
  J (svc w) -> command env c w = Some w' -> J (svc w').
Proof.
  intros HJ. destruct c; cbn [command]; try (intros [= <-]; fields).
  - unfold start. destruct (isRunning (svc w)); [exact HJ|].
    destruct (mlEnabled (options (with_flags true false (svc w))));
      now apply keep_queue, keep_flags.
  - now apply keep_flags.
  - unfold resume. destruct (negb (isRunning (svc w))); [exact HJ | now apply keep_flags].
  - now apply keep_flags.
  - now apply keep_reset.
  - now apply keep_options.
  - now apply keep_simulationMode.
  - intros E. apply (run_service_invariant env [a] w w' HJ).
    cbn [run]. now rewrite E.
Qed.

Lemma session_service_invariant env commands :
  forall w w', J (svc w) -> session env commands w = Some w' -> J (svc w').
Proof.
  induction commands as [|c commands IH]; intros w w' HJ; cbn [session].
  - now intros [= <-].
  - destruct (command env c w) as [w1|] eqn:E; [|discriminate].
    apply IH. now apply (command_service_invariant env c w).
Qed.

End ServiceInvariant.

(** Sessions, like runs, always return. *)
Lemma session_total env commands :
  forall w, exists w', session env commands w = Some w'.
Proof.
  induction commands as [|c commands IH]; intros w; cbn [session]; [now eexists|].
  destruct c; cbn [command]; try apply IH.
  destruct (act_spec env a w) as (w1 & -> & _). apply IH.
Qed.

Lemma storeAndHandle_form prefix names s :
  exists q m,
    storeAndHandle prefix names s =
    let t := stats s in
    let t' :=
      mkStats (totalRequests t) (successfulRequests t + 1)
        (failedRequests t) (addNames names (uniqueNames t)) (rateLimited t)
        (exploredPrefixes t ++ [prefix])%list (skippedPrefixes t)
        (List.filter (fun p => negb (String.eqb p prefix)) (currentPrefixes t))
        (blockedPrefixes t ++ newlyBlocked prefix (Z.of_nat (List.length names)))%list
        (efficiency t) in
    mkService
      (if 0 <? successfulRequests t' then set_efficiency (quotient t') t' else t')
      (options s) (isRunning s) (isPaused s) q (activeRequests s)
      (patternsAfter prefix (Z.of_nat (List.length names)) (prefixPatterns s))
      m (<[prefix := names]> (cachedResults s)) (commonNames s) (namePatterns s)
      (requestTimestamps s) (simulationMode s).
Proof.
  unfold storeAndHandle.
  destruct (handleResults_form prefix names false
              (with_cachedResults (<[prefix:=names]> (cachedResults s)) s)) as (q & m & ->).
  now exists q, m.
Qed.

Lemma session_invariant (I : World -> Prop) env commands :
  (forall a w w', I w -> act env a w = Some w' -> I w') ->
  (forall w, I w -> I (on_svc start w)) ->
  (forall w, I w -> I (on_svc pause w)) ->
  (forall w, I w -> I (on_svc resume w)) ->
  (forall w, I w -> I (on_svc stop w)) ->
  (forall w, I w -> I (on_svc reset w)) ->
  (forall o w, I w -> I (on_svc (updateOptions o) w)) ->
  (forall b w, I w -> I (on_svc (enableSimulationMode b) w)) ->
  forall w w', I w -> session env commands w = Some w' -> I w'.
Proof.
  intros Hact Hstart Hpause Hresume Hstop Hreset Hopt Hsim.
  induction commands as [|c commands IH]; intros w w' HI; cbn [session].
  - now intros [= <-].
  - destruct (command env c w) as [w1|] eqn:E; [|discriminate].
    apply IH. destruct c; cbn [command] in E; try (injection E as <-); eauto.
Qed.

Lemma trim_form s :
  exists ts,
    snd (calculateOptimalConcurrency s) = with_requestTimestamps ts s /\
    (List.length ts <= List.length (requestTimestamps s))%nat.
Proof.
  unfold calculateOptimalConcurrency.
  assert (Hself : s = with_requestTimestamps (requestTimestamps s) s) by now destruct s.
  destruct (10 <=? List.length (requestTimestamps s))%nat; cbn [snd].
  - destruct (100 <? List.length (requestTimestamps s))%nat.
    + eexists. split; [reflexivity|]. unfold Js.sliceLast. rewrite length_skipn. lia.
    + exists (requestTimestamps s). now split.
  - exists (requestTimestamps s). now split.
Qed.

(** ** The discovered names are a set *)

Lemma addNames_NoDup names u : NoDup u -> NoDup (addNames names u).
Proof.
  revert u. induction names as [|n names IH]; intros u Hu; [exact Hu|].
  unfold addNames. cbn [fold_left]. fold (addNames names).
  destruct (Js.includes u n) eqn:E; apply IH; [exact Hu|].
  apply NoDup_app. split; [exact Hu|]. split; [|apply NoDup_singleton].
  intros x Hx Hn. apply list_elem_of_singleton in Hn. subst x.
  apply list_elem_of_In, includes_In in Hx. congruence.
Qed.

Lemma addNames_known names u :
  (forall n, In n names -> In n u) -> addNames names u = u.
Proof.
  revert u. induction names as [|n names IH]; intros u Hall; [reflexivity|].
  unfold addNames. cbn [fold_left]. fold (addNames names).
  assert (E : Js.includes u n = true) by (apply includes_In, Hall; now left).
  rewrite E. apply IH. intros x Hx. apply Hall. now right.
Qed.

Lemma namesAreUnique_session env o commands w' :
  session env commands (newWorld o) = Some w' -> namesAreUnique (svc w').
Proof.
  apply (session_service_invariant namesAreUnique); unfold namesAreUnique.
  - intros env' s H. exact H.
  - intros s H. exact H.
  - intros s H. exact H.
  - intros q s H. exact H.
  - intros p s H _ _. exact H.
  - intros p names s H _.
    destruct (handleResults_form p names true s) as (q & m & ->).
    cbv zeta. fields. split_ifs; now apply addNames_NoDup.
  - intros p names s H _.
    destruct (storeAndHandle_form p names s) as (q & m & ->).
    cbv zeta. fields. split_ifs; now apply addNames_NoDup.
  - intros s H. destruct (trim_form s) as (ts & -> & _). exact H.
  - intros r p s H. exact H.
  - intros o' s H. exact H.
  - intros b s H. exact H.
  - intros s _. apply NoDup_nil_2.
  - cbn [newWorld svc]. unfold constructor. rewrite initializeCommonNames_stats.
    apply NoDup_nil_2.
Qed.

(** The discovered names never hold a name twice, whatever is done to the
    service; and handling a result set whose names are all known already
    leaves them as they are. *)
Theorem discovered_names_are_a_set (env : Env) (o : DiscoveryOptions) (commands : list Command) :
  exists w,
    session env commands (newWorld o) = Some w /\
    NoDup (uniqueNames (stats (svc w))) /\
    forall prefix names fromCache,
      (forall n, In n names -> In n (uniqueNames (stats (svc w)))) ->
      uniqueNames (stats (handleResults prefix names fromCache (svc w))) =
      uniqueNames (stats (svc w)).
Proof.
  destruct (session_total env commands (newWorld o)) as (w & E).
  exists w. split; [exact E|]. split; [exact (namesAreUnique_session env o commands w E)|].
  intros prefix names fromCache Hknown.
  destruct (handleResults_form prefix names fromCache (svc w)) as (q & m & ->).
  cbv zeta. fields. split_ifs; now apply addNames_known.
Qed.

(** ** Scores stay within 0..5 *)

Lemma bump_positive key (m : gmap string Z) :
  (forall k n, m !! k = Some n -> 1 <= n) ->
  forall k n, bump key m !! k = Some n -> 1 <= n.
Proof.
  intros Hm k n. unfold bump.
  intros [[_ <-]|[_ H]]%lookup_insert_Some; [|eauto].
  destruct (m !! key) as [v|] eqn:E; cbn [default from_option id]; [|lia].
  pose proof (Hm _ _ E). lia.
Qed.

Lemma analyzeName_positive name :
  forall n i (m : gmap string Z),
    (forall k c, m !! k = Some c -> 1 <= c) ->
    forall k c, analyzeName n i name m !! k = Some c -> 1 <= c.
Proof.
  induction n as [|n IH]; intros i m Hm; cbn [analyzeName]; [exact Hm|].
  destruct ((i <=? 3)%nat && (i <? String.length name)%nat); [|exact Hm].
  apply IH. now apply bump_positive.
Qed.

Lemma initializeCommonNames_positive s :
  patternCountsPositive s -> patternCountsPositive (initializeCommonNames s).
Proof.
  unfold initializeCommonNames. generalize commonEnglishNames. intros l.
  revert s. induction l as [|name l IH]; intros s Hs; [exact Hs|].
  cbn [fold_left]. apply IH. unfold patternCountsPositive. fields.
  now apply analyzeName_positive.
Qed.

Lemma getPatternScore_within s prefix :
  scoresInRange s -> patternCountsPositive s -> 0 <= getPatternScore s prefix <= 5.
Proof.
  intros Hs Hn. unfold getPatternScore.
  destruct (String.length prefix <=? 1)%nat; [lia|].
  destruct (prefixPatterns s !! prefix) as [v|] eqn:E; [now apply (Hs prefix)|].
  destruct (prefixPatterns s !! Js.sliceInit prefix) as [v|] eqn:E'.
  - pose proof (Hs _ _ E'). lia.
  - destruct (namePatterns s !! prefix) as [n|] eqn:E''; [|lia].
    pose proof (Hn _ _ E''). lia.
Qed.

Lemma scores_session env o commands w' :
  session env commands (newWorld o) = Some w' ->
  scoresInRange (svc w') /\ patternCountsPositive (svc w').
Proof.
  apply (session_service_invariant (fun s => scoresInRange s /\ patternCountsPositive s));
    unfold scoresInRange, patternCountsPositive.
  - intros env' s H. exact H.
  - intros s H. exact H.
  - intros s H. exact H.
  - intros q s H. exact H.
  - intros p s H _ _. exact H.
  - intros p names s [H1 H2] _.
    destruct (handleResults_form p names true s) as (q & m & ->).
    cbv zeta. fields. rewrite <- updatePatternScore_patterns.
    split; [now apply updatePatternScore_range | exact H2].
  - intros p names s [H1 H2] _.
    destruct (storeAndHandle_form p names s) as (q & m & ->).
    cbv zeta. fields. rewrite <- updatePatternScore_patterns.
    split; [now apply updatePatternScore_range | exact H2].
  - intros s H. destruct (trim_form s) as (ts & -> & _). exact H.
  - intros r p s H. exact H.
  - intros o' s H. exact H.
  - intros b s H. exact H.
  - intros s [_ H2]. split; [|exact H2]. unfold reset. fields.
    intros k v. rewrite lookup_empty. discriminate.
  - cbn [newWorld svc]. unfold constructor. split.
    + assert (E : forall s, prefixPatterns (initializeCommonNames s) = prefixPatterns s).
      { intros s. unfold initializeCommonNames. generalize commonEnglishNames. intros l.
        revert s. induction l as [|name l IH]; intros s; [reflexivity|].
        cbn [fold_left]. now rewrite IH. }
      rewrite E. fields. intros k v. rewrite lookup_empty. discriminate.
    + apply initializeCommonNames_positive. unfold patternCountsPositive. fields.
      intros k n. rewrite lookup_empty. discriminate.
Qed.

(** Whatever is done to the service, every stored pattern score and the
    score [getPatternScore] gives for any prefix lie in 0..5. *)
Theorem scores_stay_in_range (env : Env) (o : DiscoveryOptions) (commands : list Command) :
  exists w,
    session env commands (newWorld o) = Some w /\
    (forall k v, prefixPatterns (svc w) !! k = Some v -> 0 <= v <= 5) /\
    (forall prefix, 0 <= getPatternScore (svc w) prefix <= 5).
Proof.
  destruct (session_total env commands (newWorld o)) as (w & E).
  destruct (scores_session env o commands w E) as [H1 H2].
  exists w. split; [exact E|]. split; [exact H1|].
  intros prefix. now apply getPatternScore_within.
Qed.

(** ** Synthetic fallback names *)

Lemma In_firstn {A} (n : nat) (l : list A) (x : A) : In x (firstn n l) -> In x l.
Proof. intros H. rewrite <- (firstn_skipn n l). apply in_or_app. now left. Qed.

Lemma generateFakeNames_spec s prefix :
  let names := generateFakeNamesForPrefix s prefix in
  let available := if (2 <? String.length prefix)%nat then 3%nat else 6%nat in
  (forall name, In name names -> Js.startsWith name prefix = true) /\
  List.length names = Nat.min (Z.to_nat (getPatternScore s prefix + 1)) available.
Proof.
  cbv zeta. unfold generateFakeNamesForPrefix.
  set (available := if (2 <? String.length prefix)%nat then 3%nat else 6%nat).
  match goal with
  | |- context [map ?f (seq 0 available)] => set (name_of := f)
  end.
  split.
  - intros name Hin. apply In_firstn in Hin.
    apply in_map_iff in Hin as (i & <- & _). unfold name_of.
    destruct (1 <? String.length prefix)%nat; apply prefix_append.
  - rewrite length_firstn, length_map, length_seq.
    assert (Ha : (available <= 6)%nat) by (unfold available; split_ifs; lia).
    lia.
Qed.

(** Whatever is done to the service, the fallback generator gives between 1
    and 6 names (at most 3 for a prefix longer than 2), each starting with
    the prefix; so a query that fails, and is given these names, never puts
    its prefix on the blocked list. *)
Theorem fallback_names_are_never_empty
    (env : Env) (o : DiscoveryOptions) (commands : list Command) :
  exists w,
    session env commands (newWorld o) = Some w /\
    forall prefix,
      let names := generateFakeNamesForPrefix (svc w) prefix in
      (forall name, In name names -> Js.startsWith name prefix = true) /\
      (1 <= List.length names <= 6)%nat /\
      ((2 < String.length prefix)%nat -> (List.length names <= 3)%nat) /\
      blockedPrefixes (stats (catchBlock prefix (svc w))) = blockedPrefixes (stats (svc w)).
Proof.
  destruct (session_total env commands (newWorld o)) as (w & E).
  destruct (scores_session env o commands w E) as [H1 H2].
  exists w. split; [exact E|]. intros prefix. cbv zeta.
  destruct (generateFakeNames_spec (svc w) prefix) as [Hstarts Hlen]. cbv zeta in Hlen.
  pose proof (getPatternScore_within (svc w) prefix H1 H2) as Hscore.
  assert (Hpos : (1 <= List.length (generateFakeNamesForPrefix (svc w) prefix))%nat).
  { rewrite Hlen. destruct (2 <? String.length prefix)%nat; lia. }
  split; [exact Hstarts|]. split; [|split].
  - split; [exact Hpos|]. rewrite Hlen. destruct (2 <? String.length prefix)%nat; lia.
  - intros Hlong. rewrite Hlen.
    destruct (Nat.ltb_spec 2 (String.length prefix)); lia.
  - change (catchBlock prefix (svc w))
      with (storeAndHandle prefix
              (generateFakeNamesForPrefix (svc w) prefix)
              (with_stats incFailedRequests (svc w))).
    destruct (storeAndHandle_form prefix (generateFakeNamesForPrefix (svc w) prefix)
                (with_stats incFailedRequests (svc w))) as (q & m & ->).
    cbv zeta. fields. unfold newlyBlocked.
    destruct (Z.eqb_spec (Z.of_nat (List.length (generateFakeNamesForPrefix (svc w) prefix))) 0);
      [lia|].
    cbn [andb]. split_ifs; apply app_nil_r.
Qed.

(** ** Bookkeeping lists and the cache *)

Lemma newlyBlocked_In q p n :
  In q (newlyBlocked p n) <-> q = p /\ n = 0 /\ (2 <= String.length p)%nat.
Proof.
  unfold newlyBlocked.
  destruct (Z.eqb_spec n 0); destruct (Nat.leb_spec 2 (String.length p)); cbn [andb In];
    intuition (try lia; try congruence).
Qed.

Lemma length_zero_nil {A} (l : list A) : Z.of_nat (List.length l) = 0 <-> l = [].
Proof. destruct l; cbn [List.length]; split; intros H; (reflexivity || lia || discriminate). Qed.

Lemma shouldSkipPrefix_long s p : shouldSkipPrefix s p = true -> (2 <= String.length p)%nat.
Proof.
  unfold shouldSkipPrefix. destruct (Nat.leb_spec (String.length p) 1); [discriminate | lia].
Qed.

Lemma bookkeeping_empty :
  (forall p : string, In p [] <-> is_Some ((∅ : gmap string (list string)) !! p)) /\
  (forall p : string,
      In p [] <-> (∅ : gmap string (list string)) !! p = Some [] /\ (2 <= String.length p)%nat) /\
  (forall p : string, In p [] -> (2 <= String.length p)%nat).
Proof.
  split; [|split]; intros p; cbn [In].
  - split; [tauto|]. intros [x Hx]. rewrite lookup_empty in Hx. discriminate.
  - split; [tauto|]. intros [H _]. rewrite lookup_empty in H. discriminate.
  - tauto.
Qed.

Lemma bookkeeping_session env o commands w' :
  session env commands (newWorld o) = Some w' ->
  exploredIsCached (svc w') /\ blockedIsEmptyCached (svc w') /\ skippedAreLong (svc w').
Proof.
  apply (session_service_invariant
           (fun s => exploredIsCached s /\ blockedIsEmptyCached s /\ skippedAreLong s));
    unfold exploredIsCached, blockedIsEmptyCached, skippedAreLong.
  - intros env' s H. exact H.
  - intros s H. exact H.
  - intros s H. exact H.
  - intros q s H. exact H.
  - intros p s (H1 & H2 & H3) _ Hskip. unfold markSkipped. fields.
    split; [exact H1|]. split; [exact H2|].
    intros q [Hq|[<-|[]]]%in_app_or; [now apply H3 | now apply (shouldSkipPrefix_long s)].
  - intros p names s (H1 & H2 & H3) Hhit.
    destruct (handleResults_form p names true s) as (q & m & ->).
    cbv zeta. fields.
    assert (G : (forall x, In x (exploredPrefixes (stats s) ++ [p]) <->
                           is_Some (cachedResults s !! x)) /\
                (forall x, In x (blockedPrefixes (stats s)
                                 ++ newlyBlocked p (Z.of_nat (List.length names))) <->
                           cachedResults s !! x = Some [] /\ (2 <= String.length x)%nat)).
    { split; intros x; rewrite in_app_iff.
      - rewrite H1. cbn [In]. split.
        + intros [H|[<-|[]]]; [exact H | now exists names].
        + intros H. now left.
      - rewrite H2, newlyBlocked_In, length_zero_nil. split.
        + intros [H|(-> & -> & Hlen)]; [exact H | now split].
        + intros H. now left. }
    destruct G as [G1 G2]. split_ifs; fields; exact (conj G1 (conj G2 H3)).
  - intros p names s (H1 & H2 & H3) Hmiss.
    destruct (storeAndHandle_form p names s) as (q & m & ->).
    cbv zeta. fields.
    assert (G : (forall x, In x (exploredPrefixes (stats s) ++ [p]) <->
                           is_Some (<[p:=names]> (cachedResults s) !! x)) /\
                (forall x, In x (blockedPrefixes (stats s)
                                 ++ newlyBlocked p (Z.of_nat (List.length names))) <->
                           <[p:=names]> (cachedResults s) !! x = Some []
                           /\ (2 <= String.length x)%nat)).
    { split; intros x; rewrite in_app_iff.
      - rewrite H1. cbn [In]. destruct (decide (p = x)) as [<-|Hne].
        + rewrite lookup_insert_eq. split; [now eexists | intros _; right; now left].
        + rewrite lookup_insert_ne by assumption. split.
          * intros [H|[E|[]]]; [exact H | contradiction].
          * intros H. now left.
      - rewrite H2, newlyBlocked_In, length_zero_nil. destruct (decide (p = x)) as [<-|Hne].
        + rewrite lookup_insert_eq, Hmiss. split.
          * intros [[H _]|(_ & -> & Hlen)]; [discriminate | now split].
          * intros [[= ->] Hlen]. right. now repeat split.
        + rewrite lookup_insert_ne by assumption. split.
          * intros [H|(-> & _)]; [exact H | contradiction].
          * intros H. now left. }
    destruct G as [G1 G2]. split_ifs; fields; exact (conj G1 (conj G2 H3)).
  - intros s H. destruct (trim_form s) as (ts & -> & _). exact H.
  - intros r p s H. exact H.
  - intros o' s H. exact H.
  - intros b s H. exact H.
  - intros s _. unfold reset. fields. exact bookkeeping_empty.
  - cbn [newWorld svc]. unfold constructor.
    assert (E : forall s, cachedResults (initializeCommonNames s) = cachedResults s).
    { intros s. unfold initializeCommonNames. generalize commonEnglishNames. intros l.
      revert s. induction l as [|name l IH]; intros s; [reflexivity|].
      cbn [fold_left]. now rewrite IH. }
    rewrite initializeCommonNames_stats, E. fields. exact bookkeeping_empty.
Qed.

(** Whatever is done to the service, a prefix of at most one character is
    never marked skipped and never blocked. *)
Theorem short_prefixes_are_never_skipped_or_blocked
    (env : Env) (o : DiscoveryOptions) (commands : list Command) :
  exists w,
    session env commands (newWorld o) = Some w /\
    forall p, (String.length p <= 1)%nat ->
              ~ In p (skippedPrefixes (stats (svc w))) /\
              ~ In p (blockedPrefixes (stats (svc w))).
Proof.
  destruct (session_total env commands (newWorld o)) as (w & E).
  destruct (bookkeeping_session env o commands w E) as (_ & H2 & H3).
  exists w. split; [exact E|]. intros p Hlen. split; intros Hin.
  - apply H3 in Hin. lia.
  - apply H2 in Hin. lia.
Qed.

(** ** The constructor *)

Lemma initializeCommonNames_form s :
  exists names patterns,
    initializeCommonNames s =
    mkService (stats s) (options s) (isRunning s) (isPaused s) (prefixQueue s)
      (activeRequests s) (prefixPatterns s) (nameFrequencyMap s) (cachedResults s)
      names patterns (requestTimestamps s) (simulationMode s).
Proof.
  unfold initializeCommonNames. generalize commonEnglishNames. intros l.
  revert s. induction l as [|name l IH]; intros s; cbn [fold_left].
  - exists (commonNames s), (namePatterns s). now destruct s.
  - match goal with |- context [fold_left ?f l ?x] => destruct (IH x) as (c & n & E) end.
    rewrite E. fields. now exists c, n.
Qed.

(** ** Simulation mode, stopped services, and the wire *)




Lemma counted_run env actions c :
  forall w w',
    (simulationMode (svc w) = false /\
     totalRequests (stats (svc w)) - Z.of_nat (List.length (wire w)) = c) ->
    run env actions w = Some w' ->
    simulationMode (svc w') = false /\
    totalRequests (stats (svc w')) - Z.of_nat (List.length (wire w')) = c.
Proof.
  assert (Hcatch : forall p s, totalRequests (stats (catchBlock p s)) = totalRequests (stats s)
                               /\ simulationMode (catchBlock p s) = simulationMode s).
  { intros p s.
    change (catchBlock p s)
      with (storeAndHandle p (generateFakeNamesForPrefix s p) (with_stats incFailedRequests s)).
    destruct (storeAndHandle_form p (generateFakeNamesForPrefix s p)
                (with_stats incFailedRequests s)) as (q & m & ->).
    cbv zeta. fields. split_ifs; now split. }
  apply (run_invariant
           (fun w => simulationMode (svc w) = false /\
                     totalRequests (stats (svc w)) - Z.of_nat (List.length (wire w)) = c)).
  - intros w p names H _ _. fields.
    destruct (handleResults_form p names true (svc w)) as (q & m & ->).
    cbv zeta. fields. split_ifs; exact H.
  - intros w p H _ _ _. exact H.
  - intros env' w p [H _] _ _ _ Hon. congruence.
  - intros env' w p names [H1 H2] _. unfold sent. fields.
    destruct (storeAndHandle_form p names (noteRequest env' (svc w))) as (q & m & ->).
    cbv zeta. unfold noteRequest. fields. rewrite length_app. cbn [List.length].
    split_ifs; fields; split; (assumption || lia).
  - intros env' w p [H1 H2] _. unfold sent. fields.
    destruct (Hcatch p (noteRequest env' (svc w))) as [-> ->].
    unfold noteRequest. fields. rewrite length_app. cbn [List.length]. split; (assumption || lia).
  - intros env' w p [H1 H2] _. unfold sent. fields.
    destruct (Hcatch p (with_stats incFailedRequests (noteRequest env' (svc w)))) as [-> ->].
    unfold noteRequest. fields. rewrite length_app. cbn [List.length]. split; (assumption || lia).
  - intros env' w p [H1 H2] _. unfold sent. fields.
    destruct (Hcatch p (with_stats incFailedRequests
                          (with_stats incRateLimited (noteRequest env' (svc w))))) as [-> ->].
    unfold noteRequest. fields. rewrite length_app. cbn [List.length]. split; (assumption || lia).
  - intros env' w p [H1 H2] _. unfold requeued, noteRequest. fields.
    rewrite length_app. cbn [List.length]. split; (assumption || lia).
  - intros w H. fields. destruct (trim_form (svc w)) as (ts & -> & _). exact H.
Qed.

(** With simulation mode off, [totalRequests] counts exactly the requests
    put on the wire: through any run both grow by the same amount. *)
Theorem total_requests_counts_the_wire (env : Env) (actions : list Action) (w : World) :
  simulationMode (svc w) = false ->
  exists w',
    run env actions w = Some w' /\
    totalRequests (stats (svc w')) - totalRequests (stats (svc w)) =
    Z.of_nat (List.length (wire w')) - Z.of_nat (List.length (wire w)).
Proof.
  intros Hoff. destruct (run_spec env actions w) as (w' & E & _).
  exists w'. split; [exact E|].
  destruct (counted_run env actions
              (totalRequests (stats (svc w)) - Z.of_nat (List.length (wire w))) w w')
    as [_ H]; [now split | exact E | lia].
Qed.

(** A run against an endpoint that answers the first two requests with 429. *)
Lemma total_requests_counts_the_wire_witness :
  exists w',
    run rateLimitedTwice [Dispatch "a"; Dispatch "b"; Dispatch "a"]
      (freshWorld defaultOptions) = Some w' /\
    totalRequests (stats (svc w')) - 0 = Z.of_nat (List.length (wire w')) - 0.
Proof.
  apply (total_requests_counts_the_wire rateLimitedTwice
           [Dispatch "a"; Dispatch "b"; Dispatch "a"] (freshWorld defaultOptions)).
  reflexivity.
Defined.




(** ** Rate controller: bounds *)

(** With a configured maximum of at least 1, the concurrency ceiling is
    always between 1 and that maximum; and evaluating it changes nothing but
    the timestamp history, of which it keeps the most recent 100 entries. *)
Theorem ceiling_within_configured_bounds (s : Service) :
  1 <= maxConcurrentRequests (options s) ->
  1 <= ceiling s <= maxConcurrentRequests (options s) /\
  let s' := snd (calculateOptimalConcurrency s) in
  s' = with_requestTimestamps (requestTimestamps s') s /\
  (exists dropped, requestTimestamps s = (dropped ++ requestTimestamps s')%list) /\
  List.length (requestTimestamps s') = Nat.min (List.length (requestTimestamps s)) 100.
Proof.
  intros Hmax. split.
  - unfold ceiling, calculateOptimalConcurrency.
    destruct (10 <=? List.length (requestTimestamps s))%nat; cbn [fst]; [|lia].
    destruct (0 <? rateLimited (stats s)); [lia|].
    destruct ((10 <? successfulRequests (stats s)) && (rateLimited (stats s) =? 0)); lia.
  - cbv zeta. unfold calculateOptimalConcurrency.
    assert (Hself : s = with_requestTimestamps (requestTimestamps s) s) by now destruct s.
    destruct (Nat.leb_spec 10 (List.length (requestTimestamps s))); cbn [snd].
    + destruct (Nat.ltb_spec 100 (List.length (requestTimestamps s))); fields.
      * split; [reflexivity|]. split.
        -- exists (firstn (List.length (requestTimestamps s) - 100) (requestTimestamps s)).
           unfold Js.sliceLast. now rewrite firstn_skipn.
        -- unfold Js.sliceLast. rewrite length_skipn. lia.
      * split; [exact Hself|]. split; [now exists [] | lia].
    + split; [exact Hself|]. split; [now exists [] | lia].
Qed.

(** The default options allow 4 concurrent requests. *)
Lemma ceiling_within_configured_bounds_witness :
  1 <= ceiling (constructor defaultOptions) <= 4 /\
  let s' := snd (calculateOptimalConcurrency (constructor defaultOptions)) in
  s' = with_requestTimestamps (requestTimestamps s') (constructor defaultOptions) /\
  (exists dropped,
      requestTimestamps (constructor defaultOptions) = (dropped ++ requestTimestamps s')%list) /\
  List.length (requestTimestamps s') =
    Nat.min (List.length (requestTimestamps (constructor defaultOptions))) 100.
Proof.
  apply (ceiling_within_configured_bounds (constructor defaultOptions)).
  vm_compute. discriminate.
Defined.

Lemma qmin_le_l (a b : Q) : (qmin a b <= a)%Q.
Proof.
  unfold qmin. destruct (Qle_bool a b) eqn:E; [apply Qle_refl|].
  apply Qlt_le_weak, Qnot_le_lt. intros H. apply Qle_bool_iff in H. congruence.
Qed.

(** The delay between dispatches is the configured one until a request has
    been rejected; from the first rejection on, and through the rest of the
    run, it is [min(1000, 1.5 * delayBetweenRequests)]: never above 1000 ms,
    not below the configured delay if that is between 0 and 1000, and
    exactly 1000 (shorter than configured) if the configured delay exceeds
    1000. *)
Theorem adaptive_delay_after_rejection
    (s : Service) (env : Env) (actions : list Action) (w : World) :
  (rateLimited (stats s) = 0 ->
   adaptiveDelay s = inject_Z (delayBetweenRequests (options s))) /\
  (0 < rateLimited (stats (svc w)) ->
   exists w',
     run env actions w = Some w' /\
     let base := delayBetweenRequests (options (svc w)) in
     adaptiveDelay (svc w') = qmin 1000 (inject_Z base * (3 # 2)) /\
     (adaptiveDelay (svc w') <= 1000)%Q /\
     (0 <= base <= 1000 -> (inject_Z base <= adaptiveDelay (svc w'))%Q) /\
     (1000 < base -> adaptiveDelay (svc w') = 1000%Q)).
Proof.
  split.
  - intros H0. unfold adaptiveDelay. now rewrite H0.
  - intros Hrej. destruct (run_spec env actions w) as (w' & E & Hev & _).
    destruct Hev as (Hopt & _ & _ & _ & _ & _ & Hrate & _).
    exists w'. split; [exact E|]. cbv zeta.
    assert (Hd : adaptiveDelay (svc w') =
                 qmin 1000 (inject_Z (delayBetweenRequests (options (svc w))) * (3 # 2))).
    { unfold adaptiveDelay. rewrite Hopt.
      destruct (Z.ltb_spec 0 (rateLimited (stats (svc w')))); [reflexivity | lia]. }
    rewrite Hd. split; [reflexivity|]. split; [apply qmin_le_l|].
    set (base := delayBetweenRequests (options (svc w))).
    unfold qmin.
    destruct (Qle_bool 1000 (inject_Z base * (3 # 2))) eqn:E1; split.
    + intros Hb. unfold Qle. cbn. lia.
    + reflexivity.
    + intros Hb. unfold Qle. cbn. lia.
    + intros Hb. exfalso.
      assert (H : Qle_bool 1000 (inject_Z base * (3 # 2)) = true).
      { apply Qle_bool_iff. unfold Qle. cbn. lia. }
      congruence.
Qed.

(** ** Frontier: the common next-character extensions *)

Lemma bumpOrdered_getCount k p (m : list (string * Z)) :
  getCount p (bumpOrdered k m) =
  if String.eqb p k then Some (default 0 (getCount k m) + 1) else getCount p m.
Proof.
  induction m as [|[k' n] m IH]; cbn [bumpOrdered getCount].
  - destruct (String.eqb p k); reflexivity.
  - destruct (String.eqb_spec k k') as [<-|Hne]; cbn [getCount default from_option id].
    + destruct (String.eqb_spec p k); reflexivity.
    + rewrite IH. destruct (String.eqb_spec p k) as [->|Hpk].
      * destruct (String.eqb_spec k k'); [contradiction | reflexivity].
      * reflexivity.
Qed.

Lemma bumpOrdered_keys k (m : list (string * Z)) p :
  In p (map fst (bumpOrdered k m)) <-> p = k \/ In p (map fst m).
Proof.
  induction m as [|[k' n] m IH]; cbn [bumpOrdered map fst In].
  - intuition.
  - destruct (String.eqb_spec k k') as [<-|Hne]; cbn [map fst In].
    + intuition.
    + rewrite IH. intuition.
Qed.

Lemma bumpOrdered_NoDup k (m : list (string * Z)) :
  NoDup (map fst m) -> NoDup (map fst (bumpOrdered k m)).
Proof.
  induction m as [|[k' n] m IH]; cbn [bumpOrdered map fst]; intros Hnd.
  - apply NoDup_singleton.
  - destruct (String.eqb_spec k k') as [<-|Hne]; cbn [map fst]; [exact Hnd|].
    apply NoDup_cons in Hnd as [Hnot Hnd]. apply NoDup_cons. split; [|now apply IH].
    rewrite list_elem_of_In, bumpOrdered_keys. rewrite list_elem_of_In in Hnot.
    intros [E|H]; [congruence | contradiction].
Qed.

Lemma getCount_None k (m : list (string * Z)) :
  getCount k m = None <-> ~ In k (map fst m).
Proof.
  induction m as [|[k' n] m IH]; cbn [getCount map fst In]; [tauto|].
  destruct (String.eqb_spec k k') as [<-|Hne].
  - split; [discriminate | intros H; exfalso; apply H; now left].
  - rewrite IH. intuition congruence.
Qed.

Lemma getCount_In k n (m : list (string * Z)) :
  NoDup (map fst m) -> (In (k, n) m <-> getCount k m = Some n).
Proof.
  induction m as [|[k' n'] m IH]; cbn [getCount map fst In]; intros Hnd.
  - split; [tauto | discriminate].
  - apply NoDup_cons in Hnd as [Hnot Hnd]. rewrite list_elem_of_In in Hnot.
    destruct (String.eqb_spec k k') as [<-|Hne].
    + split.
      * intros [[= ->]|Hin]; [reflexivity|].
        exfalso. apply Hnot. apply in_map_iff. now exists (k, n).
      * intros [= ->]. now left.
    + rewrite <- (IH Hnd). split.
      * intros [[= -> ->]|Hin]; [contradiction | exact Hin].
      * intros Hin. now right.
Qed.

Lemma extensionCount_snoc names name cur p :
  extensionCount (names ++ [name]) cur p =
  extensionCount names cur p
  + (match extensionOf cur name with
     | Some q => if String.eqb q p then 1 else 0
     | None => 0
     end).
Proof.
  unfold extensionCount. rewrite List.filter_app, length_app. cbn [List.filter].
  destruct (extensionOf cur name) as [q|]; [destruct (String.eqb q p)|];
    cbn [List.length]; lia.
Qed.

Lemma extensionCount_nonneg names cur p : 0 <= extensionCount names cur p.
Proof. unfold extensionCount. lia. Qed.

(** The frequency table [extractCommonPrefixes] builds. *)
Lemma nextLetterFrequency_spec cur names :
  forall (m : list (string * Z)) (seen : list string),
    NoDup (map fst m) ->
    (forall p, default 0 (getCount p m) = extensionCount seen cur p) ->
    (forall p n, getCount p m = Some n -> 0 < n) ->
    let m' :=
      fold_left
        (fun m name =>
           if (String.length cur <? String.length name)%nat then
             match String.get (String.length cur) name with
             | Some nextChar => bumpOrdered (cur ++ String nextChar EmptyString) m
             | None => m
             end
           else m)
        names m in
    NoDup (map fst m') /\
    (forall p, default 0 (getCount p m') = extensionCount (seen ++ names) cur p) /\
    (forall p n, getCount p m' = Some n -> 0 < n).
Proof.
  induction names as [|name names IH]; intros m seen Hnd Hcount Hpos; cbv zeta.
  - cbn [fold_left]. rewrite app_nil_r. now repeat split.
  - cbn [fold_left].
    replace (seen ++ name :: names)%list with ((seen ++ [name]) ++ names)%list
      by now rewrite <- app_assoc.
    apply IH.
    + destruct (String.length cur <? String.length name)%nat; [|exact Hnd].
      destruct (String.get (String.length cur) name); [|exact Hnd].
      now apply bumpOrdered_NoDup.
    + intros p. rewrite extensionCount_snoc. unfold extensionOf.
      destruct (String.length cur <? String.length name)%nat;
        [|rewrite Hcount; lia].
      destruct (String.get (String.length cur) name) as [c|]; [|rewrite Hcount; lia].
      rewrite bumpOrdered_getCount, (String.eqb_sym p).
      destruct (String.eqb (cur ++ String c EmptyString) p) eqn:E.
      * apply String.eqb_eq in E. subst p. cbn [default from_option id].
        now rewrite Hcount.
      * rewrite Hcount. lia.
    + intros p n. destruct (String.length cur <? String.length name)%nat; [|apply Hpos].
      destruct (String.get (String.length cur) name) as [c|]; [|apply Hpos].
      rewrite bumpOrdered_getCount. destruct (String.eqb p (cur ++ String c EmptyString)).
      * intros [= <-]. specialize (Hcount (cur ++ String c EmptyString)).
        pose proof (extensionCount_nonneg seen cur (cur ++ String c EmptyString)). lia.
      * apply Hpos.
Qed.

Lemma insertByCount_perm x (l : list (string * Z)) :
  Permutation (insertByCount x l) (x :: l).
Proof.
  induction l as [|y l IH]; cbn [insertByCount]; [reflexivity|].
  destruct (snd x <? snd y); [|reflexivity].
  rewrite IH. apply perm_swap.
Qed.

Lemma sortByCount_perm (l : list (string * Z)) : Permutation (sortByCount l) l.
Proof.
  induction l as [|x l IH]; cbn [sortByCount fold_right]; [reflexivity|].
  fold (sortByCount l). rewrite insertByCount_perm. now rewrite IH.
Qed.

Lemma insertByCount_ordered x (l : list (string * Z)) :
  orderedBy (fun a b => snd b <= snd a) l ->
  orderedBy (fun a b => snd b <= snd a) (insertByCount x l).
Proof.
  induction l as [|y l IH]; cbn [insertByCount orderedBy]; intros Hl.
  - split; [intros y []|exact I].
  - destruct Hl as [Hy Hl]. destruct (Z.ltb_spec (snd x) (snd y)); cbn [orderedBy].
    + split; [|now apply IH].
      intros z Hz. apply (Permutation_in _ (insertByCount_perm x l)) in Hz.
      destruct Hz as [<-|Hz]; [lia | now apply Hy].
    + split; [|split; assumption].
      intros z [<-|Hz]; [lia|]. specialize (Hy z Hz). lia.
Qed.

Lemma sortByCount_ordered (l : list (string * Z)) :
  orderedBy (fun a b => snd b <= snd a) (sortByCount l).
Proof.
  induction l as [|x l IH]; cbn [sortByCount fold_right]; [exact I|].
  now apply insertByCount_ordered.
Qed.

Lemma orderedBy_split {A} (R : A -> A -> Prop) (n : nat) (l : list A) :
  orderedBy R l -> forall a b, In a (firstn n l) -> In b (skipn n l) -> R a b.
Proof.
  revert l. induction n as [|n IH]; intros l Hl a b Ha Hb; [destruct Ha|].
  destruct l as [|x l]; [destruct Ha|].
  cbn [firstn skipn] in Ha, Hb. destruct Hl as [Hx Hl]. destruct Ha as [<-|Ha].
  - apply Hx. revert Hb. rewrite <- (firstn_skipn n l) at 2. intros Hb.
    apply in_or_app. now right.
  - now apply (IH l).
Qed.

Lemma extractCommonPrefixes_spec (names : list string) (currentPrefix : string) :
  let found := extractCommonPrefixes names currentPrefix in
  (List.length found <= 3)%nat /\
  NoDup found /\
  (forall p, In p found ->
             0 < extensionCount names currentPrefix p /\
             exists c, p = currentPrefix ++ String c EmptyString) /\
  (forall p q, In p found -> ~ In q found ->
               extensionCount names currentPrefix q <= extensionCount names currentPrefix p) /\
  ((List.length found < 3)%nat ->
   forall q, 0 < extensionCount names currentPrefix q -> In q found).
Proof.
  cbv zeta.
  destruct (nextLetterFrequency_spec currentPrefix names [] [])
    as (Hnd & Hcount & Hpos); [apply NoDup_nil_2 | reflexivity | discriminate |].
  cbv zeta in Hnd, Hcount, Hpos. cbn [app] in Hcount.
  set (m := fold_left _ names []) in *.
  assert (E : extractCommonPrefixes names currentPrefix = map fst (firstn 3 (sortByCount m))).
  { unfold extractCommonPrefixes. destruct names; [reflexivity|]. reflexivity. }
  rewrite E. clear E.
  pose proof (sortByCount_perm m) as Hperm.
  pose proof (sortByCount_ordered m) as Hord.
  set (sorted := sortByCount m) in *.
  assert (Hnd' : NoDup (map fst sorted)).
  { eapply NoDup_Permutation_proper; [|exact Hnd]. now apply Permutation_map. }
  assert (Hget : forall p n, In (p, n) sorted <-> getCount p m = Some n).
  { intros p n. rewrite <- (getCount_In p n m Hnd). split; apply Permutation_in;
      [exact Hperm | now symmetry]. }
  assert (Hin : forall p n, In (p, n) sorted -> n = extensionCount names currentPrefix p /\ 0 < n).
  { intros p n H. apply Hget in H. split; [|now apply (Hpos p)].
    rewrite <- Hcount, H. reflexivity. }
  assert (Hkey : forall q, 0 < extensionCount names currentPrefix q ->
                           exists n, In (q, n) sorted).
  { intros q Hq. rewrite <- Hcount in Hq.
    destruct (getCount q m) as [n|] eqn:Eq; [|cbn in Hq; lia].
    exists n. now apply Hget. }
  assert (Hfound : forall p, In p (map fst (firstn 3 sorted)) ->
                             exists n, In (p, n) (firstn 3 sorted)).
  { intros p Hp. apply in_map_iff in Hp as ([p' n] & <- & Hp). now exists n. }
  split; [rewrite length_map, length_firstn; lia|].
  split.
  { rewrite <- (firstn_skipn 3 sorted), map_app in Hnd'. now apply NoDup_app in Hnd' as [H _]. }
  split.
  { intros p Hp. destruct (Hfound p Hp) as (n & Hn). apply In_firstn in Hn.
    destruct (Hin p n Hn) as [-> Hpos']. split; [exact Hpos'|].
    clear -Hpos'. unfold extensionCount in Hpos'.
    destruct (List.filter _ names) as [|name l] eqn:Ef; [cbn in Hpos'; lia|].
    assert (Hname : In name (List.filter
                               (fun name => match extensionOf currentPrefix name with
                                            | Some q => String.eqb q p
                                            | None => false
                                            end) names))
      by (rewrite Ef; now left).
    apply filter_In in Hname as [_ Hname]. unfold extensionOf in Hname.
    destruct (String.length currentPrefix <? String.length name)%nat; [|discriminate].
    destruct (String.get (String.length currentPrefix) name) as [c|]; [|discriminate].
    apply String.eqb_eq in Hname. now exists c. }
  split.
  { intros p q Hp Hq. destruct (Hfound p Hp) as (n & Hn).
    destruct (Z.ltb_spec 0 (extensionCount names currentPrefix q)) as [Hpos'|Hzero].
    - destruct (Hkey q Hpos') as (nq & Hnq).
      assert (Hskip : In (q, nq) (skipn 3 sorted)).
      { rewrite <- (firstn_skipn 3 sorted) in Hnq. apply in_app_or in Hnq as [H|H]; [|exact H].
        exfalso. apply Hq. apply in_map_iff. now exists (q, nq). }
      pose proof (orderedBy_split _ 3 sorted Hord _ _ Hn Hskip) as Hle. cbn [snd] in Hle.
      apply In_firstn in Hn. destruct (Hin p n Hn) as [<- _].
      destruct (Hin q nq Hnq) as [<- _]. exact Hle.
    - apply In_firstn in Hn. destruct (Hin p n Hn) as [<- Hn']. lia. }
  intros Hshort q Hq. destruct (Hkey q Hq) as (n & Hn).
  rewrite length_map, length_firstn in Hshort.
  rewrite firstn_all2 by lia. apply in_map_iff. now exists (q, n).
Qed.

(** [extractCommonPrefixes] returns at most three prefixes, all different,
    each the current prefix extended by the character some name has at that
    position; nothing it leaves out is more frequent among the names than
    anything it returns; and when it returns fewer than three, it returns
    every extension that occurs. *)
Theorem extractCommonPrefixes_most_frequent (names : list string) (currentPrefix : string) :
  let found := extractCommonPrefixes names currentPrefix in
  (List.length found <= 3)%nat /\
  NoDup found /\
  (forall p, In p found ->
             0 < extensionCount names currentPrefix p /\
             exists c, p = currentPrefix ++ String c EmptyString) /\
  (forall p q, In p found -> ~ In q found ->
               extensionCount names currentPrefix q <= extensionCount names currentPrefix p) /\
  ((List.length found < 3)%nat ->
   forall q, 0 < extensionCount names currentPrefix q -> In q found).
Proof. exact (extractCommonPrefixes_spec names currentPrefix). Qed.

(** ** Frontier: what child generation enqueues *)

Lemma notYetKnown_unseen s p : notYetKnown s p = true <-> unseen s p.
Proof.
  unfold notYetKnown, unseen.
  rewrite !andb_true_iff, !negb_true_iff, <- !not_true_iff_false, !includes_In.
  tauto.
Qed.

Lemma fold_enqueue_new {A} (cond : Service -> A -> bool) (g : A -> string)
    (Q : string -> Prop) (s0 : Service) (l : list A) :
  (forall acc x, In x l -> stats acc = stats s0 -> cond acc x = true ->
                 notYetKnown acc (g x) = true /\ Q (g x)) ->
  forall added,
    NoDup added -> (forall p, In p added -> Q p /\ unseen s0 p) ->
    exists added',
      fold_left (fun acc x => if cond acc x then enqueue (g x) acc else acc) l
        (with_prefixQueue (prefixQueue s0 ++ added) s0)
      = with_prefixQueue (prefixQueue s0 ++ added') s0 /\
      NoDup added' /\
      (forall p, In p added' -> Q p /\ unseen s0 p) /\
      (List.length added' <= List.length added + List.length l)%nat.
Proof.
  induction l as [|x l IH]; intros Hcond added Hnd Hadded; cbn [fold_left].
  - exists added. repeat split; try assumption; try apply Hadded; try assumption. lia.
  - set (acc := with_prefixQueue (prefixQueue s0 ++ added) s0).
    assert (Hstats : stats acc = stats s0) by reflexivity.
    destruct (cond acc x) eqn:Ec.
    + destruct (Hcond acc x (or_introl eq_refl) Hstats Ec) as [Hnew HQ].
      apply notYetKnown_unseen in Hnew. destruct Hnew as (He & Hs & Hq).
      rewrite Hstats in He, Hs. subst acc. cbn [prefixQueue with_prefixQueue] in Hq.
      destruct (IH (fun a y Hy => Hcond a y (or_intror Hy)) (added ++ [g x])%list)
        as (added' & E & Hnd' & Hall & Hlen).
      * apply NoDup_app. split; [exact Hnd|]. split; [|apply NoDup_singleton].
        intros p Hp Hp'. apply list_elem_of_In in Hp, Hp'. destruct Hp' as [<-|[]].
        apply Hq. apply in_or_app. now right.
      * intros p Hp. apply in_app_or in Hp as [Hp|[<-|[]]]; [now apply Hadded|].
        split; [exact HQ|]. split; [exact He|]. split; [exact Hs|].
        intros Hin. apply Hq. apply in_or_app. now left.
      * exists added'. split; [|split; [exact Hnd'|split; [exact Hall|]]].
        -- rewrite <- E. unfold enqueue. cbn [prefixQueue with_prefixQueue].
           now rewrite <- app_assoc.
        -- rewrite length_app in Hlen. cbn [List.length] in *. lia.
    + destruct (IH (fun a y Hy => Hcond a y (or_intror Hy)) added Hnd Hadded)
        as (added' & E & Hnd' & Hall & Hlen).
      exists added'. repeat split; try assumption; try apply Hall; try assumption.
      cbn [List.length]. lia.
Qed.

Lemma single_letters (l : list string) (char : string) :
  Forall (fun s => String.length s = 1%nat) l -> In char l ->
  exists c, char = String c EmptyString.
Proof.
  intros Hall Hin. rewrite Forall_forall in Hall.
  specialize (Hall char). rewrite list_elem_of_In in Hall. specialize (Hall Hin).
  destruct char as [|c [|? ?]]; try discriminate. now exists c.
Qed.

Lemma commonNextLetters_single : Forall (fun s => String.length s = 1%nat) commonNextLetters.
Proof. unfold commonNextLetters. repeat constructor. Qed.

Lemma commonLetters_single : Forall (fun s => String.length s = 1%nat) commonLetters.
Proof. unfold commonLetters. repeat constructor. Qed.

Lemma childOf_length prefix p :
  childOf prefix p -> String.length p = S (String.length prefix).
Proof. intros [c ->]. rewrite length_append. cbn. lia. Qed.

(** Child generation only appends to the queue.  Whatever it appends is new
    (not explored, not skipped, not already queued, no duplicate among the
    additions), is the processed prefix plus one character, and is at most
    three characters long.  After a non-empty result nothing under a blocked
    prefix is added, and nothing at all once the prefix has three characters;
    after an empty result only a prefix of at most one character is extended,
    by the eight fixed letters. *)
Theorem generateOptimalNextPrefixes_adds_new_children
    (prefix : string) (results : list string) (s : Service) :
  exists added,
    generateOptimalNextPrefixes prefix results s
    = with_prefixQueue (prefixQueue s ++ added) s /\
    NoDup added /\
    (forall p, In p added ->
               childOf prefix p /\ unseen s p /\ (String.length p <= 3)%nat /\
               (results <> [] -> isBlockedByParent s p = false)) /\
    (results <> [] -> (3 <= String.length prefix)%nat -> added = []) /\
    (results <> [] -> (List.length added <= 14)%nat) /\
    (results = [] ->
     (List.length added <= 8)%nat /\
     ((2 <= String.length prefix)%nat -> added = []) /\
     forall p, In p added -> exists char, In char commonLetters /\ p = prefix ++ char).
Proof.
  assert (Hstart : s = with_prefixQueue (prefixQueue s ++ []) s)
    by (rewrite app_nil_r; symmetry; apply with_prefixQueue_self).
  unfold generateOptimalNextPrefixes.
  destruct results as [|name results]; cbn [List.length].
  - change (0 <? 0)%nat with false. cbv iota.
    destruct (Nat.leb_spec (String.length prefix) 1) as [Hshort|Hlong].
    + destruct (fold_enqueue_new
                  (fun acc char => notYetKnown acc (prefix ++ char))
                  (fun char => prefix ++ char)
                  (fun p => exists char, In char commonLetters /\ p = prefix ++ char)
                  s commonLetters) with (added := @nil string)
        as (added & E & Hnd & Hall & Hlen).
      * intros acc x Hx _ Hc. split; [exact Hc|]. now exists x.
      * apply NoDup_nil_2.
      * intros p [].
      * rewrite <- Hstart in E.
        exists added. split; [exact E|]. split; [exact Hnd|]. split.
        { intros p Hp. destruct (Hall p Hp) as ((char & Hchar & ->) & Hun).
          destruct (single_letters _ _ commonLetters_single Hchar) as [c ->].
          assert (Hchild : childOf prefix (prefix ++ String c EmptyString)) by now exists c.
          split; [exact Hchild|]. split; [exact Hun|].
          split; [rewrite (childOf_length _ _ Hchild); lia | congruence]. }
        split; [congruence|]. split; [congruence|]. intros _.
        split; [exact Hlen|]. split; [lia|]. intros p Hp. now apply Hall.
    + exists []. split; [exact Hstart|]. split; [apply NoDup_nil_2|].
      split; [intros p []|]. repeat split; try reflexivity; try (cbn; lia).
  - change (0 <? S (List.length results))%nat with true. cbv iota.
    destruct (Nat.ltb_spec (String.length prefix) 3) as [Hdepth|Hdeep].
    2:{ exists []. split; [exact Hstart|]. split; [apply NoDup_nil_2|].
        split; [intros p []|]. repeat split; try reflexivity; try discriminate; cbn; lia. }
    set (commonPrefixes := extractCommonPrefixes (name :: results) prefix).
    pose proof (extractCommonPrefixes_spec (name :: results) prefix)
      as (Hthree & _ & Hchildren & _).
    fold commonPrefixes in Hthree, Hchildren.
    set (Q := fun p => childOf prefix p /\ isBlockedByParent s p = false).
    destruct (fold_enqueue_new
                (fun acc nextPrefix =>
                   notYetKnown acc nextPrefix && negb (isBlockedByParent acc nextPrefix))
                (fun nextPrefix => nextPrefix) Q s commonPrefixes) with (added := @nil string)
      as (added1 & E1 & Hnd1 & Hall1 & Hlen1).
    { intros acc x Hx Hstats Hc. apply andb_true_iff in Hc as [Hc Hb].
      split; [exact Hc|]. split; [apply (Hchildren x Hx)|].
      apply negb_true_iff in Hb. unfold isBlockedByParent in *. now rewrite <- Hstats. }
    { apply NoDup_nil_2. }
    { intros p []. }
    assert (Hfinish : forall added,
               NoDup added -> (forall p, In p added -> Q p /\ unseen s p) ->
               (List.length added <= 14)%nat ->
               forall p, In p added ->
                         childOf prefix p /\ unseen s p /\ (String.length p <= 3)%nat /\
                         (name :: results <> [] -> isBlockedByParent s p = false)).
    { intros added _ Hall _ p Hp. destruct (Hall p Hp) as ((Hchild & Hb) & Hun).
      split; [exact Hchild|]. split; [exact Hun|].
      split; [rewrite (childOf_length _ _ Hchild); lia | now intros _]. }
    cbn [List.length Nat.add] in Hlen1. rewrite <- Hstart in E1.
    destruct ((List.length commonPrefixes <? 2)%nat || (String.length prefix <? 2)%nat).
    + cbv zeta. rewrite E1.
      destruct (fold_enqueue_new
                  (fun acc char =>
                     notYetKnown acc (prefix ++ char)
                     && negb (Js.includes commonPrefixes (prefix ++ char))
                     && negb (isBlockedByParent acc (prefix ++ char)))
                  (fun char => prefix ++ char) Q s commonNextLetters) with (added := added1)
        as (added2 & E2 & Hnd2 & Hall2 & Hlen2); [|exact Hnd1|exact Hall1|].
      { intros acc x Hx Hstats Hc. apply andb_true_iff in Hc as [Hc Hb].
        apply andb_true_iff in Hc as [Hc _].
        split; [exact Hc|]. split.
        - destruct (single_letters _ _ commonNextLetters_single Hx) as [c ->]. now exists c.
        - apply negb_true_iff in Hb. unfold isBlockedByParent in *. now rewrite <- Hstats. }
      exists added2. split; [exact E2|]. split; [exact Hnd2|].
      assert (Hlen : (List.length added2 <= 14)%nat).
      { change (List.length commonNextLetters) with 11%nat in Hlen2. lia. }
      split; [now apply Hfinish|]. split; [lia|]. split; [now intros _ | discriminate].
    + cbv zeta. rewrite E1. exists added1. split; [reflexivity|]. split; [exact Hnd1|].
      assert (Hlen : (List.length added1 <= 14)%nat) by lia.
      split; [now apply Hfinish|]. split; [lia|]. split; [now intros _ | discriminate].
Qed.

(** ** Frontier: which prefix is taken next *)

Section InsertionSort.

Context {A : Type} (compare : A -> A -> Q).

Let before (a b : A) : Prop := (compare a b <= 0)%Q.

Hypothesis compare_total : forall a b, ~ before a b -> before b a.
Hypothesis compare_trans : forall a b c, before a b -> before b c -> before a c.

Lemma insertWith_perm x (l : list A) : Permutation (insertWith compare x l) (x :: l).
Proof.
  induction l as [|y l IH]; cbn [insertWith]; [reflexivity|].
  destruct (Qle_bool (compare x y) 0); [reflexivity|].
  rewrite IH. apply perm_swap.
Qed.

Lemma sortWith_perm (l : list A) : Permutation (sortWith compare l) l.
Proof.
  induction l as [|x l IH]; cbn [sortWith fold_right]; [reflexivity|].
  fold (sortWith compare l). rewrite insertWith_perm. now rewrite IH.
Qed.

Lemma insertWith_ordered x (l : list A) :
  orderedBy before l -> orderedBy before (insertWith compare x l).
Proof.
  induction l as [|y l IH]; cbn [insertWith orderedBy]; intros Hl.
  - split; [intros y []|exact I].
  - destruct Hl as [Hy Hl]. destruct (Qle_bool (compare x y) 0) eqn:E; cbn [orderedBy].
    + apply Qle_bool_iff in E. split; [|split; assumption].
      intros z [<-|Hz]; [exact E|]. apply (compare_trans x y z E). now apply Hy.
    + assert (Hyx : before y x).
      { apply compare_total. intros H. apply Qle_bool_iff in H. congruence. }
      split; [|now apply IH].
      intros z Hz. apply (Permutation_in _ (insertWith_perm x l)) in Hz.
      destruct Hz as [<-|Hz]; [exact Hyx | now apply Hy].
Qed.

Lemma sortWith_ordered (l : list A) : orderedBy before (sortWith compare l).
Proof.
  induction l as [|x l IH]; cbn [sortWith fold_right]; [exact I|].
  now apply insertWith_ordered.
Qed.

End InsertionSort.

(** The comparator of [selectOptimalPrefix] puts [a] before [b] when [a] has
    the higher value, or the same value and is not longer. *)
Lemma comparePrefixes_before s a b :
  (comparePrefixes s a b <= 0)%Q <->
  (calculatePrefixValue s b < calculatePrefixValue s a)%Q \/
  ((calculatePrefixValue s a == calculatePrefixValue s b)%Q /\
   (String.length a <= String.length b)%nat).
Proof.
  unfold comparePrefixes. cbv zeta.
  set (va := calculatePrefixValue s a). set (vb := calculatePrefixValue s b).
  destruct (Qeq_bool va vb) eqn:E; cbn [negb].
  - apply Qeq_bool_iff in E. change 0%Q with (inject_Z 0). rewrite <- Zle_Qle.
    split.
    + intros H. right. split; [exact E | lia].
    + intros [H|[_ H]]; [|lia]. rewrite E in H. now apply Qlt_irrefl in H.
  - apply Qeq_bool_neq in E. split.
    + intros H. left. lra.
    + intros [H|[H _]]; [lra | contradiction].
Qed.

Lemma qmax_nonneg (x : Q) : (0 <= qmax 0 x)%Q.
Proof.
  unfold qmax. destruct (Qle_bool 0 x) eqn:E; [now apply Qle_bool_iff | apply Qle_refl].
Qed.

(** [selectOptimalPrefix] on an empty queue returns nothing and changes
    nothing.  Otherwise it removes exactly one prefix from the queue, keeps
    all the others, and appends the removed one to the prefixes in flight.
    Without the ML option that is the head of the queue, whose order is
    kept; with it, no queued prefix has a higher value than the one taken,
    and none of the same value is shorter.  Values are never negative. *)
Theorem selectOptimalPrefix_takes_the_best (s : Service) :
  (prefixQueue s = [] -> selectOptimalPrefix s = (None, s)) /\
  (prefixQueue s <> [] ->
   exists prefix rest,
     selectOptimalPrefix s =
       (Some prefix,
        with_stats (fun t => set_currentPrefixes (currentPrefixes t ++ [prefix])%list t)
          (with_prefixQueue rest s)) /\
     Permutation (prefix :: rest) (prefixQueue s) /\
     (mlEnabled (options s) = false -> prefix :: rest = prefixQueue s) /\
     (mlEnabled (options s) = true ->
      forall q, In q (prefixQueue s) ->
                (0 <= calculatePrefixValue s q <= calculatePrefixValue s prefix)%Q /\
                ((calculatePrefixValue s q == calculatePrefixValue s prefix)%Q ->
                 (String.length prefix <= String.length q)%nat))).
Proof.
  unfold selectOptimalPrefix. split.
  - intros ->. reflexivity.
  - intros Hne. destruct (prefixQueue s) as [|q0 queue] eqn:Eq; [contradiction|].
    destruct (mlEnabled (options s)).
    + pose proof (sortWith_perm (comparePrefixes s) (q0 :: queue)) as Hperm.
      assert (Hord : orderedBy (fun a b => (comparePrefixes s a b <= 0)%Q)
                       (sortWith (comparePrefixes s) (q0 :: queue))).
      { apply sortWith_ordered.
        - intros a b Hab. rewrite comparePrefixes_before in *.
          destruct (Q_dec (calculatePrefixValue s a) (calculatePrefixValue s b))
            as [[Hlt|Hgt]|Heq].
          + now left.
          + exfalso. apply Hab. now left.
          + right. split; [now symmetry|].
            destruct (Nat.le_gt_cases (String.length a) (String.length b)) as [Hle|Hgt];
              [|lia]. exfalso. apply Hab. right. now split.
        - intros a b c. rewrite !comparePrefixes_before.
          intros [Hab|[Hab Lab]] [Hbc|[Hbc Lbc]].
          + left. lra.
          + left. lra.
          + left. lra.
          + right. split; [lra | lia]. }
      destruct (sortWith (comparePrefixes s) (q0 :: queue)) as [|prefix rest].
      { apply Permutation_nil in Hperm. discriminate. }
      exists prefix, rest. split; [reflexivity|]. split; [exact Hperm|].
      split; [discriminate|]. intros _ q Hq.
      apply (Permutation_in _ (Permutation_sym Hperm)) in Hq.
      split; [split; [apply qmax_nonneg|]|].
      * destruct Hq as [<-|Hq]; [apply Qle_refl|].
        destruct Hord as [Hhead _]. specialize (Hhead q Hq).
        apply comparePrefixes_before in Hhead as [H|[H _]]; lra.
      * intros Hsame. destruct Hq as [<-|Hq]; [lia|].
        destruct Hord as [Hhead _]. specialize (Hhead q Hq).
        apply comparePrefixes_before in Hhead as [H|[_ H]]; [lra | exact H].
    + exists q0, queue. split; [reflexivity|]. split; [reflexivity|].
      split; [reflexivity | discriminate].
Qed.

(** * Interleaved executions *)

(** ** Every stretch is a sequence of updates *)

Lemma noteRequest_simulationMode env s :
  simulationMode (noteRequest env s) = simulationMode s.
Proof. reflexivity. Qed.

Lemma beginPrefix_updates env id prefix retryCount e :
  rtc (update env) (world e) (world (beginPrefix env id prefix retryCount e)).
Proof.
  unfold beginPrefix.
  destruct (isRunning (svc (world e))) eqn:Hrun; cbn [negb]; [|apply rtc_refl].
  destruct (cachedResults (svc (world e)) !! prefix) as [names|] eqn:Hcache.
  { apply rtc_once. now apply update_cache_hit. }
  destruct (shouldSkipPrefix (svc (world e)) prefix) eqn:Hskip.
  { apply rtc_once. now apply update_skipped. }
  cbn [on_svc svc]. rewrite noteRequest_simulationMode.
  destruct (simulationMode (svc (world e))) eqn:Hsim.
  - apply rtc_once. now apply (update_simulated env (world e) prefix).
  - apply rtc_once. apply (update_sent env (world e) prefix). now repeat split.
Qed.

Lemma endQueue_world loop batchPromises e : world (endQueue loop batchPromises e) = world e.
Proof. now destruct batchPromises. Qed.

Lemma continueQueue_updates env loop c batchPromises e :
  rtc (update env) (world e) (world (continueQueue env loop c batchPromises e)).
Proof.
  unfold continueQueue.
  destruct ((0 <? List.length (prefixQueue (svc (world e))))%nat
            && (activeRequests (svc (world e)) <? c));
    [|rewrite endQueue_world; apply rtc_refl].
  assert (Hsel : update env (world e)
                   (mkWorld (snd (selectOptimalPrefix (svc (world e)))) (wire (world e))))
    by apply (update_selected env (world e)).
  destruct (selectOptimalPrefix (svc (world e))) as [[prefix|] s1]; cbn [snd] in Hsel.
  - destruct (String.eqb prefix "").
    + rewrite endQueue_world. now apply rtc_once.
    + cbn [suspend world].
      eapply rtc_l; [exact Hsel|].
      eapply rtc_l; [apply (update_launched env (mkWorld s1 (wire (world e))))|].
      apply (beginPrefix_updates env (nextId e) prefix 0
               (mkEngine
                  (mkWorld (with_activeRequests (activeRequests s1 + 1) s1) (wire (world e)))
                  (pending e) (S (nextId e)) (settled e))).
  - rewrite endQueue_world. now apply rtc_once.
Qed.

Lemma processQueue_updates env e :
  rtc (update env) (world e) (world (processQueue env e)).
Proof.
  unfold processQueue.
  destruct (negb (isRunning (svc (world e))) || isPaused (svc (world e)));
    [apply rtc_refl|].
  eapply rtc_l; [apply (update_trimmed env (world e))|].
  apply (continueQueue_updates env (nextId e)
           (fst (calculateOptimalConcurrency (svc (world e)))) []
           (mkEngine
              (mkWorld (snd (calculateOptimalConcurrency (svc (world e)))) (wire (world e)))
              (pending e) (S (nextId e)) (settled e))).
Qed.

Lemma resumeTask_updates env id e e' :
  resumeTask env id e = Some e' -> rtc (update env) (world e) (world e').
Proof.
  unfold resumeTask. destruct (pending e !! id) as [task|]; [|discriminate].
  destruct task as [prefix retryCount [|response]|prefix retryCount|prefix response| |c batch|batch].
  - intros [= <-]. apply rtc_once, update_thrown.
  - destruct (ok response); cbn [negb].
    + intros [= <-]. apply rtc_refl.
    + destruct (status response =? 429); intros [= <-].
      * apply rtc_once, update_rate_limited.
      * apply rtc_once, update_failed.
  - cbn [world svc].
    destruct (retryCount <? maxRetries (options (svc (world e)))); intros [= <-].
    + eapply rtc_l; [apply (update_requeued env (world e) prefix)|].
      match goal with
      | |- rtc _ _ (world (beginPrefix _ _ _ _ ?x)) =>
          apply (beginPrefix_updates env id prefix (retryCount + 1) x)
      end.
    + apply rtc_once, update_failed.
  - destruct (json response); intros [= <-].
    + apply rtc_once, update_thrown.
    + apply rtc_once, update_answered.
  - intros [= <-]. apply rtc_once, update_finished.
  - intros [= <-].
    match goal with
    | |- rtc _ _ (world (continueQueue _ _ _ _ ?x)) =>
        apply (continueQueue_updates env id c batch x)
    end.
  - cbn [settled world].
    destruct (existsb _ batch); [|discriminate].
    destruct (isRunning (svc (world e)) && negb (isPaused (svc (world e)))); intros [= <-].
    + match goal with
      | |- rtc _ _ (world (processQueue _ ?x)) => apply (processQueue_updates env x)
      end.
    + apply rtc_refl.
Qed.

Lemma invoke_updates env c e :
  rtc (update env) (on_svc (callEffect c) (world e)) (world (invoke env c e)).
Proof.
  unfold invoke.
  destruct c; try apply rtc_refl.
  - destruct (isRunning (svc (world e))); [apply rtc_refl|].
    apply (processQueue_updates env (on_service (callEffect CallStart) e)).
  - destruct (negb (isRunning (svc (world e)))); [apply rtc_refl|].
    apply (processQueue_updates env (on_service (callEffect CallResume) e)).
Qed.

(** What every execution preserves, if every update and every permitted
    call does. *)
Lemma play_invariant (I : World -> Prop) (permitted : Call -> Prop) env :
  (forall w w', I w -> update env w w' -> I w') ->
  (forall c w, permitted c -> I w -> I (on_svc (callEffect c) w)) ->
  forall events e e',
    Forall (fun ev => forall c, ev = Invoke c -> permitted c) events ->
    I (world e) -> play env events e = Some e' -> I (world e').
Proof.
  intros Hupdate Hcall.
  assert (Hrtc : forall w w', rtc (update env) w w' -> I w -> I w').
  { induction 1; eauto. }
  induction events as [|ev events IH]; intros e e' Hperm HI; cbn [play].
  - now intros [= <-].
  - apply Forall_cons in Hperm as [Hev Hperm].
    destruct (fire env ev e) as [e1|] eqn:Hfire; [|discriminate].
    apply IH; [exact Hperm|].
    destruct ev as [id|c]; cbn [fire] in Hfire.
    + eapply Hrtc; [now apply (resumeTask_updates env id e)|exact HI].
    + injection Hfire as <-.
      eapply Hrtc; [apply invoke_updates|]. apply Hcall; [now apply Hev | exact HI].
Qed.

Lemma withoutReset_permitted events :
  withoutReset events ->
  Forall (fun ev => forall c, ev = Invoke c -> c <> CallReset) events.
Proof.
  unfold withoutReset. rewrite !Forall_forall.
  intros H ev Hin c -> ->. now apply (H _ Hin).
Qed.

Lemma anything_permitted events :
  Forall (fun ev : Event => forall c, ev = Invoke c -> True) events.
Proof. apply Forall_forall. intros; exact I. Qed.

(** ** What an update leaves alone *)

Ltac engine_fields :=
  cbn [stats options isRunning isPaused prefixQueue activeRequests prefixPatterns
       nameFrequencyMap cachedResults commonNames namePatterns requestTimestamps
       simulationMode totalRequests successfulRequests failedRequests uniqueNames
       rateLimited exploredPrefixes skippedPrefixes currentPrefixes blockedPrefixes
       efficiency with_stats with_prefixQueue with_prefixPatterns
       with_nameFrequencyMap with_cachedResults with_requestTimestamps with_flags
       with_options with_simulationMode with_activeRequests incTotalRequests
       incSuccessfulRequests incFailedRequests incRateLimited set_uniqueNames
       set_exploredPrefixes set_skippedPrefixes set_currentPrefixes
       set_blockedPrefixes set_efficiency svc wire on_svc
       world pending nextId settled with_world on_service suspend] in *.

Lemma selectOptimalPrefix_form s :
  exists q l,
    snd (selectOptimalPrefix s) = with_stats (set_currentPrefixes l) (with_prefixQueue q s).
Proof.
  assert (Hself : s = with_stats (set_currentPrefixes (currentPrefixes (stats s)))
                        (with_prefixQueue (prefixQueue s) s))
    by now destruct s as [[] ? ? ? ? ? ? ? ? ? ? ? ?].
  unfold selectOptimalPrefix.
  destruct (prefixQueue s) as [|q0 queue] eqn:Eq.
  - exists [], (currentPrefixes (stats s)). cbn [snd]. exact Hself.
  - match goal with
    | |- context [match ?sorted with [] => _ | _ :: _ => _ end] => destruct sorted as [|p rest]
    end; cbn [snd].
    + exists [], (currentPrefixes (stats s)). now destruct s as [[] ? ? ? ? ? ? ? ? ? ? ? ?].
    + now eexists _, _.
Qed.

Lemma finallyCallback_form s :
  exists running,
    finallyCallback s =
    with_flags running (isPaused s) (with_activeRequests (activeRequests s - 1) s).
Proof.
  unfold finallyCallback. engine_fields.
  destruct ((activeRequests s - 1 =? 0) && (List.length (prefixQueue s) =? 0)%nat).
  - destruct (isRunning s) eqn:E.
    + now exists false.
    + exists false. now rewrite <- E.
  - exists (isRunning s). reflexivity.
Qed.

Lemma catchBlock_store p s :
  catchBlock p s =
  storeAndHandle p (generateFakeNamesForPrefix s p) (with_stats incFailedRequests s).
Proof. reflexivity. Qed.

(** Put the state an update leaves in the form of a record whose fields can
    be read off. *)
Ltac reveal :=
  unfold sent in *;
  cbn [on_svc svc wire] in *;
  rewrite ?catchBlock_store in *;
  repeat match goal with
    | |- context [handleResults ?p ?names true ?s] =>
        let q := fresh "q" in
        let m := fresh "m" in
        destruct (handleResults_form p names true s) as (q & m & ->)
    | |- context [storeAndHandle ?p ?names ?s] =>
        let q := fresh "q" in
        let m := fresh "m" in
        destruct (storeAndHandle_form p names s) as (q & m & ->)
    | |- context [snd (calculateOptimalConcurrency ?s)] =>
        let ts := fresh "ts" in
        let H := fresh "Hts" in
        destruct (trim_form s) as (ts & -> & H)
    | |- context [snd (selectOptimalPrefix ?s)] =>
        let q := fresh "q" in
        let l := fresh "l" in
        destruct (selectOptimalPrefix_form s) as (q & l & ->)
    | |- context [finallyCallback ?s] =>
        let r := fresh "running" in
        destruct (finallyCallback_form s) as (r & ->)
    end;
  cbv zeta; unfold noteRequest, markSkipped; engine_fields.

Lemma update_frame env w w' :
  update env w w' ->
  (forall q, is_Some (cachedResults (svc w) !! q) -> is_Some (cachedResults (svc w') !! q)) /\
  (forall b, In b (blockedPrefixes (stats (svc w))) ->
             In b (blockedPrefixes (stats (svc w')))) /\
  (wire w' = wire w \/
   exists p, wire w' = (wire w ++ [p])%list /\ reachesNetwork p w) /\
  options (svc w') = options (svc w) /\
  simulationMode (svc w') = simulationMode (svc w) /\
  commonNames (svc w') = commonNames (svc w) /\
  namePatterns (svc w') = namePatterns (svc w).
Proof.
  assert (Hkeep : forall (m : gmap string (list string)) p names q,
             is_Some (m !! q) -> is_Some (<[p := names]> m !! q)).
  { intros m p names q Hq. destruct (decide (p = q)) as [->|Hne].
    - rewrite lookup_insert_eq. now eexists.
    - now rewrite lookup_insert_ne. }
  destruct 1; reveal;
    try (split; [auto|];
         split; [intros b Hb; split_ifs; fields; try apply in_or_app; auto|];
         split; [now left|]; split_ifs; now repeat split).
  split; [auto|]. split; [auto|]. split; [|now repeat split].
  right. now exists p.
Qed.

Lemma call_frame c s :
  c <> CallReset ->
  cachedResults (callEffect c s) = cachedResults s /\
  blockedPrefixes (stats (callEffect c s)) = blockedPrefixes (stats s).
Proof.
  intros Hc. destruct c; try contradiction; cbn [callEffect];
    unfold start, pause, resume, stop, updateOptions, enableSimulationMode;
    split_ifs; now split.
Qed.

Lemma requestsFor_sent env p q w :
  requestsFor q (sent env p w) = (requestsFor q w + if String.eqb q p then 1 else 0)%nat.
Proof.
  unfold requestsFor at 1, sent. cbn [wire]. rewrite requestsFor_app.
  cbn [List.filter]. now destruct (String.eqb q p).
Qed.

(** ** Cache and requests *)

Lemma cached_prefix_is_not_requested env p n :
  forall events e e',
    withoutReset events ->
    is_Some (cachedResults (svc (world e)) !! p) /\ requestsFor p (world e) = n ->
    play env events e = Some e' ->
    is_Some (cachedResults (svc (world e')) !! p) /\ requestsFor p (world e') = n.
Proof.
  intros events e e' Hquiet.
  apply (play_invariant
           (fun w => is_Some (cachedResults (svc w) !! p) /\ requestsFor p w = n)
           (fun c => c <> CallReset)).
  - intros w w' [Hhit Hn] Hup.
    destruct (update_frame env w w' Hup) as (Hcache & _ & Hwire & _).
    split; [now apply Hcache|].
    destruct Hwire as [E|(p' & E & _ & Hmiss & _)]; unfold requestsFor in *; rewrite E.
    + exact Hn.
    + rewrite List.filter_app, length_app. cbn [List.filter].
      destruct (String.eqb_spec p p') as [<-|Hne]; [|cbn [List.length]; lia].
      rewrite Hmiss in Hhit. now destruct Hhit.
  - intros c w Hc [Hhit Hn]. cbn [on_svc svc].
    destruct (call_frame c (svc w) Hc) as [-> _]. now split.
  - now apply withoutReset_permitted.
Qed.

Lemma shouldSkipPrefix_queue q s p :
  shouldSkipPrefix (with_prefixQueue q s) p = shouldSkipPrefix s p.
Proof. reflexivity. Qed.

(** C1, as the code has it.  Once a result set for [p] is in the cache, no
    execution that does not call [reset()] puts another request for [p] on
    the wire, whatever is in flight and in whatever order it is resumed.
    Before that nothing limits the requests for [p] to one: when the
    backoff after a 429 answer is over and a retry is left, the retry path
    puts [p] back at the head of the queue and sends the request for [p]
    again. *)
Theorem requests_per_prefix (env : Env) (e : Engine) (p : string) :
  (forall events e',
      is_Some (cachedResults (svc (world e)) !! p) ->
      withoutReset events ->
      play env events e = Some e' ->
      is_Some (cachedResults (svc (world e')) !! p) /\
      requestsFor p (world e') = requestsFor p (world e)) /\
  (forall id retryCount,
      pending e !! id = Some (Backoff p retryCount) ->
      retryCount < maxRetries (options (svc (world e))) ->
      reachesNetwork p (world e) ->
      exists e',
        fire env (Resume id) e = Some e' /\
        wire (world e') = (wire (world e) ++ [p])%list /\
        requestsFor p (world e') = S (requestsFor p (world e)) /\
        hd_error (prefixQueue (svc (world e'))) = Some p /\
        pending e' !! id =
          Some (Fetching p (retryCount + 1) (fetch env (wire (world e)) p))).
Proof.
  split.
  - intros events e' Hhit Hquiet Hplay.
    now apply (cached_prefix_is_not_requested env p (requestsFor p (world e))
                 events e e' Hquiet).
  - intros id retryCount Htask Hretry (Hrun & Hmiss & Hskip & Hsim).
    cbn [fire]. unfold resumeTask. rewrite Htask. cbn [world svc].
    destruct (Z.ltb_spec retryCount (maxRetries (options (svc (world e))))); [|lia].
    eexists. split; [reflexivity|].
    unfold beginPrefix. engine_fields.
    rewrite Hrun, Hmiss. cbn [negb].
    rewrite shouldSkipPrefix_queue, Hskip.
    unfold noteRequest. engine_fields. rewrite Hsim. engine_fields.
    split; [reflexivity|]. split.
    + unfold requestsFor. cbn [wire]. rewrite List.filter_app, length_app.
      cbn [List.filter]. rewrite String.eqb_refl. cbn [List.length]. lia.
    + split; [reflexivity|]. now rewrite lookup_insert_eq.
Qed.

(** C1 on the default service whose first request is answered 429: the
    cached "j" is never requested again, and the retry of "j" is a second
    request. *)
Lemma requests_per_prefix_witness :
  exists e0 e1 e2,
    play rateLimitedOnce [Invoke CallStart; Resume 1; Resume 0] (boot defaultOptions)
      = Some e0 /\
    pending e0 !! 1%nat = Some (Backoff "j" 0) /\
    fire rateLimitedOnce (Resume 1) e0 = Some e1 /\
    requestsFor "j" (world e1) = S (requestsFor "j" (world e0)) /\
    play rateLimitedOnce [Resume 1; Resume 1; Resume 1; Resume 0] e1 = Some e2 /\
    is_Some (cachedResults (svc (world e2)) !! "j") /\
    forall events e',
      withoutReset events ->
      play rateLimitedOnce events e2 = Some e' ->
      requestsFor "j" (world e') = requestsFor "j" (world e2).
Proof.
  pose (e0 := default (boot defaultOptions)
                (play rateLimitedOnce [Invoke CallStart; Resume 1; Resume 0]
                   (boot defaultOptions))).
  assert (E0 : play rateLimitedOnce [Invoke CallStart; Resume 1; Resume 0]
                 (boot defaultOptions) = Some e0) by (vm_compute; reflexivity).
  assert (Htask : pending e0 !! 1%nat = Some (Backoff "j" 0)) by (vm_compute; reflexivity).
  assert (Hretry : 0 < maxRetries (options (svc (world e0)))) by (vm_compute; reflexivity).
  assert (Hnet : reachesNetwork "j" (world e0)) by (vm_compute; repeat split; reflexivity).
  destruct (proj2 (requests_per_prefix rateLimitedOnce e0 "j") 1%nat 0 Htask Hretry Hnet)
    as (e1 & E1 & _ & Hreq & _ & Hfetching).
  assert (Ee1 : e1 = default e0 (fire rateLimitedOnce (Resume 1) e0))
    by now rewrite E1.
  pose (e2 := default e1 (play rateLimitedOnce [Resume 1; Resume 1; Resume 1; Resume 0] e1)).
  assert (E2 : play rateLimitedOnce [Resume 1; Resume 1; Resume 1; Resume 0] e1 = Some e2)
    by (subst e1; vm_compute; reflexivity).
  assert (Hhit : is_Some (cachedResults (svc (world e2)) !! "j"))
    by (subst e2 e1; vm_compute; now eexists).
  exists e0, e1, e2.
  split; [exact E0|]. split; [exact Htask|]. split; [exact E1|]. split; [exact Hreq|].
  split; [exact E2|]. split; [exact Hhit|].
  intros events e' Hquiet Hplay.
  now apply (proj1 (requests_per_prefix rateLimitedOnce e2 "j") events e' Hhit Hquiet Hplay).
Defined.

(** C1 as stated fails.  The default service is started against an endpoint
    that answers the first request with 429: "j" is dispatched and
    requested; the answer arrives; the 250 ms timer of [processQueue]
    fires; the 500 ms backoff ends and the retry requests "j" a second time;
    its answer is stored.  Two requests for "j" have been issued, and "j"
    is back in the queue although its result is cached. *)
Lemma rate_limited_prefix_is_requested_twice :
  exists e,
    play rateLimitedOnce
      [Invoke CallStart; Resume 1; Resume 0; Resume 1; Resume 1; Resume 1]
      (boot defaultOptions) = Some e /\
    wire (world e) = ["j"; "j"] /\
    requestsFor "j" (world e) = 2%nat /\
    cachedResults (svc (world e)) !! "j" = Some ["jlice"; "jnna"] /\
    In "j" (prefixQueue (svc (world e))).
Proof.
  exists (default (boot defaultOptions)
            (play rateLimitedOnce
               [Invoke CallStart; Resume 1; Resume 0; Resume 1; Resume 1; Resume 1]
               (boot defaultOptions))).
  split; [vm_compute; reflexivity|].
  split; [vm_compute; reflexivity|].
  split; [vm_compute; reflexivity|].
  split; [vm_compute; reflexivity|].
  vm_compute. tauto.
Qed.

(** ** Blocked prefixes and requests *)

Lemma blocked_prefix_stays_blocked env b q n :
  properPrefix b q ->
  (1 <= String.length b)%nat ->
  forall events e e',
    withoutReset events ->
    In b (blockedPrefixes (stats (svc (world e)))) /\ requestsFor q (world e) = n ->
    play env events e = Some e' ->
    In b (blockedPrefixes (stats (svc (world e')))) /\ requestsFor q (world e') = n.
Proof.
  intros Hproper Hlen events e e' Hquiet.
  apply (play_invariant
           (fun w => In b (blockedPrefixes (stats (svc w))) /\ requestsFor q w = n)
           (fun c => c <> CallReset)).
  - intros w w' [Hin Hn] Hup.
    destruct (update_frame env w w' Hup) as (_ & Hblocked & Hwire & _).
    split; [now apply Hblocked|].
    destruct Hwire as [E|(p' & E & _ & _ & Hskip & _)]; unfold requestsFor in *; rewrite E.
    + exact Hn.
    + rewrite List.filter_app, length_app. cbn [List.filter].
      destruct (String.eqb_spec q p') as [<-|Hne]; [|cbn [List.length]; lia].
      rewrite (shouldSkipPrefix_blocked (svc w) b q Hin Hproper Hlen) in Hskip.
      discriminate.
  - intros c w Hc [Hin Hn]. cbn [on_svc svc].
    destruct (call_frame c (svc w) Hc) as [_ ->]. now split.
  - now apply withoutReset_permitted.
Qed.

(** C5, as the code has it.  When the answer to the query for a prefix of
    at least 2 characters is parsed and holds no results, the prefix is put
    on the blocked list.  From then on, in every execution that does not
    call [reset()], it stays there and no request is put on the wire for a
    prefix that properly extends it.  When [processPrefix] is entered for
    such an extension it returns at once without a request: if the
    extension has no cached result set it is marked skipped (and not
    explored); if it has one it is handled from the cache instead, that is,
    marked explored, its names added, no successful request counted, and
    not marked skipped. *)
Theorem blocked_subtree_is_never_queried
    (env : Env) (e : Engine) (id : nat) (prefix : string)
    (response : Response) (results : option (list string)) :
  (2 <= String.length prefix)%nat ->
  pending e !! id = Some (Parsing prefix response) ->
  json response = JsonData results ->
  default [] results = [] ->
  exists e1,
    fire env (Resume id) e = Some e1 /\
    In prefix (blockedPrefixes (stats (svc (world e1)))) /\
    forall (q : string) (events : list Event) (e2 : Engine),
      properPrefix prefix q ->
      withoutReset events ->
      play env events e1 = Some e2 ->
      In prefix (blockedPrefixes (stats (svc (world e2)))) /\
      requestsFor q (world e2) = requestsFor q (world e1) /\
      forall id' retryCount',
        isRunning (svc (world e2)) = true ->
        let e3 := beginPrefix env id' q retryCount' e2 in
        let t2 := stats (svc (world e2)) in
        let t3 := stats (svc (world e3)) in
        pending e3 !! id' = Some Finishing /\
        wire (world e3) = wire (world e2) /\
        totalRequests t3 = totalRequests t2 /\
        (cachedResults (svc (world e2)) !! q = None ->
         skippedPrefixes t3 = (skippedPrefixes t2 ++ [q])%list /\
         exploredPrefixes t3 = exploredPrefixes t2) /\
        (forall names,
            cachedResults (svc (world e2)) !! q = Some names ->
            skippedPrefixes t3 = skippedPrefixes t2 /\
            exploredPrefixes t3 = (exploredPrefixes t2 ++ [q])%list /\
            successfulRequests t3 = successfulRequests t2 /\
            forall name, In name names -> In name (uniqueNames t3)).
Proof.
  intros Hlen Htask Hjson Hempty.
  cbn [fire]. unfold resumeTask. rewrite Htask, Hjson, Hempty.
  eexists. split; [reflexivity|].
  assert (Hin1 : In prefix
                   (blockedPrefixes (stats (storeAndHandle prefix [] (svc (world e)))))).
  { destruct (storeAndHandle_form prefix [] (svc (world e))) as (q0 & m0 & ->).
    cbv zeta.
    assert (Hnew : newlyBlocked prefix (Z.of_nat (List.length (@nil string))) = [prefix]).
    { unfold newlyBlocked. cbn [List.length Z.of_nat Z.eqb andb].
      destruct (Nat.leb_spec 2 (String.length prefix)); [reflexivity | lia]. }
    rewrite Hnew. split_ifs; fields; apply in_or_app; right; now left. }
  split; [exact Hin1|].
  intros q events e2 Hproper Hquiet Hplay.
  match type of Hplay with
  | play _ _ ?x = _ =>
      destruct (blocked_prefix_stays_blocked env prefix q (requestsFor q (world x))
                  Hproper ltac:(lia) events x e2 Hquiet (conj Hin1 eq_refl) Hplay)
        as [Hin2 Hreq]
  end.
  split; [exact Hin2|]. split; [exact Hreq|].
  intros id' retryCount' Hrun. cbv zeta.
  pose proof (shouldSkipPrefix_blocked (svc (world e2)) prefix q Hin2 Hproper ltac:(lia))
    as Hskip.
  unfold beginPrefix. rewrite Hrun. cbn [negb].
  destruct (cachedResults (svc (world e2)) !! q) as [names|] eqn:Hcache.
  - engine_fields. split; [now rewrite lookup_insert_eq|].
    destruct (handleResults_form q names true (svc (world e2))) as (q1 & m1 & ->).
    cbv zeta.
    assert (G : forall name, In name names ->
                             In name (addNames names (uniqueNames (stats (svc (world e2))))))
      by (intros name; apply addNames_adds).
    split; [reflexivity|].
    split; [split_ifs; reflexivity|].
    split; [discriminate|].
    intros names' [= <-]. split_ifs; fields; repeat split; auto.
  - rewrite Hskip. unfold markSkipped. engine_fields.
    split; [now rewrite lookup_insert_eq|].
    split; [reflexivity|]. split; [reflexivity|].
    split; [intros _; now split | discriminate].
Qed.

(** C5 on a service seeded with "ma" alone, against an endpoint that knows
    nothing under "ma". *)
Lemma blocked_subtree_is_never_queried_witness :
  exists e e1,
    play onlyMary [Invoke CallStart; Resume 1]
      (boot (mkOptions 250 4 3 ["ma"] true)) = Some e /\
    fire onlyMary (Resume 1) e = Some e1 /\
    blockedPrefixes (stats (svc (world e1))) = ["ma"] /\
    forall (q : string) (events : list Event) (e2 : Engine),
      properPrefix "ma" q ->
      withoutReset events ->
      play onlyMary events e1 = Some e2 ->
      requestsFor q (world e2) = requestsFor q (world e1).
Proof.
  pose (e := default (boot defaultOptions)
               (play onlyMary [Invoke CallStart; Resume 1]
                  (boot (mkOptions 250 4 3 ["ma"] true)))).
  assert (E : play onlyMary [Invoke CallStart; Resume 1]
                (boot (mkOptions 250 4 3 ["ma"] true)) = Some e)
    by (vm_compute; reflexivity).
  assert (Htask : pending e !! 1%nat
                  = Some (Parsing "ma" (mkResponse true 200 (JsonData (Some [])))))
    by (vm_compute; reflexivity).
  destruct (blocked_subtree_is_never_queried onlyMary e 1 "ma"
              (mkResponse true 200 (JsonData (Some []))) (Some [])
              ltac:(cbn; lia) Htask eq_refl eq_refl) as (e1 & E1 & _ & Hafter).
  exists e, e1. split; [exact E|]. split; [exact E1|]. split.
  - assert (Ee1 : e1 = default e (fire onlyMary (Resume 1) e)) by now rewrite E1.
    rewrite Ee1. vm_compute. reflexivity.
  - intros q events e2 Hproper Hquiet Hplay.
    now destruct (Hafter q events e2 Hproper Hquiet Hplay) as (_ & Hreq & _).
Defined.

(** C5 as stated fails for a descendant that has a cached result set.  A
    service seeded with "jos" alone is started: "jos" is requested and
    answered with one name, which also gives its parent "jo" a stored score;
    the run completes.  The seeds are changed to "jo" and "jos" and the
    service is started again: "jo" is taken first, is answered with no
    results and is blocked, while "jos" waits in the queue.  When the timer
    of [processQueue] fires and "jos" is processed, it is not marked
    skipped: it is handled from the cache and marked explored a second
    time.  No request is sent for it. *)
Lemma cached_descendant_is_not_skipped :
  exists e1 e2,
    play onlyJoseph
      [Invoke CallStart; Resume 1; Resume 1; Resume 1; Resume 0; Resume 0;
       Invoke (CallUpdateOptions (mkOptions 250 4 3 ["jo"; "jos"] true));
       Invoke CallStart; Resume 3; Resume 3; Resume 3]
      (boot (mkOptions 250 4 3 ["jos"] true)) = Some e1 /\
    blockedPrefixes (stats (svc (world e1))) = ["jo"] /\
    properPrefix "jo" "jos" /\
    prefixQueue (svc (world e1)) = ["jos"] /\
    cachedResults (svc (world e1)) !! "jos" = Some ["joseph"] /\
    wire (world e1) = ["jos"; "jo"] /\
    fire onlyJoseph (Resume 2) e1 = Some e2 /\
    prefixQueue (svc (world e2)) = [] /\
    skippedPrefixes (stats (svc (world e2))) = [] /\
    exploredPrefixes (stats (svc (world e2))) = ["jos"; "jo"; "jos"] /\
    wire (world e2) = ["jos"; "jo"].
Proof.
  pose (e1 := default (boot defaultOptions)
                (play onlyJoseph
                   [Invoke CallStart; Resume 1; Resume 1; Resume 1; Resume 0; Resume 0;
                    Invoke (CallUpdateOptions (mkOptions 250 4 3 ["jo"; "jos"] true));
                    Invoke CallStart; Resume 3; Resume 3; Resume 3]
                   (boot (mkOptions 250 4 3 ["jos"] true)))).
  exists e1, (default e1 (fire onlyJoseph (Resume 2) e1)).
  split; [vm_compute; reflexivity|].
  split; [vm_compute; reflexivity|].
  split; [exists "s"; split; [discriminate | reflexivity]|].
  splits; vm_compute; reflexivity.
Qed.

(** ** Bookkeeping under interleaving *)

Lemma bookkeeping_store explored blocked cache p names :
  bookkeeping explored blocked cache ->
  bookkeeping (explored ++ [p]) (blocked ++ newlyBlocked p (Z.of_nat (List.length names)))
    (<[p := names]> cache).
Proof.
  intros (H1 & H2 & H3). split; [|split]; intros x.
  - rewrite in_app_iff, H1. cbn [In]. destruct (decide (p = x)) as [<-|Hne].
    + rewrite lookup_insert_eq. split; [now eexists | intros _; right; now left].
    + rewrite lookup_insert_ne by assumption. split.
      * intros [H|[E|[]]]; [exact H | contradiction].
      * intros H. now left.
  - rewrite in_app_iff, newlyBlocked_In. intros [Hin|(-> & _ & Hlen)].
    + destruct (H2 x Hin) as [Hlen Hsome]. split; [exact Hlen|].
      destruct (decide (p = x)) as [<-|Hne];
        [rewrite lookup_insert_eq; now eexists | now rewrite lookup_insert_ne].
    + split; [exact Hlen|]. rewrite lookup_insert_eq. now eexists.
  - rewrite in_app_iff, newlyBlocked_In, length_zero_nil.
    destruct (decide (p = x)) as [<-|Hne].
    + rewrite lookup_insert_eq. intros [= ->] Hlen. right. now repeat split.
    + rewrite lookup_insert_ne by assumption. intros Hx Hlen. left. now apply H3.
Qed.

Lemma bookkeeping_hit explored blocked cache p names :
  cache !! p = Some names ->
  bookkeeping explored blocked cache ->
  bookkeeping (explored ++ [p]) (blocked ++ newlyBlocked p (Z.of_nat (List.length names)))
    cache.
Proof.
  intros Hhit H. rewrite <- (insert_id cache p names Hhit) at 1.
  now apply bookkeeping_store.
Qed.

Lemma bookkeeping_nothing :
  bookkeeping [] [] (∅ : gmap string (list string)).
Proof.
  split; [|split]; intros p; cbn [In].
  - split; [tauto|]. intros [x Hx]. rewrite lookup_empty in Hx. discriminate.
  - tauto.
  - rewrite lookup_empty. discriminate.
Qed.

Lemma cacheMirrored_update env w w' :
  cacheMirrored (svc w) -> update env w w' -> cacheMirrored (svc w').
Proof.
  unfold cacheMirrored. intros H Hup.
  destruct Hup; reveal; split_ifs; engine_fields;
    first [ exact H
          | now apply bookkeeping_store
          | now apply bookkeeping_hit ].
Qed.

Lemma initializeCommonNames_cache s :
  cachedResults (initializeCommonNames s) = cachedResults s.
Proof.
  destruct (initializeCommonNames_form s) as (names & patterns & ->). reflexivity.
Qed.

Lemma cacheMirrored_call c s : cacheMirrored s -> cacheMirrored (callEffect c s).
Proof.
  unfold cacheMirrored. intros H.
  destruct c; cbn [callEffect];
    unfold start, pause, resume, stop, reset, updateOptions, enableSimulationMode;
    split_ifs; engine_fields; first [exact H | exact bookkeeping_nothing].
Qed.

(** In every execution of a newly constructed service, whatever is in
    flight and whatever is called: a prefix is in [exploredPrefixes]
    exactly if it has a cached result set; every blocked prefix has at
    least 2 characters and a cached result set; and every prefix of at
    least 2 characters whose cached result set is empty is blocked. *)
Theorem explored_and_blocked_mirror_the_cache
    (env : Env) (o : DiscoveryOptions) (events : list Event) (e : Engine) :
  play env events (boot o) = Some e ->
  let s := svc (world e) in
  (forall p, In p (exploredPrefixes (stats s)) <-> is_Some (cachedResults s !! p)) /\
  (forall p, In p (blockedPrefixes (stats s)) ->
             (2 <= String.length p)%nat /\ is_Some (cachedResults s !! p)) /\
  (forall p, cachedResults s !! p = Some [] -> (2 <= String.length p)%nat ->
             In p (blockedPrefixes (stats s))).
Proof.
  intros Hplay. cbv zeta.
  apply (play_invariant (fun w => cacheMirrored (svc w)) (fun _ => True) env)
    with (events := events) (e := boot o).
  - intros w w'. apply cacheMirrored_update.
  - intros c w _. apply cacheMirrored_call.
  - apply anything_permitted.
  - unfold cacheMirrored. cbn [boot world newWorld svc]. unfold constructor.
    rewrite initializeCommonNames_stats, initializeCommonNames_cache. fields.
    exact bookkeeping_nothing.
  - exact Hplay.
Qed.

(** On the default service, after "j" has been answered with no results
    while a reset came in between. *)
Lemma explored_and_blocked_mirror_the_cache_witness :
  exists e,
    play onlyMary [Invoke CallStart; Resume 1; Invoke CallReset; Resume 1]
      (boot defaultOptions) = Some e /\
    exploredPrefixes (stats (svc (world e))) = ["j"] /\
    (forall p, In p (exploredPrefixes (stats (svc (world e)))) <->
               is_Some (cachedResults (svc (world e)) !! p)).
Proof.
  pose (e := default (boot defaultOptions)
               (play onlyMary [Invoke CallStart; Resume 1; Invoke CallReset; Resume 1]
                  (boot defaultOptions))).
  assert (E : play onlyMary [Invoke CallStart; Resume 1; Invoke CallReset; Resume 1]
                (boot defaultOptions) = Some e) by (vm_compute; reflexivity).
  exists e. split; [exact E|]. split; [vm_compute; reflexivity|].
  exact (proj1 (explored_and_blocked_mirror_the_cache onlyMary defaultOptions _ e E)).
Defined.

(** ** Counters under interleaving *)

Lemma size_insert_le (m : gmap string (list string)) p names :
  Z.of_nat (size (<[p := names]> m)) <= Z.of_nat (size m) + 1.
Proof.
  destruct (m !! p) as [old|] eqn:E.
  - rewrite <- (insert_delete_id m p old E) at 2.
    rewrite <- (insert_delete_eq m p names). 
    rewrite !map_size_insert_None by apply lookup_delete_eq. lia.
  - rewrite map_size_insert_None by assumption. lia.
Qed.

Lemma countersInStep_update env w w' :
  countersInStep (svc w) -> update env w w' -> countersInStep (svc w').
Proof.
  unfold countersInStep. cbv zeta. intros H Hup.
  destruct Hup; reveal; split_ifs; engine_fields;
    try rewrite length_app; cbn [List.length];
    try match goal with
        | |- context [size (<[?p := ?names]> ?m)] => pose proof (size_insert_le m p names)
        end;
    lia.
Qed.

Lemma countersInStep_call c s : countersInStep s -> countersInStep (callEffect c s).
Proof.
  unfold countersInStep. cbv zeta. intros H.
  destruct c; cbn [callEffect];
    unfold start, pause, resume, stop, reset, updateOptions, enableSimulationMode, emptyStats;
    split_ifs; engine_fields; rewrite ?map_size_empty; cbn [List.length]; lia.
Qed.

(** In every execution of a newly constructed service, whatever is in
    flight and whatever is called: [rateLimited], [failedRequests] and
    [totalRequests] are never negative; the cache holds at most
    [successfulRequests] prefixes; [failedRequests] is at most twice
    [successfulRequests]; and [requestTimestamps] holds at most
    [totalRequests] entries. *)
Theorem counters_stay_consistent
    (env : Env) (o : DiscoveryOptions) (events : list Event) (e : Engine) :
  play env events (boot o) = Some e ->
  let s := svc (world e) in
  let t := stats s in
  0 <= rateLimited t /\
  0 <= failedRequests t /\
  0 <= totalRequests t /\
  Z.of_nat (size (cachedResults s)) <= successfulRequests t /\
  failedRequests t <= 2 * successfulRequests t /\
  Z.of_nat (List.length (requestTimestamps s)) <= totalRequests t.
Proof.
  intros Hplay.
  apply (play_invariant (fun w => countersInStep (svc w)) (fun _ => True) env)
    with (events := events) (e := boot o).
  - intros w w'. apply countersInStep_update.
  - intros c w _. apply countersInStep_call.
  - apply anything_permitted.
  - unfold countersInStep. cbn [boot world newWorld svc]. unfold constructor.
    destruct (initializeCommonNames_form
                (mkService emptyStats o false false [] 0 ∅ ∅ ∅ ∅ ∅ [] false))
      as (names & patterns & ->).
    unfold emptyStats. engine_fields. rewrite map_size_empty. cbn [List.length]. lia.
  - exact Hplay.
Qed.

(** On the default service against an endpoint that answers every request
    with HTTP 500: one request, counted as failed twice and successful
    once. *)
Lemma counters_stay_consistent_witness :
  exists e,
    play serverError [Invoke CallStart; Resume 1] (boot defaultOptions) = Some e /\
    failedRequests (stats (svc (world e))) = 2 /\
    successfulRequests (stats (svc (world e))) = 1 /\
    failedRequests (stats (svc (world e))) <= 2 * successfulRequests (stats (svc (world e))).
Proof.
  pose (e := default (boot defaultOptions)
               (play serverError [Invoke CallStart; Resume 1] (boot defaultOptions))).
  assert (E : play serverError [Invoke CallStart; Resume 1] (boot defaultOptions) = Some e)
    by (vm_compute; reflexivity).
  exists e. split; [exact E|]. split; [vm_compute; reflexivity|].
  split; [vm_compute; reflexivity|].
  exact (proj1 (proj2 (proj2 (proj2 (proj2
           (counters_stay_consistent serverError defaultOptions _ e E)))))).
Defined.

(** ** Reset while requests are in flight *)

Lemma name_tables_are_constant env o events e :
  play env events (boot o) = Some e ->
  commonNames (svc (world e)) = commonNames (constructor o) /\
  namePatterns (svc (world e)) = namePatterns (constructor o).
Proof.
  intros Hplay.
  apply (play_invariant
           (fun w => commonNames (svc w) = commonNames (constructor o) /\
                     namePatterns (svc w) = namePatterns (constructor o))
           (fun _ => True) env) with (events := events) (e := boot o).
  - intros w w' [H1 H2] Hup.
    destruct (update_frame env w w' Hup) as (_ & _ & _ & _ & _ & -> & ->). now split.
  - intros c w _ H.
    destruct c; cbn [callEffect on_svc svc];
      unfold start, pause, resume, stop, reset, updateOptions, enableSimulationMode;
      split_ifs; engine_fields; exact H.
  - apply anything_permitted.
  - now split.
  - exact Hplay.
Qed.

Lemma constructor_form o :
  exists names patterns,
    constructor o = mkService emptyStats o false false [] 0 ∅ ∅ ∅ names patterns [] false.
Proof.
  unfold constructor.
  destruct (initializeCommonNames_form
              (mkService emptyStats o false false [] 0 ∅ ∅ ∅ ∅ ∅ [] false))
    as (names & patterns & ->).
  now exists names, patterns.
Qed.

(** [reset()] in the middle of an execution.  It gives every field the
    value it has in a newly constructed service, except the options, the
    simulation switch and [activeRequests], which it leaves as they are;
    and it leaves every suspended continuation in place.  An answer that is
    being parsed at that moment is therefore still stored afterwards: the
    cleared cache then holds that one prefix and one successful request is
    counted, although the service is not running. *)
Theorem reset_clears_all_but_the_flight
    (env : Env) (o : DiscoveryOptions) (events : list Event) (e : Engine) :
  play env events (boot o) = Some e ->
  let e' := invoke env CallReset e in
  svc (world e') =
    with_activeRequests (activeRequests (svc (world e)))
      (with_simulationMode (simulationMode (svc (world e)))
         (with_options (options (svc (world e))) (constructor o))) /\
  wire (world e') = wire (world e) /\
  pending e' = pending e /\
  forall id prefix response results,
    pending e !! id = Some (Parsing prefix response) ->
    json response = JsonData results ->
    exists e'',
      fire env (Resume id) e' = Some e'' /\
      cachedResults (svc (world e'')) = {[prefix := default [] results]} /\
      exploredPrefixes (stats (svc (world e''))) = [prefix] /\
      successfulRequests (stats (svc (world e''))) = 1 /\
      isRunning (svc (world e'')) = false.
Proof.
  intros Hplay. cbv zeta.
  destruct (name_tables_are_constant env o events e Hplay) as [Hnames Hpatterns].
  cbn [invoke callEffect]. engine_fields.
  split.
  - destruct (constructor_form o) as (names & patterns & E).
    rewrite E in Hnames, Hpatterns. rewrite E. clear E.
    cbn [commonNames namePatterns] in Hnames, Hpatterns.
    unfold reset, stop, with_activeRequests, with_simulationMode, with_options, with_flags.
    cbn [stats options isRunning isPaused prefixQueue activeRequests prefixPatterns
         nameFrequencyMap cachedResults commonNames namePatterns requestTimestamps
         simulationMode].
    rewrite Hnames, Hpatterns. reflexivity.
  - split; [reflexivity|]. split; [reflexivity|].
    intros id prefix response results Htask Hjson.
    cbn [fire]. unfold resumeTask. engine_fields. rewrite Htask, Hjson.
    eexists. split; [reflexivity|]. engine_fields.
    destruct (storeAndHandle_form prefix (default [] results) (reset (svc (world e))))
      as (q & m & ->).
    cbv zeta. unfold reset, stop, emptyStats. engine_fields.
    rewrite insert_empty. split; [reflexivity|]. split; [reflexivity|].
    split; reflexivity.
Qed.

(** On the default service, reset while the answer for "j" is being
    parsed: [activeRequests] is still 1 after the reset, and the answer is
    stored into the cleared state. *)
Lemma reset_clears_all_but_the_flight_witness :
  exists e e'',
    play rateLimitedOnce [Invoke CallStart; Resume 1; Resume 0; Resume 1; Resume 1]
      (boot defaultOptions) = Some e /\
    activeRequests (svc (world (invoke rateLimitedOnce CallReset e))) = 1 /\
    totalRequests (stats (svc (world (invoke rateLimitedOnce CallReset e)))) = 0 /\
    fire rateLimitedOnce (Resume 1) (invoke rateLimitedOnce CallReset e) = Some e'' /\
    cachedResults (svc (world e'')) = {["j" := ["jlice"; "jnna"]]} /\
    successfulRequests (stats (svc (world e''))) = 1 /\
    isRunning (svc (world e'')) = false.
Proof.
  pose (e := default (boot defaultOptions)
               (play rateLimitedOnce
                  [Invoke CallStart; Resume 1; Resume 0; Resume 1; Resume 1]
                  (boot defaultOptions))).
  assert (E : play rateLimitedOnce
                [Invoke CallStart; Resume 1; Resume 0; Resume 1; Resume 1]
                (boot defaultOptions) = Some e) by (vm_compute; reflexivity).
  assert (Htask : pending e !! 1%nat
                  = Some (Parsing "j"
                            (mkResponse true 200 (JsonData (Some ["jlice"; "jnna"])))))
    by (vm_compute; reflexivity).
  destruct (reset_clears_all_but_the_flight rateLimitedOnce defaultOptions _ e E)
    as (_ & _ & _ & Hflight).
  destruct (Hflight 1%nat "j" _ _ Htask eq_refl) as (e'' & E'' & Hcache & _ & Hsucc & Hrun).
  exists e, e''. split; [exact E|]. split; [vm_compute; reflexivity|].
  split; [vm_compute; reflexivity|]. split; [exact E''|].
  split; [exact Hcache|]. split; [exact Hsucc | exact Hrun].
Defined.

(** ** One prefix in flight is one of the executions *)

Ltac chain_done :=
  match goal with
  | Hdone : forall e0 : Engine, _ |- context [play _ _ ?x] =>
      refine (Hdone x _); engine_fields; now rewrite lookup_insert_eq
  end.

Lemma chain_fuel env id prefix :
  forall fuel retryCount e w',
    processPrefixFuel fuel env prefix retryCount (world e) = Some w' ->
    exists events e',
      Forall (fun ev => ev = Resume id) events /\
      play env events (beginPrefix env id prefix retryCount e) = Some e' /\
      world e' = w' /\
      pending e' !! id = Some Finishing.
Proof.
  assert (Hdone : forall e0 : Engine,
             pending e0 !! id = Some Finishing ->
             exists events e',
               Forall (fun ev => ev = Resume id) events /\
               play env events e0 = Some e' /\ world e' = world e0 /\
               pending e' !! id = Some Finishing).
  { intros e0 H. exists [], e0. now repeat split. }
  assert (Hstep : forall (e0 e1 : Engine) w',
             fire env (Resume id) e0 = Some e1 ->
             (exists events e',
                 Forall (fun ev => ev = Resume id) events /\
                 play env events e1 = Some e' /\ world e' = w' /\
                 pending e' !! id = Some Finishing) ->
             exists events e',
               Forall (fun ev => ev = Resume id) events /\
               play env events e0 = Some e' /\ world e' = w' /\
               pending e' !! id = Some Finishing).
  { intros e0 e1 w' Hfire (events & e' & Hall & Hplay & Hw & Hp).
    exists (Resume id :: events), e'. split; [now constructor|].
    cbn [play]. rewrite Hfire. now repeat split. }
  assert (Hsame : forall (m : gmap nat Task) t, <[id := t]> m !! id = Some t)
    by (intros; apply lookup_insert_eq).
  induction fuel as [|fuel IH]; intros retryCount e w'; cbn [processPrefixFuel];
    [discriminate|].
  unfold attempt, beginPrefix.
  destruct (isRunning (svc (world e))); cbn [negb].
  2:{ intros [= <-]. chain_done. }
  destruct (cachedResults (svc (world e)) !! prefix) as [names|].
  { intros [= <-]. chain_done. }
  destruct (shouldSkipPrefix (svc (world e)) prefix).
  { intros [= <-]. chain_done. }
  destruct (simulationMode (svc (on_svc (noteRequest env) (world e)))).
  { intros [= <-]. chain_done. }
  destruct (fetch env (wire (on_svc (noteRequest env) (world e))) prefix)
    as [|response] eqn:Hfetch.
  - (* fetch rejects *)
    intros [= <-]. eapply Hstep.
    + cbn [fire]. unfold resumeTask. engine_fields. rewrite lookup_insert_eq. reflexivity.
    + chain_done.
  - destruct (ok response) eqn:Hok; cbn [negb].
    + (* the body is parsed *)
      intros Hjson.
      destruct (json response) as [|results] eqn:Ej; injection Hjson as <-.
      all: eapply Hstep;
        [cbn [fire]; unfold resumeTask; engine_fields; rewrite lookup_insert_eq, Hok;
         cbn [negb]; reflexivity|].
      all: eapply Hstep;
        [cbn [fire]; unfold resumeTask; engine_fields; rewrite lookup_insert_eq, Ej;
         reflexivity|].
      all: chain_done.
    + destruct (status response =? 429) eqn:H429; cbn [andb].
      * (* rate limited: the backoff, then the retry or the failure *)
        engine_fields.
        match goal with
        | |- context [retryCount <? ?m] => destruct (retryCount <? m) eqn:Hretry
        end.
        -- intros Hrest. eapply Hstep.
           { cbn [fire]. unfold resumeTask. engine_fields.
             rewrite lookup_insert_eq, Hok, H429. cbn [negb]. reflexivity. }
           eapply Hstep.
           { cbn [fire]. unfold resumeTask. engine_fields.
             rewrite lookup_insert_eq, Hretry. reflexivity. }
           match goal with
           | |- context [beginPrefix env id prefix (retryCount + 1) ?x] =>
               apply (IH (retryCount + 1) x w')
           end.
           exact Hrest.
        -- intros [= <-]. eapply Hstep.
           { cbn [fire]. unfold resumeTask. engine_fields.
             rewrite lookup_insert_eq, Hok, H429. cbn [negb]. reflexivity. }
           eapply Hstep.
           { cbn [fire]. unfold resumeTask. engine_fields.
             rewrite lookup_insert_eq, Hretry. reflexivity. }
           chain_done.
      * intros [= <-]. eapply Hstep.
        { cbn [fire]. unfold resumeTask. engine_fields.
          rewrite lookup_insert_eq, Hok, H429. cbn [negb]. reflexivity. }
        chain_done.
Qed.

(** A call of [processPrefix] that nothing interferes with is one of the
    interleaved executions: entering [processPrefix] and then resuming that
    same activation, and nothing else, until its promise settles leaves the
    service and the wire exactly as the one-at-a-time [processPrefix]
    does. *)
Theorem processPrefix_is_an_uninterrupted_chain
    (env : Env) (id : nat) (prefix : string) (retryCount : Z) (e : Engine) :
  exists w' events e',
    processPrefix env prefix retryCount (world e) = Some w' /\
    Forall (fun ev => ev = Resume id) events /\
    play env events (beginPrefix env id prefix retryCount e) = Some e' /\
    world e' = w' /\
    pending e' !! id = Some Finishing.
Proof.
  destruct (processPrefix_spec env prefix retryCount (world e)) as (w' & k & E & _).
  destruct (chain_fuel env id prefix _ retryCount e w' E) as (events & e' & H).
  now exists w', events, e'.
Qed.
